(** * Normalization pipeline of the telemetry engine (src/nodejs/normalize.js)

    A shallow embedding of [reduceData], [getDataByKey], [filterDataByKeys],
    [renameKeysInData], [runCustomFunction] and [normalizeData], followed by
    the properties established about them.

    Conventions of the embedding.
    - A payload is a JSON value.  A JavaScript number is an IEEE 754 binary64
      float; a string is the sequence of its code units (8-bit here).
    - An object is the list of its own enumerable properties in the order
      in which [Object.keys] enumerates them, together with its prototype;
      keys are unique in a well-formed object ([wf_value]).  Property order
      matters to the code (overwrites during renaming), hence an association
      list and not a finite map.  The prototype matters as well: an
      assignment [ret['__proto__'] = v] to a fresh object stores no
      property, it runs the accessor of [Object.prototype] and replaces the
      prototype of [ret], through which later reads go ([assign],
      [get_member]).
    - The payload is data: it holds no function.  The built-in prototypes
      and their methods come in at one place, key resolution, which tests
      [i in ret] for any name [i]: what it can reach there is a [resolved]
      value, a piece of data or a built-in of the runtime.  Which names the
      built-in prototypes define is the runtime's business (a parameter);
      they are taken to be as the runtime creates them (accessor
      [__proto__], methods, no enumerable property and none of the names
      [nestedStats], [value], [description], [color]; [entries] on
      [Array.prototype] only).
    - Exceptions are explicit: every operation that can throw returns a
      [result].
    - The collaborators that are not part of these sources (the
      array-to-map converter of util.js, the separator of constants.js, the
      registry of normalizeUtil.js) and the regular expressions of the
      runtime are parameters. *)

From Stdlib Require Import List String Ascii Bool Arith NArith Lia Sorted.
From Stdlib Require Import ZArith DecimalString Uint63 PrimFloat.
Import ListNotations.

Set Warnings "-register-all".

Local Open Scope string_scope.
Local Open Scope list_scope.

(** ** Strings: the three methods of [String.prototype] the code calls *)

Module JsString.

(** [s.startsWith(pat)], the test at one position of the searches below. *)
Fixpoint starts_with (pat s : string) : bool :=
  match pat with
  | EmptyString => true
  | String a pat' =>
      match s with
      | EmptyString => false
      | String b s' => Ascii.eqb a b && starts_with pat' s'
      end
  end.

(** [s.includes(needle)] *)
Fixpoint includes (needle s : string) : bool :=
  if starts_with needle s then true
  else match s with
       | EmptyString => false
       | String _ rest => includes needle rest
       end.

Fixpoint drop (n : nat) (s : string) : string :=
  match n, s with
  | S k, String _ rest => drop k rest
  | _, _ => s
  end.

(** [s.replace(pat, rep)] with a string pattern: only the first occurrence
    is replaced.  The replacement strings of the source contain no [$]. *)
Fixpoint replace (pat rep s : string) : string :=
  if starts_with pat s then rep ++ drop (String.length pat) s
  else match s with
       | EmptyString => EmptyString
       | String c rest => String c (replace pat rep rest)
       end.

(** Scanning loop of [split] for a non-empty separator: [skip] counts the
    code units of a separator still to be passed over, [cur] is the segment
    read so far. *)
Fixpoint split_from (sep : string) (skip : nat) (cur s : string) : list string :=
  match s with
  | EmptyString => [cur]
  | String c rest =>
      match skip with
      | S k => split_from sep k cur rest
      | O =>
          if starts_with sep s
          then cur :: split_from sep (String.length sep - 1) EmptyString rest
          else split_from sep 0 (cur ++ String c EmptyString) rest
      end
  end.

Fixpoint code_units (s : string) : list string :=
  match s with
  | EmptyString => []
  | String c rest => String c EmptyString :: code_units rest
  end.

(** [s.split(sep)]: an empty separator splits into code units. *)
Definition split (sep s : string) : list string :=
  match sep with
  | EmptyString => code_units s
  | _ => split_from sep 0 EmptyString s
  end.

End JsString.

(** ** Values, exceptions *)

(** [VObj props] is an object with the prototype an object literal has,
    [Object.prototype].  [VProto proto props] is an object whose prototype
    has been replaced by [proto]: null, an array or an object. *)
Inductive value : Type :=
| VNull
| VBool (b : bool)
| VNum (n : float)
| VStr (s : string)
| VArr (elems : list value)
| VObj (props : list (string * value))
| VProto (proto : value) (props : list (string * value)).

Inductive error : Type :=
| TypeError                          (* raised by the runtime *)
| Error (message : string)           (* [new Error(message)] *)
| CustomFunctionFailed (cause : error).
                    (* [new Error(`runCustomFunction failed: ${cause}`)] *)

Inductive result (A : Type) : Type :=
| Ok (a : A)
| Throw (e : error).
Arguments Ok {A} & a.
Arguments Throw {A} e.

Definition bind {A B : Type} (r : result A) (k : A -> result B) : result B :=
  match r with
  | Ok a => k a
  | Throw e => Throw e
  end.

Notation "x <- r ;; k" := (bind r (fun x => k))
  (at level 61, r at next level, right associativity).

(** Induction on values that reaches the elements of arrays, the property
    values of objects and their prototypes. *)
Section ValueInd.
Variable P : value -> Prop.
Hypothesis Hnull : P VNull.
Hypothesis Hbool : forall b, P (VBool b).
Hypothesis Hnum : forall n, P (VNum n).
Hypothesis Hstr : forall s, P (VStr s).
Hypothesis Harr : forall l, Forall P l -> P (VArr l).
Hypothesis Hobj : forall kvs, Forall (fun kv => P (snd kv)) kvs -> P (VObj kvs).
Hypothesis Hproto : forall proto kvs,
    P proto -> Forall (fun kv => P (snd kv)) kvs -> P (VProto proto kvs).

Fixpoint value_deep_ind (v : value) : P v :=
  match v with
  | VNull => Hnull
  | VBool b => Hbool b
  | VNum n => Hnum n
  | VStr s => Hstr s
  | VArr l =>
      Harr l ((fix go (l : list value) : Forall P l :=
                 match l with
                 | [] => Forall_nil _
                 | x :: t => Forall_cons x (value_deep_ind x) (go t)
                 end) l)
  | VObj kvs =>
      Hobj kvs ((fix go (l : list (string * value)) : Forall (fun kv => P (snd kv)) l :=
                   match l with
                   | [] => Forall_nil _
                   | kv :: t => Forall_cons kv (value_deep_ind (snd kv)) (go t)
                   end) kvs)
  | VProto proto kvs =>
      Hproto proto kvs (value_deep_ind proto)
             ((fix go (l : list (string * value)) : Forall (fun kv => P (snd kv)) l :=
                 match l with
                 | [] => Forall_nil _
                 | kv :: t => Forall_cons kv (value_deep_ind (snd kv)) (go t)
                 end) kvs)
  end.
End ValueInd.

(** ** The runtime's view of a value *)

(** Truthiness ([ToBoolean]). *)
Definition truthy (v : value) : bool :=
  match v with
  | VNull => false
  | VBool b => b
  | VNum n => negb (PrimFloat.is_zero n || PrimFloat.is_nan n)
  | VStr s => negb (String.eqb s "")
  | VArr _ | VObj _ | VProto _ _ => true
  end.

Definition isArray (v : value) : bool :=
  match v with VArr _ => true | _ => false end.

(** Neither a sequence nor a mapping. *)
Definition is_scalar (v : value) : bool :=
  match v with VArr _ | VObj _ | VProto _ _ => false | _ => true end.

(** [typeof v === 'object'] : true of null, arrays and objects. *)
Definition typeof_object (v : value) : bool :=
  match v with VNull | VArr _ | VObj _ | VProto _ _ => true | _ => false end.

(** Decimal spelling of an index, as [Object.keys] spells array indices. *)
Definition index_key (i : N) : string :=
  NilEmpty.string_of_uint (N.to_uint i).

(** A property key is an array index when it is the canonical decimal
    spelling of an integer below 2^32 - 1. *)
Definition array_index (k : string) : option N :=
  match NilEmpty.uint_of_string k with
  | Some u =>
      let n := N.of_uint u in
      if String.eqb (index_key n) k && N.ltb n 4294967295 then Some n else None
  | None => None
  end.

Fixpoint get_prop (k : string) (props : list (string * value)) : option value :=
  match props with
  | [] => None
  | (k', v) :: rest => if String.eqb k k' then Some v else get_prop k rest
  end.

Definition has_prop (k : string) (props : list (string * value)) : bool :=
  match get_prop k props with Some _ => true | None => false end.

Fixpoint replace_prop (k : string) (v : value) (props : list (string * value))
  : list (string * value) :=
  match props with
  | [] => []
  | (k', v') :: rest =>
      if String.eqb k k' then (k', v) :: rest
      else (k', v') :: replace_prop k v rest
  end.

(** Position of a new integer-indexed property: integer keys are
    enumerated first, in ascending order. *)
Fixpoint insert_index (n : N) (k : string) (v : value) (props : list (string * value))
  : list (string * value) :=
  match props with
  | [] => [(k, v)]
  | (k', v') :: rest =>
      match array_index k' with
      | Some m => if N.ltb n m then (k, v) :: props
                  else (k', v') :: insert_index n k v rest
      | None => (k, v) :: props
      end
  end.

(** Writing the own property [k] of an object, be it new or not: an
    existing property keeps its place; a new integer key goes to its
    numeric place, any other new key to the end. *)
Definition set_prop (k : string) (v : value) (props : list (string * value))
  : list (string * value) :=
  if has_prop k props then replace_prop k v props
  else match array_index k with
       | Some n => insert_index n k v props
       | None => props ++ [(k, v)]
       end.

(** [delete obj[k]] *)
Fixpoint delete_prop (k : string) (props : list (string * value))
  : list (string * value) :=
  match props with
  | [] => []
  | (k', v) :: rest =>
      if String.eqb k k' then rest else (k', v) :: delete_prop k rest
  end.

Fixpoint indexed_from (i : N) (l : list value) : list (string * value) :=
  match l with
  | [] => []
  | x :: rest => (index_key i, x) :: indexed_from (N.succ i) rest
  end.

(** Own enumerable string-keyed properties, in [Object.keys] order.  A
    string exposes its code units, an array its elements; the remaining
    primitives have none. *)
Definition own_props (v : value) : list (string * value) :=
  match v with
  | VObj props | VProto _ props => props
  | VArr elems => indexed_from 0 elems
  | VStr s => indexed_from 0 (map VStr (JsString.code_units s))
  | _ => []
  end.

(** A length, as a number. *)
Definition number_of_nat (n : nat) : float :=
  PrimFloat.of_uint63 (Uint63.of_Z (Z.of_nat n)).

(** [v[k]] for a value [v] other than null, as far as the member is a
    piece of data: an own property, or a property found along the
    prototypes that assignments have installed.  [None] is [undefined], or
    a member of a built-in prototype: the reducer asks for names that the
    built-in prototypes do not define (but see [entries_container]), and
    key resolution looks into them by itself ([getDataByKey_step]). *)
Fixpoint get_member (v : value) (k : string) : option value :=
  match v with
  | VObj props => get_prop k props
  | VProto proto props =>
      match get_prop k props with
      | Some x => Some x
      | None => get_member proto k
      end
  | VArr elems =>
      if String.eqb k "length" then Some (VNum (number_of_nat (List.length elems)))
      else match array_index k with
           | Some i => nth_error elems (N.to_nat i)
           | None => None
           end
  | VStr s =>
      if String.eqb k "length" then Some (VNum (number_of_nat (String.length s)))
      else match array_index k with
           | Some i => nth_error (map VStr (JsString.code_units s)) (N.to_nat i)
           | None => None
           end
  | _ => None
  end.

(** No null anywhere in the value. *)
Fixpoint null_free (v : value) : bool :=
  match v with
  | VNull => false
  | VArr elems => forallb null_free elems
  | VObj props => forallb (fun kv => null_free (snd kv)) props
  | VProto proto props =>
      null_free proto && forallb (fun kv => null_free (snd kv)) props
  | _ => true
  end.

(** Keys are unique in every object of a well-formed value, and a
    prototype is null, an array or an object. *)
Fixpoint distinct (keys : list string) : bool :=
  match keys with
  | [] => true
  | k :: rest => negb (existsb (String.eqb k) rest) && distinct rest
  end.

Fixpoint wf_value (v : value) : bool :=
  match v with
  | VArr elems => forallb wf_value elems
  | VObj props =>
      distinct (map fst props) && forallb (fun kv => wf_value (snd kv)) props
  | VProto proto props =>
      typeof_object proto && wf_value proto &&
      distinct (map fst props) && forallb (fun kv => wf_value (snd kv)) props
  | _ => true
  end.

(** ** Assignment to a property *)

(** Whether [obj['__proto__'] = v] reaches the accessor that
    [Object.prototype] has under that name: neither [obj] nor an object on
    its chain of prototypes has a property of that name of its own, and the
    chain does not end (at null) before [Object.prototype]. *)
Fixpoint proto_setter (obj : value) : bool :=
  match obj with
  | VObj props => negb (has_prop "__proto__" props)
  | VProto proto props => negb (has_prop "__proto__" props) && proto_setter proto
  | VArr _ => true
  | _ => false
  end.

(** The accessor's work on [obj], for a [proto] that is null or an
    object. *)
Definition set_prototype (proto : value) (obj : value) : value :=
  match obj with
  | VObj props | VProto _ props => VProto proto props
  | _ => obj
  end.

Definition set_own (k : string) (v : value) (obj : value) : value :=
  match obj with
  | VObj props => VObj (set_prop k v props)
  | VProto proto props => VProto proto (set_prop k v props)
  | _ => obj
  end.

(** [obj[k] = v] on an object [obj] that is not an array.  The name
    [__proto__] is the one name under which the chain of prototypes may
    offer an accessor: its setter replaces the prototype of [obj] when [v]
    is null or an object, and does nothing for any other [v]; no property
    is stored.  Every other assignment writes an own property of [obj]
    (what the prototypes hold under [k], if anything, is writable
    data). *)
Definition assign (k : string) (v : value) (obj : value) : value :=
  if String.eqb k "__proto__" && proto_setter obj
  then if typeof_object v then set_prototype v obj else obj
  else set_own k v obj.

(** ** Options *)

(** [options.convertArrayToMap]: [{ keyName, keyNamePrefix }], either of
    which may be absent. *)
Record catm_options : Type := {
  keyName : option string;
  keyNamePrefix : option string
}.

Module ReduceOptions.
Record t : Type := { convertArrayToMap : option catm_options }.
End ReduceOptions.

(** [catm && catm.keyName]: the key name when it is present and non-empty. *)
Definition catm_keyName (o : ReduceOptions.t) : option (string * option string) :=
  match ReduceOptions.convertArrayToMap o with
  | Some catm =>
      match keyName catm with
      | Some name => if truthy (VStr name) then Some (name, keyNamePrefix catm) else None
      | None => None
      end
  | None => None
  end.

(** ** reduceData *)

Definition keysToReduce : list string :=
  ["nestedStats"; "value"; "description"; "color"].

(** The loop over [keysToReduce]: the first [item] with
    [item !== undefined && Object.keys(data).length === 1]. *)
Fixpoint scaffold_item (names : list string) (data : value) : option value :=
  match names with
  | [] => None
  | name :: rest =>
      match get_member data name with
      | Some item =>
          if Nat.eqb (List.length (own_props data)) 1 then Some item
          else scaffold_item rest data
      | None => scaffold_item rest data
      end
  end.

(** An array among the prototypes of a value, or the value itself: then
    the methods of [Array.prototype] are inherited. *)
Fixpoint inherits_from_array (v : value) : bool :=
  match v with
  | VArr _ => true
  | VProto proto _ => inherits_from_array proto
  | _ => false
  end.

(** [data.entries && !Array.isArray(data)]: when the test succeeds, the
    keys of [Object.keys(data.entries)], each with [data.entries[k]].  On an
    array [.entries] is the inherited iterator method, which is truthy, so
    only the second conjunct decides; an object that has an array among its
    prototypes inherits that method too, unless a property [entries] is
    found before, and a function has no keys. *)
Definition entries_container (data : value) : option (list (string * value)) :=
  if isArray data then None
  else match get_member data "entries" with
       | Some e => if truthy e then Some (own_props e) else None
       | None => if inherits_from_array data then Some [] else None
       end.

(** [k.replace('https://localhost/', '').replace('mgmt/tm/', '')] *)
Definition simplify_key (k : string) : string :=
  JsString.replace "mgmt/tm/" "" (JsString.replace "https://localhost/" "" k).

(** The object [ret] built from [data.entries], by [ret[kM] = v] from
    [{}]. *)
Definition entries_object (entries : list (string * value)) : value :=
  fold_left (fun ret kv => assign (simplify_key (fst kv)) (snd kv) ret)
            entries (VObj []).

(** The two [forEach] loops of the generic case, over a recursive call [f]
    that may throw or (in the fuelled semantics) run out of fuel. *)
Fixpoint reduce_each (f : value -> option (result value))
         (elems : list value) (ret : list value) : option (result (list value)) :=
  match elems with
  | [] => Some (Ok ret)
  | i :: rest =>
      match f i with
      | Some (Ok r) => reduce_each f rest (ret ++ [r])
      | Some (Throw e) => Some (Throw e)
      | None => None
      end
  end.

Fixpoint reduce_object (f : value -> option (result value))
         (props : list (string * value)) (ret : value)
  : option (result value) :=
  match props with
  | [] => Some (Ok ret)
  | (k, v) :: rest =>
      match f v with
      | Some (Ok r) => reduce_object f rest (assign k r ret)
      | Some (Throw e) => Some (Throw e)
      | None => None
      end
  end.

Definition lift {A B : Type} (g : A -> B) (o : option (result A)) : option (result B) :=
  match o with
  | Some (Ok a) => Some (Ok (g a))
  | Some (Throw e) => Some (Throw e)
  | None => None
  end.

Section Reduce.

(** [util.convertArrayToMap(data, keyName, { keyPrefix })]; util.js is not
    among the sources, so the converter is a parameter. *)
Variable util_convertArrayToMap :
  list value -> string -> option string -> result value.

(** The body of [reduceData], every recursive call going through
    [self]. *)
Definition reduceData_body (self : value -> option (result value))
           (data : value) (options : ReduceOptions.t) : option (result value) :=
  match data with
  | VNull => Some (Throw TypeError)           (* [data[keysToReduce[0]]] *)
  | _ =>
      match scaffold_item keysToReduce data with
      | Some item => self item
      | None =>
          match entries_container data with
          | Some entries => self (entries_object entries)
          | None =>
              match data with
              | VArr elems =>
                  match catm_keyName options with
                  | Some (name, prefix) =>
                      match util_convertArrayToMap elems name prefix with
                      | Ok ret => self ret
                      | Throw e => Some (Throw e)
                      end
                  | None => lift VArr (reduce_each self elems [])
                  end
              | VObj props | VProto _ props => reduce_object self props (VObj [])
              | _ => Some (Ok data)
              end
          end
      end
  end.

(** [reduceData] is not structurally recursive (it recurses on the object
    it builds from [data.entries], and on the converter's result), so the
    recursion is bounded by [fuel]; [None] means the bound was reached. *)
Fixpoint reduceData_fuel (fuel : nat) (data : value) (options : ReduceOptions.t)
  : option (result value) :=
  match fuel with
  | O => None
  | S fuel' =>
      reduceData_body (fun v => reduceData_fuel fuel' v options) data options
  end.

(** Nesting depth, prototypes included; a property named [entries]
    counts one level more, for the object rebuilt from it. *)
Fixpoint nesting (v : value) : nat :=
  match v with
  | VArr elems => S (fold_right (fun x m => Nat.max (nesting x) m) 0 elems)
  | VObj props =>
      S (fold_right
           (fun kv m =>
              Nat.max (nesting (snd kv) + (if String.eqb (fst kv) "entries" then 1 else 0)) m)
           0 props)
  | VProto proto props =>
      S (Nat.max
           (nesting proto)
           (fold_right
              (fun kv m =>
                 Nat.max (nesting (snd kv)
                          + (if String.eqb (fst kv) "entries" then 1 else 0)) m)
              0 props))
  | _ => 0
  end.

(** [reduceData(data, options)], with fuel enough for every payload when
    no array-to-map conversion is requested ([reduceData_total]). *)
Definition reduceData (data : value) (options : ReduceOptions.t) : option (result value) :=
  reduceData_fuel (S (nesting data)) data options.

End Reduce.

(** ** Built-in objects *)

(** What key resolution can reach besides data: the two built-in
    prototypes in which the chains of prototypes of objects and arrays end,
    and the functions these have as properties. *)
Inductive builtin : Type :=
| Object_prototype
| Array_prototype
| Object_prototype_function (name : string)
| Array_prototype_function (name : string).

Inductive resolved : Type :=
| Data (v : value)
| Builtin (b : builtin).

Coercion Data : value >-> resolved.

(** A built-in holds no null, and no array. *)
Definition resolved_null_free (r : resolved) : bool :=
  match r with
  | Data v => null_free v
  | Builtin _ => true
  end.

(** ** getDataByKey *)

Definition missing_key : value := VStr "missing key".

Section GetDataByKey.

(** [constants.STATS_KEY_SEP]; constants.js is not among the sources. *)
Variable STATS_KEY_SEP : string.

(** The names under which the runtime's [Object.prototype] and
    [Array.prototype] have a function as own property ([constructor],
    [toString], [map], ...; the set depends on the version of the
    runtime).  The accessor [__proto__] of [Object.prototype] and the
    [length] of [Array.prototype] are not left to this parameter. *)
Variable builtin_has : builtin -> string -> bool.

(** [receiver[i]] as far as [Object.prototype] provides it: the getter of
    [__proto__] returns the prototype of the receiver, given here as
    [proto]. *)
Definition Object_prototype_member (proto : resolved) (i : string) : option resolved :=
  if String.eqb i "__proto__" then Some proto
  else if builtin_has Object_prototype i
       then Some (Builtin (Object_prototype_function i))
       else None.

(** The same for [Array.prototype], whose prototype is
    [Object.prototype]. *)
Definition Array_prototype_member (proto : resolved) (i : string) : option resolved :=
  if builtin_has Array_prototype i
  then Some (Builtin (Array_prototype_function i))
  else Object_prototype_member proto i.

(** What the built-in prototypes at the end of the chain of [v] provide;
    a chain that ends at null has none. *)
Fixpoint builtin_member (v : value) (proto : resolved) (i : string) : option resolved :=
  match v with
  | VObj _ => Object_prototype_member proto i
  | VArr _ => Array_prototype_member proto i
  | VProto p _ => builtin_member p proto i
  | _ => None
  end.

(** The prototype of an object or array. *)
Definition prototype_of (v : value) : resolved :=
  match v with
  | VProto p _ => Data p
  | VArr _ => Builtin Array_prototype
  | _ => Builtin Object_prototype
  end.

(** One turn of the [forEach]: [typeof ret === 'object' && i in ret].
    [typeof null] is ['object'], and [in] throws on null; [in] holds of
    inherited members as well as of own ones, and [typeof] is
    ['function'] for a function. *)
Definition getDataByKey_step (ret : resolved) (i : string) : result resolved :=
  match ret with
  | Data v =>
      if typeof_object v then
        match v with
        | VNull => Throw TypeError
        | _ =>
            match get_member v i with
            | Some x => Ok (Data x)
            | None =>
                match builtin_member v (prototype_of v) i with
                | Some m => Ok m
                | None => Ok (Data missing_key)
                end
            end
        end
      else Ok (Data missing_key)
  | Builtin Object_prototype =>
      match Object_prototype_member (Data VNull) i with
      | Some m => Ok m
      | None => Ok (Data missing_key)
      end
  | Builtin Array_prototype =>
      if String.eqb i "length" then Ok (Data (VNum (number_of_nat 0)))
      else match Array_prototype_member (Builtin Object_prototype) i with
           | Some m => Ok m
           | None => Ok (Data missing_key)
           end
  | Builtin _ => Ok (Data missing_key)
  end.

(** The [forEach] over the segments; an exception ends it. *)
Definition resolve_segments (segments : list string) (start : result resolved)
  : result resolved :=
  fold_left (fun ret i => r <- ret ;; getDataByKey_step r i) segments start.

Definition getDataByKey (data : resolved) (key : string) : result resolved :=
  resolve_segments (JsString.split STATS_KEY_SEP key) (Ok data).

End GetDataByKey.

(** ** filterDataByKeys *)

(** The inner [keys.forEach]: the final value of [deleteKey]. *)
Definition deleteKey (keys : list string) (k : string) : bool :=
  fold_left (fun del i => if JsString.includes i k then false else del) keys true.

(** The outer [forEach], over the key snapshot [Object.keys(data)].  The
    function works in place: [ret] is [data] itself, and at the turn of [k]
    the value [ret[k]] is still the original one, as only that turn writes
    it.  [self] is the recursive call. *)
Fixpoint filter_props (self : value -> result value) (keys : list string)
         (todo ret : list (string * value)) : result (list (string * value)) :=
  match todo with
  | [] => Ok ret
  | (k, v) :: rest =>
      if deleteKey keys k then filter_props self keys rest (delete_prop k ret)
      else v' <- self v ;;
           filter_props self keys rest (set_prop k v' ret)
  end.

Fixpoint filterDataByKeys (data : value) (keys : list string) : result value :=
  match data with
  | VNull => Throw TypeError                    (* [Object.keys(null)] *)
  | VArr _ => Ok data
  | VObj props =>
      ret <- filter_props (fun v => filterDataByKeys v keys) keys props props ;;
      Ok (VObj ret)
  | VProto proto props =>
      ret <- filter_props (fun v => filterDataByKeys v keys) keys props props ;;
      Ok (VProto proto ret)
  | _ => Ok data
  end.

(** The filter on what key resolution has returned.  A built-in comes back
    as it is: it is a function, or an array ([Array.prototype]), or has no
    enumerable property ([Object.prototype]). *)
Definition filterDataByKeys_resolved (data : resolved) (keys : list string)
  : result resolved :=
  match data with
  | Data v => ret <- filterDataByKeys v keys ;; Ok (Data ret)
  | Builtin _ => Ok data
  end.

(** ** renameKeysInData *)

Section Rename.

(** Regular expressions and [String.prototype.match] belong to the
    runtime.  A match is the array of the whole match and the capture
    groups, a group that did not take part being [undefined]. *)
Variable regex : Type.
Variable string_match : string -> regex -> option (list (option string)).

(** A value of the [patterns] map: a bare pattern, or
    [{ pattern, group }]. *)
Inductive rename_pattern : Type :=
| Bare (r : regex)
| PatternGroup (pattern : regex) (group : option nat).

Definition entry_pattern (e : rename_pattern) : regex :=
  match e with Bare r => r | PatternGroup p _ => p end.

(** [patterns[pK].group ? patterns[pK].group : 0] *)
Definition entry_group (e : rename_pattern) : nat :=
  match e with
  | PatternGroup _ (Some g) => g
  | _ => 0
  end.

(** [checkForMatch[group]], used as a property key: [undefined] is
    spelled out. *)
Definition match_group (m : list (option string)) (g : nat) : string :=
  match nth_error m g with
  | Some (Some s) => s
  | _ => "undefined"
  end.

(** The inner loop over [Object.keys(patterns)]: [Some renamedKey] when
    [renameKey] ends up true. *)
Definition renamedKey (patterns : list (string * rename_pattern)) (k : string)
  : option string :=
  fold_left
    (fun acc p =>
       if JsString.includes (fst p) k then
         match string_match k (entry_pattern (snd p)) with
         | Some m => Some (match_group m (entry_group (snd p)))
         | None => acc
         end
       else acc)
    patterns None.

(** The key under which the subtree of [k] is stored. *)
Definition target_key (patterns : list (string * rename_pattern)) (k : string) : string :=
  match renamedKey patterns k with
  | Some k' => k'
  | None => k
  end.

(** The outer [forEach], filling the fresh object [ret]; [self] is the
    recursive call. *)
Fixpoint rename_object (self : value -> result value)
         (patterns : list (string * rename_pattern))
         (todo : list (string * value)) (ret : value) : result value :=
  match todo with
  | [] => Ok ret
  | (k, v) :: rest =>
      v' <- self v ;;
      rename_object self patterns rest (assign (target_key patterns k) v' ret)
  end.

Fixpoint renameKeysInData (data : value) (patterns : list (string * rename_pattern))
  : result value :=
  match data with
  | VNull => Throw TypeError                  (* [Object.keys(null)] *)
  | VObj props | VProto _ props =>
      rename_object (fun v => renameKeysInData v patterns) patterns props (VObj [])
  | _ => Ok data
  end.

(** The renamer on what key resolution has returned.  [Object.prototype]
    is an object without enumerable property: the fresh [{}] comes back
    for it.  Any other built-in is an array or a function and comes back
    as it is. *)
Definition renameKeysInData_resolved (data : resolved)
           (patterns : list (string * rename_pattern)) : result resolved :=
  match data with
  | Data v => ret <- renameKeysInData v patterns ;; Ok (Data ret)
  | Builtin Object_prototype => Ok (Data (VObj []))
  | Builtin _ => Ok data
  end.

End Rename.

Arguments Bare {regex} r.
Arguments PatternGroup {regex} pattern group.

(** ** runCustomFunction *)

Module CustomFunctionOptions.
(** [{ func, args }] *)
Record t : Type := { func : string; args : option value }.
End CustomFunctionOptions.

(** The object [args] handed to a registered function: its property
    [data], which it has from the start and keeps, and the object made of
    its other properties, the named arguments, with the prototype of
    [args]. *)
Record arguments : Type := {
  args_data : resolved;
  args_named : value
}.

(** A call of a registered function, with the argument object it got. *)
Record invocation : Type := {
  invoked : string;
  invoked_with : arguments
}.

Definition reserved_argument : error :=
  Error "Named argument (data) is not allowed".

(** The [forEach] over [Object.keys(optionalArgs)], on the named arguments
    of [args]. *)
Fixpoint merge_args (todo : list (string * value)) (named : value) : result value :=
  match todo with
  | [] => Ok named
  | (k, v) :: rest =>
      if String.eqb k "data" then Throw reserved_argument
      else merge_args rest (assign k v named)
  end.

Section CustomFunction.

(** The registry [normalizeUtil]; normalizeUtil.js is not among the
    sources.  [None] is a name under which the registry has nothing to
    call. *)
Variable normalizeUtil : string -> option (arguments -> result resolved).

(** The result, together with the calls made into the registry. *)
Definition runCustomFunction (data : resolved) (options : CustomFunctionOptions.t)
  : result resolved * list invocation :=
  let named := VObj [] in
  let merged :=
    match CustomFunctionOptions.args options with
    | Some optionalArgs =>
        if truthy optionalArgs && typeof_object optionalArgs
        then merge_args (own_props optionalArgs) named
        else Ok named
    | None => Ok named
    end in
  match merged with
  | Throw e => (Throw e, [])
  | Ok named =>
      let args := {| args_data := data; args_named := named |} in
      match normalizeUtil (CustomFunctionOptions.func options) with
      | Some f =>
          let call := {| invoked := CustomFunctionOptions.func options;
                         invoked_with := args |} in
          match f args with
          | Ok r => (Ok r, [call])
          | Throw e => (Throw (CustomFunctionFailed e), [call])
          end
      | None => (Throw (CustomFunctionFailed TypeError), [])
      end
  end.

End CustomFunction.

(** ** normalizeData *)

Module Options.
(** [options.runCustomFunction]: [{ name, args }] *)
Record custom : Type := { name : string; args : option value }.

Record t (regex : Type) : Type := {
  key : option string;
  filterByKeys : option (list string);
  renameKeysByPattern : option (list (string * rename_pattern regex));
  convertArrayToMap : option catm_options;
  runCustomFunction : option custom
}.
Arguments key {regex} t.
Arguments filterByKeys {regex} t.
Arguments renameKeysByPattern {regex} t.
Arguments convertArrayToMap {regex} t.
Arguments runCustomFunction {regex} t.
End Options.

Section Normalize.

Variable util_convertArrayToMap :
  list value -> string -> option string -> result value.
Variable STATS_KEY_SEP : string.
Variable builtin_has : builtin -> string -> bool.
Variable regex : Type.
Variable string_match : string -> regex -> option (list (option string)).
Variable normalizeUtil : string -> option (arguments -> result resolved).

(** The stages that follow the reduction, on the reduced value. *)
Definition normalize_stages (reduced : resolved) (options : Options.t regex)
  : result resolved * list invocation :=
  let ret :=
    ret <- match Options.key options with
           | Some k => if truthy (VStr k)
                       then getDataByKey STATS_KEY_SEP builtin_has reduced k
                       else Ok reduced
           | None => Ok reduced
           end ;;
    ret <- match Options.filterByKeys options with
           | Some keys => filterDataByKeys_resolved ret keys
           | None => Ok ret
           end ;;
    match Options.renameKeysByPattern options with
    | Some patterns => renameKeysInData_resolved regex string_match ret patterns
    | None => Ok ret
    end in
  match ret with
  | Throw e => (Throw e, [])
  | Ok ret =>
      match Options.runCustomFunction options with
      | Some rcf =>
          let rCFOptions :=
            {| CustomFunctionOptions.func := Options.name rcf;
               CustomFunctionOptions.args := Options.args rcf |} in
          runCustomFunction normalizeUtil ret rCFOptions
      | None => (Ok ret, [])
      end
  end.

(** [normalizeData(data, options)] under the fuel bound of the reduction;
    [None] only when that bound is reached. *)
Definition normalizeData_fuel (fuel : nat) (data : value) (options : Options.t regex)
  : option (result resolved * list invocation) :=
  let reduceDataOptions :=
    {| ReduceOptions.convertArrayToMap := Options.convertArrayToMap options |} in
  match reduceData_fuel util_convertArrayToMap fuel data reduceDataOptions with
  | None => None
  | Some (Throw e) => Some (Throw e, [])
  | Some (Ok ret) => Some (normalize_stages (Data ret) options)
  end.

Definition normalizeData (data : value) (options : Options.t regex)
  : option (result resolved * list invocation) :=
  normalizeData_fuel (S (nesting data)) data options.

End Normalize.

(** ** The loops on own properties *)

(** As long as no assignment of a loop is to [__proto__], each of them
    writes an own property of [ret] and leaves the prototype of [ret] as it
    is.  The loops of the code are then the following ones, on the list of
    the own properties of [ret] ([entries_object_ret], [reduce_object_props],
    [rename_object_props]); the facts about keys and their order are
    established on these. *)
Definition entries_ret (entries : value) : list (string * value) :=
  fold_left (fun ret kv => set_prop (simplify_key (fst kv)) (snd kv) ret)
            (own_props entries) [].

Fixpoint reduce_props (f : value -> option (result value))
         (props : list (string * value)) (ret : list (string * value))
  : option (result (list (string * value))) :=
  match props with
  | [] => Some (Ok ret)
  | (k, v) :: rest =>
      match f v with
      | Some (Ok r) => reduce_props f rest (set_prop k r ret)
      | Some (Throw e) => Some (Throw e)
      | None => None
      end
  end.

Section RenameProps.

Variable regex : Type.
Variable string_match : string -> regex -> option (list (option string)).

Fixpoint rename_props (self : value -> result value)
         (patterns : list (string * rename_pattern regex))
         (todo ret : list (string * value)) : result (list (string * value)) :=
  match todo with
  | [] => Ok ret
  | (k, v) :: rest =>
      v' <- self v ;;
      rename_props self patterns rest
                   (set_prop (target_key regex string_match patterns k) v' ret)
  end.

Definition rename_all (patterns : list (string * rename_pattern regex))
           (todo ret : list (string * value)) : result (list (string * value)) :=
  rename_props (fun v => renameKeysInData regex string_match v patterns)
               patterns todo ret.

End RenameProps.

(** ** Payloads without [__proto__] *)

(** Every object of the value has the prototype of an object literal, and
    every key satisfies [ok]. *)
Fixpoint keys_all (ok : string -> bool) (v : value) : bool :=
  match v with
  | VArr elems => forallb (keys_all ok) elems
  | VObj props => forallb (fun kv => ok (fst kv) && keys_all ok (snd kv)) props
  | VProto _ _ => false
  | _ => true
  end.

Definition not_proto (k : string) : bool := negb (String.eqb k "__proto__").

(** A key that is not [__proto__], also after the simplification of the
    keys of entries. *)
Definition plain_key (k : string) : bool :=
  not_proto k && not_proto (simplify_key k).

(** No key of the payload is [__proto__]. *)
Definition proto_free (v : value) : bool := keys_all not_proto v.

(** No key of the payload is [__proto__], or is simplified to it. *)
Definition plain (v : value) : bool := keys_all plain_key v.

(** The top of a value is plain: its keys are not [__proto__], and what
    they hold is plain.  The object built from plain entries is of this
    kind. *)
Definition plain_below (v : value) : Prop :=
  match v with
  | VObj props =>
      forall k x, In (k, x) props -> k <> "__proto__" /\ plain x = true
  | VArr elems => forall x, In x elems -> plain x = true
  | VProto _ _ => False
  | _ => True
  end.

(** ** Enumeration order of own properties *)

(** [k1] may be enumerated before [k2]: integer keys first and ascending,
    the other keys after them (in creation order, on which nothing is
    imposed here). *)
Definition key_before (k1 k2 : string) : Prop :=
  match array_index k1, array_index k2 with
  | Some a, Some b => (a < b)%N
  | None, Some _ => False
  | _, None => True
  end.

(** A property list as the runtime can produce it: distinct keys, in
    enumeration order. *)
Definition js_props (l : list (string * value)) : Prop :=
  NoDup (map fst l) /\ StronglySorted key_before (map fst l).

(** ** The shape of a reduced value *)

(** What [reduceData] returns for a plain payload: scalars other than
    null, arrays (when no conversion is requested) and objects that are
    neither a scaffold wrapper nor an entries container and have no key
    [__proto__], all the way down. *)
Inductive reduced (arrays : bool) : value -> Prop :=
| reduced_scalar (v : value) :
    is_scalar v = true -> v <> VNull -> reduced arrays v
| reduced_array (elems : list value) :
    arrays = true -> Forall (reduced arrays) elems -> reduced arrays (VArr elems)
| reduced_object (props : list (string * value)) :
    scaffold_item keysToReduce (VObj props) = None ->
    entries_container (VObj props) = None ->
    js_props props ->
    ~ In "__proto__" (map fst props) ->
    Forall (fun kv => reduced arrays (snd kv)) props ->
    reduced arrays (VObj props).

(** Arrays survive the reduction only when no conversion is requested. *)
Definition keeps_arrays (options : ReduceOptions.t) : bool :=
  match catm_keyName options with
  | Some _ => false
  | None => true
  end.

(** The converter hands back well-formed plain values on well-formed
    plain elements. *)
Definition converter_wf
           (conv : list value -> string -> option string -> result value) : Prop :=
  forall elems name prefix ret,
    forallb wf_value elems = true ->
    forallb plain elems = true ->
    conv elems name prefix = Ok ret -> wf_value ret = true /\ plain ret = true.

(** ** Instances of the runtime parameters, used in the closed examples *)

(** A converter that files every element under the string found at
    [keyName] (after the prefix, if any); an element without such a string
    goes under ["undefined"], and indexing into null throws. *)
Definition keyed_by_field (elems : list value) (name : string) (prefix : option string)
  : result value :=
  ret <- fold_left
           (fun acc i =>
              ret <- acc ;;
              match i with
              | VNull => Throw TypeError
              | _ =>
                  let field := match get_member i name with
                               | Some (VStr s) => s
                               | _ => "undefined"
                               end in
                  let keyName := match prefix with
                                 | Some p => if truthy (VStr p)
                                             then String.append p field else field
                                 | None => field
                                 end in
                  Ok (set_prop keyName i ret)
              end)
           elems (Ok []) ;;
  Ok (VObj ret).

(** A converter that files every element under its index. *)
Definition keyed_by_index (elems : list value) (name : string) (prefix : option string)
  : result value :=
  Ok (VObj (indexed_from 0 elems)).

(** [k.match(pattern)] for a pattern free of metacharacters: the pattern is
    searched as it stands, and the match has no capture group. *)
Definition literal_match (k pattern : string) : option (list (option string)) :=
  if JsString.includes pattern k then Some [Some pattern] else None.

(** A registry with a single function, which hands back its [data]. *)
Definition echo_registry (name : string) : option (arguments -> result resolved) :=
  if String.eqb name "echo"
  then Some (fun args => Ok (args_data args))
  else None.

(** Built-in prototypes with the functions that ECMAScript 5 gives
    them. *)
Definition es5_builtins (b : builtin) (name : string) : bool :=
  match b with
  | Object_prototype =>
      existsb (String.eqb name)
              ["constructor"; "toString"; "toLocaleString"; "valueOf";
               "hasOwnProperty"; "isPrototypeOf"; "propertyIsEnumerable"]
  | Array_prototype =>
      existsb (String.eqb name)
              ["constructor"; "toString"; "toLocaleString"; "join"; "pop"; "push";
               "reverse"; "shift"; "unshift"; "slice"; "splice"; "sort"; "filter";
               "forEach"; "some"; "every"; "map"; "indexOf"; "lastIndexOf";
               "reduce"; "reduceRight"; "concat"]
  | _ => false
  end.

Definition no_options : ReduceOptions.t :=
  {| ReduceOptions.convertArrayToMap := None |}.

(** [{}] as the options of [normalizeData]. *)
Definition empty_options (regex : Type) : Options.t regex :=
  {| Options.key := None;
     Options.filterByKeys := None;
     Options.renameKeysByPattern := None;
     Options.convertArrayToMap := None;
     Options.runCustomFunction := None |}.

(** Scaffold wrappers nested one in another around [v], outermost first. *)
Definition wrap (ks : list string) (v : value) : value :=
  fold_right (fun k inner => VObj [(k, inner)]) v ks.

(** ** The payloads of the spec's examples *)

Definition foo_payload : value :=
  VObj [("entries",
         VObj [("https://localhost/mgmt/tm/sys/foo", VObj [("value", VNum 1)])])].

Definition tmm_payload : value :=
  VObj [("entries",
         VObj [("https://localhost/mgmt/tm/sys/tmm-info/0.0/stats",
                VObj [("nestedStats",
                       VObj [("entries",
                              VObj [("oneMinAverageSystem",
                                     VObj [("value", VNum 5)])])])])])].

(** Options that ask for the registered function [echo] with a [data]
    argument of their own. *)
Definition echo_with_data : Options.custom :=
  {| Options.name := "echo"; Options.args := Some (VObj [("data", VNum 1)]) |}.

Definition reserved_data_options : Options.t string :=
  {| Options.key := None;
     Options.filterByKeys := None;
     Options.renameKeysByPattern := None;
     Options.convertArrayToMap := None;
     Options.runCustomFunction := Some echo_with_data |}.

(** [{"tmm": "tmm"}]: every key that contains [tmm] is renamed to [tmm]. *)
Definition tmm_patterns : list (string * rename_pattern string) :=
  [("tmm", Bare "tmm")].

Definition util_payload : value :=
  VObj [("cpuUtil", VNum 1); ("memUtil", VNum 2); ("other", VNum 3)].

(** Case analysis on a comparison of keys. *)
Ltac eqb_case k k' :=
  let E := fresh "E" in
  destruct (String.eqb k k') eqn:E;
  [apply String.eqb_eq in E | apply String.eqb_neq in E].

(** ** Further shapes of values *)

(** No array anywhere in the value. *)
Fixpoint array_free (v : value) : bool :=
  match v with
  | VArr _ => false
  | VObj props => forallb (fun kv => array_free (snd kv)) props
  | VProto proto props =>
      array_free proto && forallb (fun kv => array_free (snd kv)) props
  | _ => true
  end.

(** Options that ask for the conversion of arrays, keyed by [name]. *)
Definition convert_by_name : ReduceOptions.t :=
  {| ReduceOptions.convertArrayToMap :=
       Some {| keyName := Some "name"; keyNamePrefix := None |} |}.

(** Every mapping of the value, outside of arrays, lists its keys in
    enumeration order. *)
Fixpoint js_value (v : value) : Prop :=
  match v with
  | VObj props =>
      js_props props /\
      (fix all (l : list (string * value)) : Prop :=
         match l with
         | [] => True
         | kv :: rest => js_value (snd kv) /\ all rest
         end) props
  | _ => True
  end.

(** The test made on one pattern of the renamer: the trigger occurs in
    the key and the regular expression matches it. *)
Definition pattern_applies (regex : Type)
           (string_match : string -> regex -> option (list (option string)))
           (k : string) (p : string * rename_pattern regex) : Prop :=
  JsString.includes (fst p) k = true /\
  exists m, string_match k (entry_pattern regex (snd p)) = Some m.

(** [{"tmm": "tmm", "_": "_0"}]: two patterns that both apply to
    [tmm_0]. *)
Definition two_patterns : list (string * rename_pattern string) :=
  [("tmm", Bare "tmm"); ("_", Bare "_0")].

(** Options for the three stages between the reduction and the custom
    function. *)
Definition stages_options (k : string) : Options.t string :=
  {| Options.key := Some k;
     Options.filterByKeys := Some ["one"];
     Options.renameKeysByPattern := Some tmm_patterns;
     Options.convertArrayToMap := None;
     Options.runCustomFunction := None |}.

(** Options that ask for the registered function [echo] only. *)
Definition echo_options : Options.t string :=
  {| Options.key := None;
     Options.filterByKeys := None;
     Options.renameKeysByPattern := None;
     Options.convertArrayToMap := None;
     Options.runCustomFunction :=
       Some {| Options.name := "echo"; Options.args := None |} |}.

(** The options of a run with the request for a custom function left
    out: what such a run returns is what the stages before the custom
    function hand over. *)
Definition without_custom_function {regex : Type} (options : Options.t regex)
  : Options.t regex :=
  {| Options.key := Options.key options;
     Options.filterByKeys := Options.filterByKeys options;
     Options.renameKeysByPattern := Options.renameKeysByPattern options;
     Options.convertArrayToMap := Options.convertArrayToMap options;
     Options.runCustomFunction := None |}.

(** An object that is neither an array nor a built-in. *)
Definition ordinary_object (v : value) : bool :=
  match v with
  | VObj _ | VProto _ _ => true
  | _ => false
  end.

(** * General helpers (src/lib/utils/misc.js) *)

(** ** compareVersionStrings *)

Definition VERSION_COMPARATORS : list string :=
  ["=="; "==="; "<"; "<="; ">"; ">="; "!="; "!=="].

(** [array.indexOf(x) === -1] on an array of strings. *)
Definition not_in_array (x : string) (array : list string) : bool :=
  negb (existsb (String.eqb x) array).

(** [eval(`0${comparator}${cmp}`)] for a comparator of the table: the
    comparison of [0] with [cmp]. *)
Definition eval_comparison (comparator : string) (cmp : Z) : bool :=
  if String.eqb comparator "==" || String.eqb comparator "===" then Z.eqb 0 cmp
  else if String.eqb comparator "<" then Z.ltb 0 cmp
  else if String.eqb comparator "<=" then Z.leb 0 cmp
  else if String.eqb comparator ">" then Z.gtb 0 cmp
  else if String.eqb comparator ">=" then Z.geb 0 cmp
  else negb (Z.eqb 0 cmp).

Section VersionCompare.

(** Numbers, [parseInt(part, 10) || 0] on a part and [<] on numbers
    belong to the runtime.  [zero] is what an absent part gives:
    [parseInt(undefined, 10)] is NaN, and [NaN || 0] is [0]. *)
Variable number : Type.
Variable zero : number.
Variable parse_or_zero : string -> number.
Variable less : number -> number -> bool.

(** [parseInt(parts[i], 10) || 0] *)
Definition part_at (parts : list string) (i : nat) : number :=
  match nth_error parts i with
  | Some part => parse_or_zero part
  | None => zero
  end.

(** The loop [for (i = 0; i < maxLen && !cmp; i += 1)], from index [i],
    with [todo = maxLen - i] turns left. *)
Fixpoint compare_from (v1parts v2parts : list string) (i todo : nat) : Z :=
  match todo with
  | O => 0%Z
  | S todo' =>
      let part1 := part_at v1parts i in
      let part2 := part_at v2parts i in
      if less part1 part2 then 1%Z
      else if less part2 part1 then (-1)%Z
      else compare_from v1parts v2parts (S i) todo'
  end.

Definition compareVersionStrings (version1 comparator version2 : string)
  : result bool :=
  let comparator := if String.eqb comparator "=" then "==" else comparator in
  if not_in_array comparator VERSION_COMPARATORS
  then Throw (Error ("Invalid comparator '" ++ comparator ++ "'"))
  else
    let v1parts := JsString.split "." version1 in
    let v2parts := JsString.split "." version2 in
    let maxLen := Nat.max (List.length v1parts) (List.length v2parts) in
    let cmp := compare_from v1parts v2parts 0 maxLen in
    Ok (eval_comparison comparator cmp).

End VersionCompare.

(** An instance for the closed examples: parts that are plain decimal
    numerals, compared as integers; any other part counts as [0]. *)
Definition numeral_or_zero (part : string) : Z :=
  match part with
  | EmptyString => 0%Z
  | _ => match NilEmpty.uint_of_string part with
         | Some u => Z.of_N (N.of_uint u)
         | None => 0%Z
         end
  end.

(** ** misc.js: camelCaseToUnderscoreCase *)

(** [/[A-Z]/] on one code unit. *)
Definition is_capital (c : ascii) : bool :=
  Nat.leb 65 (nat_of_ascii c) && Nat.leb (nat_of_ascii c) 90.

(** [str.split(/(?=[A-Z])/)]: the pattern matches the empty string before a
    capital letter, so the string is cut before every capital; a match that
    would leave the current piece [cur] empty (at the start of the string)
    is passed over. *)
Fixpoint split_before_capitals (cur s : string) : list string :=
  match s with
  | EmptyString => [cur]
  | String c rest =>
      if is_capital c && negb (String.eqb cur EmptyString)
      then cur :: split_before_capitals (String c EmptyString) rest
      else split_before_capitals (cur ++ String c EmptyString) rest
  end.

(** [toLowerCase] on one code unit below 256: the letters [A-Z] and the
    capital letters of Latin-1 ([U+00C0]-[U+00DE] without the sign
    [U+00D7]) have their small letter 32 places on. *)
Definition lower_unit (c : ascii) : ascii :=
  let n := nat_of_ascii c in
  if (Nat.leb 65 n && Nat.leb n 90)
     || (Nat.leb 192 n && Nat.leb n 222 && negb (Nat.eqb n 215))
  then ascii_of_nat (n + 32)
  else c.

Fixpoint toLowerCase (s : string) : string :=
  match s with
  | EmptyString => EmptyString
  | String c rest => String (lower_unit c) (toLowerCase rest)
  end.

Definition camelCaseToUnderscoreCase (str : string) : string :=
  toLowerCase (String.concat "_" (split_before_capitals EmptyString str)).

(** The code units of a string. *)
Fixpoint units (s : string) : list ascii :=
  match s with
  | EmptyString => []
  | String c rest => c :: units rest
  end.

(** A string without capital letters. *)
Definition no_capital (s : string) : bool :=
  forallb (fun c => negb (is_capital c)) (units s).

(** A word of a camel-case name: not empty, and no capital letter after its
    first code unit. *)
Definition is_word (w : string) : bool :=
  match w with
  | EmptyString => false
  | String _ rest => no_capital rest
  end.

Definition starts_with_capital (w : string) : bool :=
  match w with
  | EmptyString => false
  | String c _ => is_capital c
  end.

(** ** misc.js: generateUniquePropName *)

From Stdlib Require Import DecimalNat DecimalN.

(** [`${startIdx}`]: a counter, spelled in decimal. *)
Definition decimal (n : nat) : string :=
  NilEmpty.string_of_uint (Nat.to_uint n).

Section UniquePropName.

(** [hasKey] is [has] of lodash. *)
Variable hasKey : value -> string -> bool.

(** The loop [while (hasKey(object, name)) startIdx += 1], from
    [startIdx]; [fuel] bounds the number of names tried. *)
Fixpoint first_free_name (object : value) (originKey sep : string)
         (startIdx fuel : nat) : option string :=
  match fuel with
  | O => None
  | S fuel' =>
      if hasKey object (originKey ++ sep ++ decimal startIdx)%string
      then first_free_name object originKey sep (S startIdx) fuel'
      else Some (originKey ++ sep ++ decimal startIdx)%string
  end.

Definition generateUniquePropName (fuel : nat) (object : value) (originKey : string)
  : option string :=
  let sep := "" in
  let startIdx := 0 in
  if negb (hasKey object originKey) then Some originKey
  else first_free_name object originKey sep startIdx fuel.

End UniquePropName.

(** [has] of lodash for a key that is not a path: an own property. *)
Definition has_own_key (object : value) (key : string) : bool :=
  match object with
  | VObj props | VProto _ props => has_prop key props
  | _ => false
  end.

(** ** misc.js: the duplicate-key handler of parseJsonWithDuplicatekeys *)

(** [keys.indexOf(x)]; [None] stands for [-1]. *)
Fixpoint indexOf (x : string) (keys : list string) : option nat :=
  match keys with
  | [] => None
  | k :: rest =>
      if String.eqb k x then Some 0
      else match indexOf x rest with
           | Some i => Some (S i)
           | None => None
           end
  end.

(** [array.concat(item)]: the elements of an array item are appended, any
    other item is appended as it is. *)
Definition array_concat (array : list value) (item : value) : list value :=
  match item with
  | VArr elems => array ++ elems
  | _ => array ++ [item]
  end.

(** [values[i] = v] for an index within the array. *)
Fixpoint set_at (i : nat) (v : value) (values : list value) : list value :=
  match values, i with
  | [], _ => []
  | _ :: rest, O => v :: rest
  | x :: rest, S j => x :: set_at j v rest
  end.

(** The handler mutates the two arrays [keys] and [values] of the parser;
    here it returns them.  [key] and [new_value] are the [.value] fields of
    its second and fourth argument.  An index of [keys] beyond the end of
    [values] would read [undefined], which the data model does not have:
    [None]. *)
Definition arrayHandler (keys : list string) (key : string)
           (values : list value) (new_value : value)
  : option (list string * list value) :=
  match indexOf key keys with
  | Some existingKey =>
      match nth_error values existingKey with
      | Some existingValue =>
          match existingValue with
          | VArr elems =>
              Some (keys, set_at existingKey (VArr (array_concat elems new_value)) values)
          | _ =>
              Some (keys, set_at existingKey (VArr (array_concat [existingValue] new_value)) values)
          end
      | None => None
      end
  | None => Some (keys ++ [key], values ++ [new_value])
  end.

(** The value held for a key by the two arrays. *)
Definition value_of (keys : list string) (values : list value) (k : string)
  : option value :=
  match indexOf k keys with
  | Some i => nth_error values i
  | None => None
  end.

(** The elements an array contributes to [concat], or the value itself. *)
Definition spread (v : value) : list value :=
  match v with
  | VArr elems => elems
  | _ => [v]
  end.

(** ** misc.js: maskSecrets *)

Definition SECRETS_MASK : string := "*********".

Module Keyword.

(** An entry of [KEYWORDS_TO_MASK]; [with_] is its field [with]. *)
Record t {regex : Type} : Type :=
  { str : string; replace : regex; with_ : string }.
Arguments t : clear implicits.

End Keyword.

Section MaskSecrets.

(** Regular expressions belong to the runtime: [regex_replace re rep s]
    is [s.replace(re, rep)], and the three expressions of the table are
    parameters. *)
Variable regex : Type.
Variable regex_replace : regex -> string -> string -> string.
Variable passphrase_object_regex : regex.
Variable passphrase_text_regex : regex.
Variable cipherText_regex : regex.

Definition KEYWORDS_TO_MASK : list (Keyword.t regex) :=
  [ {| Keyword.str := "passphrase";
       Keyword.replace := passphrase_object_regex;
       Keyword.with_ := "$1{" ++ SECRETS_MASK ++ "}" |};
    {| Keyword.str := "passphrase";
       Keyword.replace := passphrase_text_regex;
       Keyword.with_ := "$1$2" ++ SECRETS_MASK ++ "$2" |};
    {| Keyword.str := "cipherText";
       Keyword.replace := cipherText_regex;
       Keyword.with_ := "$1$2" ++ SECRETS_MASK ++ "$2" |} ].

(** The [forEach] over the table: the keyword is looked for in [msg], the
    replacement is made in [ret]. *)
Definition mask_keywords (keywords : list (Keyword.t regex)) (msg : string) : string :=
  fold_left
    (fun ret keyword =>
       if JsString.includes (Keyword.str keyword) msg
       then regex_replace (Keyword.replace keyword) (Keyword.with_ keyword) ret
       else ret)
    keywords msg.

(** On a value that is not a string, [msg.indexOf] or [ret.replace] is not
    a function; the exception is caught before [ret] was assigned. *)
Definition maskSecrets (msg : value) : value :=
  match msg with
  | VStr s => VStr (mask_keywords KEYWORDS_TO_MASK s)
  | _ => msg
  end.

End MaskSecrets.

(** ** misc.js: isObjectEmpty *)

(** The loop [for (const key in obj)] with its [hasOwnProperty] test finds
    the first own property. *)
Definition isObjectEmpty (obj : value) : bool :=
  match obj with
  | VNull => true
  | VArr elems => Nat.eqb (List.length elems) 0
  | VStr s => Nat.eqb (String.length s) 0
  | _ => match own_props obj with
         | [] => true
         | _ :: _ => false
         end
  end.

(** * Properties *)

(** ** Property lists *)

Lemma distinct_NoDup (l : list string) : distinct l = true <-> NoDup l.
Proof.
  induction l as [|k l IH]; simpl.
  - split; [constructor | reflexivity].
  - rewrite andb_true_iff, negb_true_iff, IH. split.
    + intros [Hk Hl]. constructor; [|exact Hl].
      intro Hin. assert (existsb (String.eqb k) l = true) as Hex.
      { apply existsb_exists. exists k. split; [exact Hin | apply String.eqb_refl]. }
      congruence.
    + intro Hnd. inversion Hnd as [|? ? Hk Hl]; subst. split; [|exact Hl].
      destruct (existsb (String.eqb k) l) eqn:Hex; [|reflexivity].
      apply existsb_exists in Hex. destruct Hex as [x [Hin Hx]].
      apply String.eqb_eq in Hx. subst x. contradiction.
Qed.

Lemma get_prop_None (k : string) (l : list (string * value)) :
  get_prop k l = None <-> ~ In k (map fst l).
Proof.
  induction l as [|[k' v'] l IH]; simpl.
  - tauto.
  - eqb_case k k'.
    + split; [discriminate | intro H; exfalso; apply H; left; congruence].
    + rewrite IH. split; [intros H [H1|H1]; [congruence | tauto] | tauto].
Qed.

Lemma get_prop_In (k : string) (v : value) (l : list (string * value)) :
  get_prop k l = Some v -> In (k, v) l.
Proof.
  induction l as [|[k' v'] l IH]; simpl; [discriminate|].
  eqb_case k k'.
  - intro H; inversion H; subst. left; reflexivity.
  - intro H; right; auto.
Qed.

Lemma In_get_prop (k : string) (v : value) (l : list (string * value)) :
  NoDup (map fst l) -> In (k, v) l -> get_prop k l = Some v.
Proof.
  induction l as [|[k' v'] l IH]; simpl; [tauto|].
  intros Hnd [H|H].
  - inversion H; subst. rewrite String.eqb_refl. reflexivity.
  - inversion Hnd as [|? ? Hk Hl]; subst.
    eqb_case k k'.
    + subst k'. exfalso. apply Hk. apply (in_map fst) in H. exact H.
    + auto.
Qed.

Lemma has_prop_true (k : string) (l : list (string * value)) :
  has_prop k l = true <-> In k (map fst l).
Proof.
  unfold has_prop. destruct (get_prop k l) eqn:E.
  - split; [intros _|reflexivity]. apply get_prop_In in E.
    apply (in_map fst) in E. exact E.
  - apply get_prop_None in E. split; [discriminate | tauto].
Qed.

Lemma has_prop_false (k : string) (l : list (string * value)) :
  has_prop k l = false <-> ~ In k (map fst l).
Proof.
  rewrite <- has_prop_true. destruct (has_prop k l); split; congruence.
Qed.

Lemma replace_prop_keys (k : string) (v : value) (l : list (string * value)) :
  map fst (replace_prop k v l) = map fst l.
Proof.
  induction l as [|[k' v'] l IH]; simpl; [reflexivity|].
  eqb_case k k'; simpl; [reflexivity | rewrite IH; reflexivity].
Qed.

Lemma get_prop_replace_eq (k : string) (v : value) (l : list (string * value)) :
  In k (map fst l) -> get_prop k (replace_prop k v l) = Some v.
Proof.
  induction l as [|[k' v'] l IH]; simpl; [tauto|].
  intros Hin. destruct (String.eqb k k') eqn:E; simpl; rewrite E.
  - reflexivity.
  - apply IH. apply String.eqb_neq in E.
    destruct Hin as [H|H]; [congruence | exact H].
Qed.

Lemma get_prop_replace_ne (k k' : string) (v : value) (l : list (string * value)) :
  k <> k' -> get_prop k' (replace_prop k v l) = get_prop k' l.
Proof.
  intro Hne. induction l as [|[k0 v0] l IH]; simpl; [reflexivity|].
  eqb_case k k0; simpl.
  - subst k0. eqb_case k' k; [congruence | reflexivity].
  - rewrite IH. reflexivity.
Qed.

Lemma replace_prop_In (k : string) (v : value) (l : list (string * value)) (x : string * value) :
  In x (replace_prop k v l) -> x = (k, v) \/ In x l.
Proof.
  induction l as [|[k' v'] l IH]; simpl; [tauto|].
  eqb_case k k'; simpl.
  - subst. intros [H|H]; auto.
  - intros [H|H]; auto. destruct (IH H); auto.
Qed.

Lemma insert_index_In (n : N) (k : string) (v : value) (l : list (string * value))
      (x : string * value) :
  In x (insert_index n k v l) <-> x = (k, v) \/ In x l.
Proof.
  induction l as [|[k' v'] l IH]; simpl.
  - intuition congruence.
  - destruct (array_index k') as [m|].
    + destruct (N.ltb n m); simpl; [intuition congruence|].
      rewrite IH. intuition congruence.
    + simpl. intuition congruence.
Qed.

Lemma insert_index_keys_In (n : N) (k : string) (v : value) (l : list (string * value))
      (k0 : string) :
  In k0 (map fst (insert_index n k v l)) <-> k0 = k \/ In k0 (map fst l).
Proof.
  rewrite !in_map_iff. split.
  - intros [[a b] [H1 H2]]. simpl in H1. subst a. apply insert_index_In in H2.
    destruct H2 as [H2|H2]; [inversion H2; auto|].
    right. exists (k0, b). auto.
  - intros [H|[[a b] [H1 H2]]].
    + subst. exists (k, v). split; [reflexivity|]. apply insert_index_In. auto.
    + exists (a, b). split; [exact H1|]. apply insert_index_In. auto.
Qed.

Lemma get_prop_insert_eq (n : N) (k : string) (v : value) (l : list (string * value)) :
  ~ In k (map fst l) -> get_prop k (insert_index n k v l) = Some v.
Proof.
  induction l as [|[k' v'] l IH]; simpl; intro Hnin.
  - rewrite String.eqb_refl. reflexivity.
  - destruct (array_index k') as [m|].
    + destruct (N.ltb n m); simpl.
      * rewrite String.eqb_refl. reflexivity.
      * eqb_case k k'; [exfalso; apply Hnin; left; congruence|].
        apply IH. tauto.
    + simpl. rewrite String.eqb_refl. reflexivity.
Qed.

Lemma get_prop_insert_ne (n : N) (k k' : string) (v : value) (l : list (string * value)) :
  k <> k' -> get_prop k' (insert_index n k v l) = get_prop k' l.
Proof.
  intro Hne. assert (String.eqb k' k = false) as Hf by (apply String.eqb_neq; congruence).
  induction l as [|[k0 v0] l IH]; simpl.
  - rewrite Hf. reflexivity.
  - destruct (array_index k0) as [m|].
    + destruct (N.ltb n m); simpl.
      * rewrite Hf. reflexivity.
      * rewrite IH. reflexivity.
    + simpl. rewrite Hf. reflexivity.
Qed.

Lemma get_prop_app (k : string) (l1 l2 : list (string * value)) :
  get_prop k (l1 ++ l2) =
  match get_prop k l1 with Some v => Some v | None => get_prop k l2 end.
Proof.
  induction l1 as [|[k' v'] l1 IH]; simpl; [reflexivity|].
  eqb_case k k'; [reflexivity | exact IH].
Qed.

(** [obj[k] = v; obj[k]] is [v], and no other property changes. *)
Lemma get_prop_set_prop_eq (k : string) (v : value) (l : list (string * value)) :
  get_prop k (set_prop k v l) = Some v.
Proof.
  unfold set_prop. destruct (has_prop k l) eqn:H.
  - apply get_prop_replace_eq. apply has_prop_true. exact H.
  - apply has_prop_false in H. destruct (array_index k).
    + apply get_prop_insert_eq. exact H.
    + rewrite get_prop_app. apply get_prop_None in H. rewrite H.
      simpl. rewrite String.eqb_refl. reflexivity.
Qed.

Lemma get_prop_set_prop_ne (k k' : string) (v : value) (l : list (string * value)) :
  k <> k' -> get_prop k' (set_prop k v l) = get_prop k' l.
Proof.
  intro Hne. unfold set_prop. destruct (has_prop k l).
  - apply get_prop_replace_ne. exact Hne.
  - destruct (array_index k).
    + apply get_prop_insert_ne. exact Hne.
    + rewrite get_prop_app. destruct (get_prop k' l); [reflexivity|].
      simpl. eqb_case k' k; [congruence | reflexivity].
Qed.

Lemma set_prop_keys_In (k : string) (v : value) (l : list (string * value)) (k0 : string) :
  In k0 (map fst (set_prop k v l)) <-> k0 = k \/ In k0 (map fst l).
Proof.
  unfold set_prop. destruct (has_prop k l) eqn:H.
  - rewrite replace_prop_keys. apply has_prop_true in H.
    split; [tauto | intros [H1|H1]; [subst; exact H | exact H1]].
  - destruct (array_index k).
    + apply insert_index_keys_In.
    + rewrite map_app, in_app_iff. simpl. intuition congruence.
Qed.

Lemma set_prop_In (k : string) (v : value) (l : list (string * value)) (x : string * value) :
  In x (set_prop k v l) -> x = (k, v) \/ In x l.
Proof.
  unfold set_prop. destruct (has_prop k l).
  - apply replace_prop_In.
  - destruct (array_index k).
    + apply insert_index_In.
    + rewrite in_app_iff. simpl. intuition congruence.
Qed.

(** ** Enumeration order is kept by assignment *)

Lemma array_index_spelling (k : string) (n : N) :
  array_index k = Some n -> k = index_key n.
Proof.
  unfold array_index. destruct (NilEmpty.uint_of_string k) as [u|]; [|discriminate].
  cbv zeta. destruct (String.eqb (index_key (N.of_uint u)) k) eqn:E; simpl; [|discriminate].
  apply String.eqb_eq in E.
  destruct (N.ltb (N.of_uint u) 4294967295); [|discriminate].
  intro H. injection H as <-. symmetry. exact E.
Qed.

Lemma array_index_inj (k k' : string) (n : N) :
  array_index k = Some n -> array_index k' = Some n -> k = k'.
Proof.
  intros H H'. apply array_index_spelling in H. apply array_index_spelling in H'.
  congruence.
Qed.

Lemma set_prop_length_new (k : string) (v : value) (l : list (string * value)) :
  ~ In k (map fst l) -> List.length (set_prop k v l) = S (List.length l).
Proof.
  intro H. apply has_prop_false in H. unfold set_prop. rewrite H.
  destruct (array_index k) as [n|].
  - clear H. induction l as [|[k' v'] l IH]; simpl; [reflexivity|].
    destruct (array_index k'); [destruct (N.ltb n n0)|]; simpl; auto.
  - rewrite length_app. simpl. lia.
Qed.

Lemma insert_index_NoDup (n : N) (k : string) (v : value) (l : list (string * value)) :
  ~ In k (map fst l) -> NoDup (map fst l) -> NoDup (map fst (insert_index n k v l)).
Proof.
  induction l as [|[k' v'] l IH]; simpl; intros Hnin Hnd.
  - constructor; [tauto | constructor].
  - inversion Hnd as [|? ? Hk Hl]; subst.
    destruct (array_index k') as [m|]; [destruct (N.ltb n m)|]; simpl.
    + constructor; [simpl; tauto | exact Hnd].
    + constructor.
      * rewrite insert_index_keys_In. intros [H|H]; [apply Hnin; left; congruence | tauto].
      * apply IH; tauto.
    + constructor; [simpl; tauto | exact Hnd].
Qed.

Lemma set_prop_NoDup (k : string) (v : value) (l : list (string * value)) :
  NoDup (map fst l) -> NoDup (map fst (set_prop k v l)).
Proof.
  intro Hnd. unfold set_prop. destruct (has_prop k l) eqn:H.
  - rewrite replace_prop_keys. exact Hnd.
  - apply has_prop_false in H. destruct (array_index k).
    + apply insert_index_NoDup; assumption.
    + rewrite map_app. simpl. apply NoDup_app; [exact Hnd | constructor; [tauto|constructor] |].
      intros x Hx [Hx'|[]]. subst. contradiction.
Qed.

Lemma key_before_later (k k' k'' : string) (n : N) :
  array_index k = Some n ->
  key_before k k' -> key_before k' k'' -> key_before k k''.
Proof.
  unfold key_before. intro Hk. rewrite Hk.
  destruct (array_index k'), (array_index k''); try tauto. lia.
Qed.

Lemma insert_index_sorted (n : N) (k : string) (v : value) (l : list (string * value)) :
  array_index k = Some n ->
  ~ In k (map fst l) ->
  StronglySorted key_before (map fst l) ->
  StronglySorted key_before (map fst (insert_index n k v l)).
Proof.
  intros Hk. induction l as [|[k' v'] l IH]; simpl; intros Hnin Hs.
  - constructor; constructor.
  - inversion Hs as [|? ? Hs' Hall]; subst.
    assert (forall m, array_index k' = Some m -> m <> n) as Hneq.
    { intros m Hm Heq. subst m. apply Hnin. left. eapply array_index_inj; eassumption. }
    destruct (array_index k') as [m|] eqn:Hk'.
    + destruct (N.ltb n m) eqn:Hlt; simpl.
      * apply N.ltb_lt in Hlt.
        assert (key_before k k') as Hkk'.
        { unfold key_before. rewrite Hk, Hk'. exact Hlt. }
        constructor; [exact Hs|]. constructor; [exact Hkk'|].
        rewrite Forall_forall in *. intros x Hx.
        eapply key_before_later; eauto.
      * apply N.ltb_ge in Hlt. specialize (Hneq m eq_refl).
        constructor; [apply IH; tauto|].
        rewrite Forall_forall in *. intros x Hx.
        apply insert_index_keys_In in Hx. destruct Hx as [Hx|Hx]; [|auto].
        subst x. unfold key_before. rewrite Hk, Hk'. lia.
    + simpl. constructor; [exact Hs|].
      constructor.
      * unfold key_before. rewrite Hk, Hk'. exact I.
      * rewrite Forall_forall in *. intros x Hx. specialize (Hall x Hx).
        unfold key_before in *. rewrite Hk. rewrite Hk' in Hall.
        destruct (array_index x); tauto.
Qed.

Lemma append_sorted (k : string) (ks : list string) :
  array_index k = None ->
  StronglySorted key_before ks -> StronglySorted key_before (ks ++ [k]).
Proof.
  intro Hk. induction ks as [|k' ks IH]; simpl; intro Hs.
  - constructor; constructor.
  - inversion Hs as [|? ? Hs' Hall]; subst. constructor; [auto|].
    rewrite Forall_app. split; [exact Hall|]. constructor; [|constructor].
    unfold key_before. rewrite Hk. destruct (array_index k'); exact I.
Qed.

Lemma set_prop_js_props (k : string) (v : value) (l : list (string * value)) :
  js_props l -> js_props (set_prop k v l).
Proof.
  intros [Hnd Hs]. split; [apply set_prop_NoDup; exact Hnd|].
  unfold set_prop. destruct (has_prop k l) eqn:H.
  - rewrite replace_prop_keys. exact Hs.
  - apply has_prop_false in H. destruct (array_index k) eqn:Hk.
    + apply insert_index_sorted; assumption.
    + rewrite map_app. simpl. apply append_sorted; assumption.
Qed.

Lemma js_props_nil : js_props [].
Proof. split; constructor. Qed.

(** Assigning the properties of a well-ordered object, in enumeration
    order, to a fresh object rebuilds the same object. *)
Lemma insert_index_last (n : N) (k : string) (v : value) (l : list (string * value)) :
  array_index k = Some n ->
  Forall (fun k' => key_before k' k) (map fst l) ->
  insert_index n k v l = l ++ [(k, v)].
Proof.
  intros Hk. induction l as [|[k' v'] l IH]; simpl; intro Hall; [reflexivity|].
  inversion Hall as [|? ? Hb Hall']; subst.
  unfold key_before in Hb. rewrite Hk in Hb.
  destruct (array_index k') as [m|]; [|contradiction].
  assert (N.ltb n m = false) as Hlt by (apply N.ltb_ge; lia).
  rewrite Hlt, IH; auto.
Qed.

Lemma sorted_app_before (l1 : list string) (k : string) (l2 : list string) :
  StronglySorted key_before (l1 ++ k :: l2) ->
  Forall (fun k' => key_before k' k) l1.
Proof.
  induction l1 as [|a l1 IH]; simpl; intro Hs; [constructor|].
  inversion Hs as [|? ? Hs' Hall]; subst. constructor; [|auto].
  rewrite Forall_forall in Hall. apply Hall. rewrite in_app_iff. right. left. reflexivity.
Qed.

Lemma set_prop_next (k : string) (v : value) (l1 l2 : list (string * value)) :
  js_props (l1 ++ (k, v) :: l2) -> set_prop k v l1 = l1 ++ [(k, v)].
Proof.
  intros [Hnd Hs]. rewrite map_app in Hnd, Hs. simpl in Hnd, Hs.
  assert (~ In k (map fst l1)) as Hnin.
  { apply NoDup_remove_2 in Hnd. intro H. apply Hnd. rewrite in_app_iff. auto. }
  unfold set_prop. apply has_prop_false in Hnin. rewrite Hnin.
  destruct (array_index k) as [n|] eqn:Hk; [|reflexivity].
  apply insert_index_last; [exact Hk|]. eapply sorted_app_before. exact Hs.
Qed.

(** ** The scaffold test and the entries test *)

Lemma keysToReduce_plain (name : string) :
  In name keysToReduce ->
  array_index name = None /\ String.eqb name "length" = false /\
  String.eqb name "entries" = false.
Proof.
  unfold keysToReduce. simpl.
  intros [H|[H|[H|[H|[]]]]]; subst; vm_compute; auto.
Qed.

Lemma entries_plain :
  array_index "entries" = None /\ String.eqb "entries" "length" = false.
Proof. vm_compute. auto. Qed.

Lemma scaffold_item_Some (names : list string) (data item : value) :
  scaffold_item names data = Some item ->
  List.length (own_props data) = 1 /\
  exists name, In name names /\ get_member data name = Some item.
Proof.
  induction names as [|name names IH]; simpl; [discriminate|].
  destruct (get_member data name) as [x|] eqn:Hm.
  - destruct (Nat.eqb (List.length (own_props data)) 1) eqn:Hl.
    + intro H. injection H as <-. apply Nat.eqb_eq in Hl. split; [exact Hl|].
      exists name. auto.
    + intro H. destruct (IH H) as [H1 [n [H2 H3]]]. split; [exact H1|]. exists n. auto.
  - intro H. destruct (IH H) as [H1 [n [H2 H3]]]. split; [exact H1|]. exists n. auto.
Qed.

Lemma scaffold_item_None (names : list string) (data : value) :
  scaffold_item names data = None <->
  List.length (own_props data) <> 1 \/
  (forall name, In name names -> get_member data name = None).
Proof.
  induction names as [|name names IH]; simpl.
  - split; [intros _; right; tauto | reflexivity].
  - destruct (get_member data name) as [x|] eqn:Hm.
    + destruct (Nat.eqb (List.length (own_props data)) 1) eqn:Hl.
      * apply Nat.eqb_eq in Hl. split; [discriminate|].
        intros [H|H]; [contradiction|].
        specialize (H name (or_introl eq_refl)). congruence.
      * apply Nat.eqb_neq in Hl. rewrite IH. split; intros _; left; exact Hl.
    + rewrite IH. split.
      * intros [H|H]; [left; exact H|]. right. intros n [Hn|Hn]; [subst; exact Hm | auto].
      * intros [H|H]; [left; exact H|]. right. intros n Hn. apply H. auto.
Qed.

(** A mapping is unwrapped exactly when its only key is a scaffold name. *)
Lemma scaffold_item_sole (props : list (string * value)) (item : value) :
  scaffold_item keysToReduce (VObj props) = Some item <->
  exists k, In k keysToReduce /\ props = [(k, item)].
Proof.
  split.
  - intro H. apply scaffold_item_Some in H. destruct H as [Hl [name [Hn Hm]]].
    simpl in Hl, Hm. destruct props as [|[k v] [|? ?]]; simpl in Hl; try discriminate.
    simpl in Hm. eqb_case name k; [|discriminate]. injection Hm as ->. subst.
    exists k. auto.
  - intros [k [Hk ->]]. unfold keysToReduce in *. simpl in Hk.
    destruct Hk as [H|[H|[H|[H|[]]]]]; subst; reflexivity.
Qed.

Lemma scaffold_item_array (elems : list value) :
  scaffold_item keysToReduce (VArr elems) = None.
Proof.
  apply scaffold_item_None. right. intros name Hn.
  apply keysToReduce_plain in Hn. destruct Hn as [H1 [H2 H3]].
  simpl. rewrite H2, H1. reflexivity.
Qed.

Lemma scaffold_item_string (s : string) :
  scaffold_item keysToReduce (VStr s) = None.
Proof.
  apply scaffold_item_None. right. intros name Hn.
  apply keysToReduce_plain in Hn. destruct Hn as [H1 [H2 H3]].
  simpl. rewrite H2, H1. reflexivity.
Qed.

(** The base case: a scalar other than null comes back as it is. *)
Lemma reduceData_fuel_scalar
      (conv : list value -> string -> option string -> result value)
      (fuel : nat) (v : value) (options : ReduceOptions.t) :
  is_scalar v = true -> v <> VNull ->
  reduceData_fuel conv (S fuel) v options = Some (Ok v).
Proof.
  destruct v; simpl; try discriminate; congruence.
Qed.

(** ** Fuel *)

Lemma reduce_each_ext (f g : value -> option (result value)) (l ret : list value)
      (res : result (list value)) :
  (forall x r, In x l -> f x = Some r -> g x = Some r) ->
  reduce_each f l ret = Some res -> reduce_each g l ret = Some res.
Proof.
  revert ret. induction l as [|x l IH]; simpl; intros ret Hfg; [auto|].
  destruct (f x) as [[r|e]|] eqn:Hf; [| |discriminate].
  - rewrite (Hfg x (Ok r) (or_introl eq_refl) Hf). apply IH. intros; eapply Hfg; eauto.
  - rewrite (Hfg x (Throw e) (or_introl eq_refl) Hf). auto.
Qed.

Lemma reduce_props_ext (f g : value -> option (result value))
      (l ret : list (string * value)) (res : result (list (string * value))) :
  (forall k x r, In (k, x) l -> f x = Some r -> g x = Some r) ->
  reduce_props f l ret = Some res -> reduce_props g l ret = Some res.
Proof.
  revert ret. induction l as [|[k x] l IH]; simpl; intros ret Hfg; [auto|].
  destruct (f x) as [[r|e]|] eqn:Hf; [| |discriminate].
  - rewrite (Hfg k x (Ok r) (or_introl eq_refl) Hf). apply IH. intros; eapply Hfg; eauto.
  - rewrite (Hfg k x (Throw e) (or_introl eq_refl) Hf). auto.
Qed.

Lemma reduce_object_ext (f g : value -> option (result value))
      (l : list (string * value)) (ret : value) (res : result value) :
  (forall k x r, In (k, x) l -> f x = Some r -> g x = Some r) ->
  reduce_object f l ret = Some res -> reduce_object g l ret = Some res.
Proof.
  revert ret. induction l as [|[k x] l IH]; simpl; intros ret Hfg; [auto|].
  destruct (f x) as [[r|e]|] eqn:Hf; [| |discriminate].
  - rewrite (Hfg k x (Ok r) (or_introl eq_refl) Hf). apply IH. intros; eapply Hfg; eauto.
  - rewrite (Hfg k x (Throw e) (or_introl eq_refl) Hf). auto.
Qed.

(** ** Assignments that write an own property *)

Lemma not_proto_spec (k : string) : not_proto k = true <-> k <> "__proto__".
Proof.
  unfold not_proto. rewrite negb_true_iff. split.
  - intros H ->. discriminate.
  - intro H. apply String.eqb_neq. exact H.
Qed.

Lemma plain_key_spec (k : string) :
  plain_key k = true <-> k <> "__proto__" /\ simplify_key k <> "__proto__".
Proof.
  unfold plain_key. rewrite andb_true_iff, !not_proto_spec. tauto.
Qed.

Lemma assign_own (k : string) (v : value) (props : list (string * value)) :
  k <> "__proto__" -> assign k v (VObj props) = VObj (set_prop k v props).
Proof.
  intro H. unfold assign. apply String.eqb_neq in H. rewrite H. reflexivity.
Qed.

(** The loops of the code and the loops on own properties. *)
Lemma reduce_object_props (f : value -> option (result value))
      (l ret : list (string * value)) :
  ~ In "__proto__" (map fst l) ->
  reduce_object f l (VObj ret) = lift VObj (reduce_props f l ret).
Proof.
  revert ret. induction l as [|[k x] l IH]; intros ret H; [reflexivity|].
  cbn [reduce_object reduce_props]. destruct (f x) as [[r|e]|]; try reflexivity.
  rewrite assign_own by (intros ->; apply H; left; reflexivity).
  apply IH. intro Hin. apply H. right. exact Hin.
Qed.

Lemma entries_object_ret (entries : value) :
  (forall k, In k (map fst (own_props entries)) -> simplify_key k <> "__proto__") ->
  entries_object (own_props entries) = VObj (entries_ret entries).
Proof.
  unfold entries_object, entries_ret.
  generalize (@nil (string * value)) as ret.
  induction (own_props entries) as [|[k x] l IH]; intros ret H; [reflexivity|].
  cbn [fold_left fst snd]. rewrite assign_own by (apply H; left; reflexivity).
  apply IH. intros k' Hk'. apply H. right. exact Hk'.
Qed.

Lemma lift_Some {A B : Type} (g : A -> B) (o : option (result A)) (res : result B) :
  lift g o = Some res ->
  exists r, o = Some r /\ res = match r with Ok a => Ok (g a) | Throw e => Throw e end.
Proof.
  destruct o as [[a|e]|]; simpl; [| |discriminate]; intro H; injection H as <-; eauto.
Qed.

Section ReduceFuel.

Variable conv : list value -> string -> option string -> result value.
Variable options : ReduceOptions.t.

(** A result reached with some fuel is reached with any larger fuel. *)
Lemma reduceData_fuel_mono (fuel : nat) :
  forall (data : value) (res : result value),
    reduceData_fuel conv fuel data options = Some res ->
    forall fuel', fuel <= fuel' ->
                  reduceData_fuel conv fuel' data options = Some res.
Proof.
  induction fuel as [|fuel IH]; intros data res H fuel' Hle; [discriminate|].
  destruct fuel' as [|fuel']; [lia|]. assert (fuel <= fuel') as Hle' by lia.
  cbn [reduceData_fuel] in H |- *. unfold reduceData_body in H |- *.
  destruct data; try exact H;
    (destruct (scaffold_item keysToReduce _); [eapply IH; eauto|]);
    (destruct (entries_container _); [eapply IH; eauto|]); try exact H.
  - destruct (catm_keyName options) as [[name prefix]|].
    + destruct (conv elems name prefix); [eapply IH; eauto | exact H].
    + apply lift_Some in H. destruct H as [r [H ->]].
      erewrite reduce_each_ext; [| |exact H]; [destruct r; reflexivity|].
      intros; eapply IH; eauto.
  - eapply reduce_object_ext; [|exact H]. intros; eapply IH; eauto.
  - eapply reduce_object_ext; [|exact H]. intros; eapply IH; eauto.
Qed.

Lemma reduceData_fuel_agree (fuel fuel' : nat) (data : value) (res res' : result value) :
  reduceData_fuel conv fuel data options = Some res ->
  reduceData_fuel conv fuel' data options = Some res' ->
  res = res'.
Proof.
  intros H H'. destruct (Nat.le_ge_cases fuel fuel') as [Hle|Hle].
  - eapply reduceData_fuel_mono in H; [|exact Hle]. congruence.
  - eapply reduceData_fuel_mono in H'; [|exact Hle]. congruence.
Qed.

End ReduceFuel.

(** ** Nesting bounds the recursion *)

Lemma nesting_obj_child (k : string) (v : value) (props : list (string * value)) :
  In (k, v) props ->
  nesting v + (if String.eqb k "entries" then 1 else 0) < nesting (VObj props).
Proof.
  simpl. induction props as [|[k' v'] props IH]; simpl; [tauto|].
  intros [H|H]; [injection H as -> ->; lia|]. specialize (IH H). lia.
Qed.

Lemma nesting_obj_bound (props : list (string * value)) (b : nat) :
  (forall k v, In (k, v) props ->
               nesting v + (if String.eqb k "entries" then 1 else 0) <= b) ->
  nesting (VObj props) <= S b.
Proof.
  simpl. induction props as [|[k' v'] props IH]; simpl; intro H; [lia|].
  assert (Hh := H k' v' (or_introl eq_refl)).
  assert (forall k v, In (k, v) props ->
            nesting v + (if String.eqb k "entries" then 1 else 0) <= b) as Ht
      by (intros; apply H; auto).
  specialize (IH Ht). lia.
Qed.

Lemma nesting_arr_child (x : value) (l : list value) :
  In x l -> nesting x < nesting (VArr l).
Proof.
  simpl. induction l as [|y l IH]; simpl; [tauto|].
  intros [H|H]; [subst; lia|]. specialize (IH H). lia.
Qed.

Lemma indexed_from_In (i : N) (l : list value) (k : string) (v : value) :
  In (k, v) (indexed_from i l) -> (exists j, k = index_key j) /\ In v l.
Proof.
  revert i. induction l as [|x l IH]; simpl; intros i; [tauto|].
  intros [H|H].
  - injection H as <- <-. split; [exists i; reflexivity | auto].
  - destruct (IH _ H) as [H1 H2]. auto.
Qed.

Lemma simplify_index_key (j : N) :
  String.eqb (simplify_key (index_key j)) "entries" = false.
Proof.
  unfold index_key. destruct (N.to_uint j); reflexivity.
Qed.

Lemma entries_ret_In (entries : value) (k' : string) (v : value) :
  In (k', v) (entries_ret entries) ->
  exists k, In (k, v) (own_props entries) /\ k' = simplify_key k.
Proof.
  unfold entries_ret.
  assert (forall l ret,
             In (k', v) (fold_left (fun ret kv => set_prop (simplify_key (fst kv)) (snd kv) ret) l ret) ->
             In (k', v) ret \/ exists k, In (k, v) l /\ k' = simplify_key k) as Hgen.
  { induction l as [|[k x] l IH]; simpl; intros ret H; [auto|].
    apply IH in H. destruct H as [H|[k0 [H1 H2]]].
    - apply set_prop_In in H. destruct H as [H|H]; [|auto].
      injection H as -> ->. right. exists k. auto.
    - right. exists k0. auto. }
  intro H. apply Hgen in H. destruct H as [[]|H]. exact H.
Qed.

Lemma nesting_proto_child (k : string) (v proto : value)
      (props : list (string * value)) :
  In (k, v) props ->
  nesting v + (if String.eqb k "entries" then 1 else 0) < nesting (VProto proto props).
Proof.
  intro H. apply nesting_obj_child in H. simpl in H |- *. lia.
Qed.

Lemma nesting_proto_bound (proto : value) (props : list (string * value)) (b : nat) :
  nesting proto <= b ->
  (forall k v, In (k, v) props ->
               nesting v + (if String.eqb k "entries" then 1 else 0) <= b) ->
  nesting (VProto proto props) <= S b.
Proof.
  intros Hp H. apply nesting_obj_bound in H. simpl in H |- *. lia.
Qed.

Lemma nesting_proto_proto (proto : value) (props : list (string * value)) :
  nesting proto < nesting (VProto proto props).
Proof. simpl. lia. Qed.

(** An assignment keeps an object under construction within a bound that
    holds of the object and of the value assigned. *)
Lemma nesting_assign (k : string) (v ret : value) (b : nat) :
  nesting ret <= S b ->
  nesting v + (if String.eqb k "entries" then 1 else 0) <= b ->
  nesting (assign k v ret) <= S b.
Proof.
  intros Hret Hv.
  assert (nesting (set_own k v ret) <= S b) as Hown.
  { destruct ret as [| | | | |props|proto props]; try exact Hret.
    - cbn [set_own]. apply nesting_obj_bound. intros k0 v0 Hin.
      apply set_prop_In in Hin. destruct Hin as [Hin|Hin].
      + injection Hin as -> ->. exact Hv.
      + apply nesting_obj_child in Hin. lia.
    - cbn [set_own]. apply nesting_proto_bound.
      + pose proof (nesting_proto_proto proto props). lia.
      + intros k0 v0 Hin. apply set_prop_In in Hin. destruct Hin as [Hin|Hin].
        * injection Hin as -> ->. exact Hv.
        * apply (nesting_proto_child _ _ proto) in Hin. lia. }
  unfold assign. destruct (String.eqb k "__proto__" && proto_setter ret); [|exact Hown].
  destruct (typeof_object v); [|exact Hret].
  destruct ret as [| | | | |props|proto props]; try exact Hret.
  - cbn [set_prototype]. apply nesting_proto_bound; [lia|].
    intros k0 v0 Hin. apply nesting_obj_child in Hin. lia.
  - cbn [set_prototype]. apply nesting_proto_bound; [lia|].
    intros k0 v0 Hin. apply (nesting_proto_child _ _ proto) in Hin. lia.
Qed.

Lemma entries_object_bound (l : list (string * value)) (b : nat) :
  (forall k v, In (k, v) l ->
               nesting v + (if String.eqb (simplify_key k) "entries" then 1 else 0) <= b) ->
  nesting (entries_object l) <= S b.
Proof.
  unfold entries_object.
  assert (nesting (VObj []) <= S b) as H0 by (simpl; lia).
  revert H0. generalize (VObj []) as ret.
  induction l as [|[k x] l IH]; intros ret Hret H; [exact Hret|].
  cbn [fold_left fst snd]. apply IH.
  - apply nesting_assign; [exact Hret|]. apply H. left. reflexivity.
  - intros k' v' Hin. apply H. right. exact Hin.
Qed.

Lemma entries_object_nesting (entries : value) :
  nesting (entries_object (own_props entries)) <= S (nesting entries).
Proof.
  apply entries_object_bound. intros k v Hin.
  assert (forall b : bool, (if b then 1 else 0) <= 1) as Hb by (destruct b; lia).
  destruct entries; simpl in Hin; try contradiction.
  - apply indexed_from_In in Hin. destruct Hin as [[j ->] Hv].
    rewrite simplify_index_key. apply in_map_iff in Hv. destruct Hv as [c [<- _]].
    simpl. lia.
  - apply indexed_from_In in Hin. destruct Hin as [_ Hv].
    apply nesting_arr_child in Hv.
    specialize (Hb (String.eqb (simplify_key k) "entries")). lia.
  - assert (Hc := nesting_obj_child _ _ _ Hin).
    specialize (Hb (String.eqb (simplify_key k) "entries")). lia.
  - assert (Hc := nesting_proto_child _ _ entries _ Hin).
    specialize (Hb (String.eqb (simplify_key k) "entries")). lia.
Qed.

(** A member that is neither an index nor [length] is a property of the
    value or of one of its prototypes. *)
Lemma get_member_nesting (data : value) (k : string) (x : value) :
  array_index k = None -> String.eqb k "length" = false ->
  get_member data k = Some x ->
  nesting x + (if String.eqb k "entries" then 1 else 0) < nesting data.
Proof.
  intros Hi Hl.
  induction data as [| | | |elems _|props _|proto props IHp _] using value_deep_ind;
    cbn [get_member]; try discriminate.
  - rewrite Hl, Hi. discriminate.
  - rewrite Hl, Hi. discriminate.
  - intro H. apply get_prop_In in H. apply nesting_obj_child. exact H.
  - destruct (get_prop k props) as [y|] eqn:Hy.
    + intro H. injection H as ->. apply get_prop_In in Hy.
      apply nesting_proto_child. exact Hy.
    + intro H. specialize (IHp H).
      pose proof (nesting_proto_proto proto props). lia.
Qed.

Lemma inherits_from_array_nesting (data : value) :
  inherits_from_array data = true -> isArray data = false -> 1 < nesting data.
Proof.
  assert (forall v, inherits_from_array v = true -> 1 <= nesting v) as Hge.
  { induction v as [| | | |elems _|props _|proto props IHp _] using value_deep_ind;
      cbn [inherits_from_array]; try discriminate.
    - intros _. simpl. lia.
    - intro H. specialize (IHp H). simpl. lia. }
  destruct data; cbn [inherits_from_array isArray]; try discriminate.
  intros H _. apply Hge in H. simpl. lia.
Qed.

Lemma entries_container_Some (data : value) (entries : list (string * value)) :
  entries_container data = Some entries ->
  isArray data = false /\
  ((exists e, get_member data "entries" = Some e /\ truthy e = true /\
              entries = own_props e) \/
   (get_member data "entries" = None /\ inherits_from_array data = true /\
    entries = [])).
Proof.
  unfold entries_container. destruct (isArray data); [discriminate|].
  destruct (get_member data "entries") as [e|].
  - destruct (truthy e) eqn:Ht; [|discriminate]. intro H. injection H as <-.
    split; [reflexivity|]. left. exists e. auto.
  - destruct (inherits_from_array data); [|discriminate].
    intro H. injection H as <-. auto.
Qed.

Lemma entries_container_None (props : list (string * value)) :
  entries_container (VObj props) = None <->
  (forall e, get_prop "entries" props = Some e -> truthy e = false).
Proof.
  unfold entries_container. simpl. destruct (get_prop "entries" props) as [e|].
  - destruct (truthy e) eqn:Ht; split.
    + discriminate.
    + intro H. specialize (H e eq_refl). congruence.
    + intros _ e0 H. injection H as <-. exact Ht.
    + reflexivity.
  - split; [discriminate | reflexivity].
Qed.

Lemma entries_nesting (data : value) (entries : list (string * value)) :
  entries_container data = Some entries ->
  nesting (entries_object entries) < nesting data.
Proof.
  intro H. apply entries_container_Some in H.
  destruct H as [Ha [[e [Hm [Ht ->]]]|[_ [Hi ->]]]].
  - assert (Hr := entries_object_nesting e).
    destruct entries_plain as [H1 H2].
    apply (get_member_nesting _ _ _ H1 H2) in Hm.
    rewrite String.eqb_refl in Hm. lia.
  - apply (inherits_from_array_nesting _ Hi Ha).
Qed.

Lemma scaffold_nesting (data item : value) :
  scaffold_item keysToReduce data = Some item -> nesting item < nesting data.
Proof.
  intro H. apply scaffold_item_Some in H. destruct H as [_ [name [Hn Hm]]].
  apply keysToReduce_plain in Hn. destruct Hn as [H1 [H2 H3]].
  apply (get_member_nesting _ _ _ H1 H2) in Hm. lia.
Qed.

Lemma reduce_each_total (f : value -> option (result value)) (l ret : list value) :
  (forall x, In x l -> exists r, f x = Some r) ->
  exists res, reduce_each f l ret = Some res.
Proof.
  revert ret. induction l as [|x l IH]; simpl; intros ret H; [eauto|].
  destruct (H x (or_introl eq_refl)) as [[r|e] ->]; [|eauto].
  apply IH. intros; apply H; auto.
Qed.

Lemma reduce_props_total (f : value -> option (result value))
      (l ret : list (string * value)) :
  (forall k x, In (k, x) l -> exists r, f x = Some r) ->
  exists res, reduce_props f l ret = Some res.
Proof.
  revert ret. induction l as [|[k x] l IH]; simpl; intros ret H; [eauto|].
  destruct (H k x (or_introl eq_refl)) as [[r|e] ->]; [|eauto].
  apply IH. intros; eapply H; eauto.
Qed.

Lemma reduce_object_total (f : value -> option (result value))
      (l : list (string * value)) (ret : value) :
  (forall k x, In (k, x) l -> exists r, f x = Some r) ->
  exists res, reduce_object f l ret = Some res.
Proof.
  revert ret. induction l as [|[k x] l IH]; simpl; intros ret H; [eauto|].
  destruct (H k x (or_introl eq_refl)) as [[r|e] ->]; [|eauto].
  apply IH. intros; eapply H; eauto.
Qed.

(** Without array-to-map conversion the reduction of any payload ends, by
    a value or by an exception, within [S (nesting data)] calls deep. *)
Lemma reduceData_fuel_total
      (conv : list value -> string -> option string -> result value)
      (options : ReduceOptions.t) :
  catm_keyName options = None ->
  forall fuel data, nesting data < fuel ->
                    exists res, reduceData_fuel conv fuel data options = Some res.
Proof.
  intro Hc. induction fuel as [|fuel IH]; intros data Hn; [lia|].
  cbn [reduceData_fuel]. unfold reduceData_body.
  destruct (scaffold_item keysToReduce data) as [item|] eqn:Hs.
  { apply scaffold_nesting in Hs. destruct data; eauto; apply IH; lia. }
  destruct (entries_container data) as [e|] eqn:He.
  { apply entries_nesting in He. destruct data; eauto; apply IH; lia. }
  destruct data; eauto.
  - rewrite Hc.
    destruct (reduce_each_total (fun v => reduceData_fuel conv fuel v options) elems [])
      as [[r|e] ->]; simpl; eauto.
    intros x Hx. apply IH. apply nesting_arr_child in Hx. lia.
  - apply reduce_object_total.
    intros k x Hx. apply IH. apply nesting_obj_child in Hx. lia.
  - apply reduce_object_total.
    intros k x Hx. apply IH. apply (nesting_proto_child _ _ data) in Hx. lia.
Qed.

(** ** Reduced values are fixed points *)

Lemma lt_below_succ (a b c : nat) : a < b -> b < S c -> a < c.
Proof. lia. Qed.

Lemma le_lt_below_succ (a b c d : nat) : a + d < b -> b < S c -> a < c.
Proof. lia. Qed.

Lemma reduce_each_id (f : value -> option (result value)) (l ret : list value) :
  (forall x, In x l -> f x = Some (Ok x)) ->
  reduce_each f l ret = Some (Ok (ret ++ l)).
Proof.
  revert ret. induction l as [|x l IH]; simpl; intros ret H.
  - rewrite app_nil_r. reflexivity.
  - rewrite (H x (or_introl eq_refl)). rewrite IH by (intros; apply H; auto).
    rewrite <- app_assoc. reflexivity.
Qed.

Lemma reduce_props_id (f : value -> option (result value))
      (l ret : list (string * value)) :
  (forall k x, In (k, x) l -> f x = Some (Ok x)) ->
  js_props (ret ++ l) ->
  reduce_props f l ret = Some (Ok (ret ++ l)).
Proof.
  revert ret. induction l as [|[k x] l IH]; simpl; intros ret H Hjs.
  - rewrite app_nil_r. reflexivity.
  - rewrite (H k x (or_introl eq_refl)).
    rewrite (set_prop_next k x ret l Hjs).
    rewrite IH.
    + rewrite <- app_assoc. reflexivity.
    + intros; eapply H; eauto.
    + rewrite <- app_assoc. exact Hjs.
Qed.

Lemma keeps_arrays_true (options : ReduceOptions.t) :
  keeps_arrays options = true -> catm_keyName options = None.
Proof. unfold keeps_arrays. destruct (catm_keyName options); [discriminate | reflexivity]. Qed.

Lemma reduced_fixed
      (conv : list value -> string -> option string -> result value)
      (options : ReduceOptions.t) (r : value) :
  reduced (keeps_arrays options) r ->
  forall fuel, nesting r < fuel -> reduceData_fuel conv fuel r options = Some (Ok r).
Proof.
  induction r as [| b | n | s | l IH | props IH | proto props _ _] using value_deep_ind;
    intros Hred fuel Hn; (destruct fuel as [|fuel]; [lia|]).
  - inversion Hred; congruence.
  - apply reduceData_fuel_scalar; [reflexivity | discriminate].
  - apply reduceData_fuel_scalar; [reflexivity | discriminate].
  - apply reduceData_fuel_scalar; [reflexivity | discriminate].
  - inversion Hred as [v Hs _ | elems Ha Hall | ]; subst; [discriminate|].
    cbn [reduceData_fuel]. unfold reduceData_body.
    rewrite scaffold_item_array. unfold entries_container. cbn [isArray].
    rewrite (keeps_arrays_true _ Ha).
    rewrite reduce_each_id; [reflexivity|].
    intros x Hx. rewrite Forall_forall in IH, Hall.
    apply IH; [exact Hx | apply Hall; exact Hx|].
    apply nesting_arr_child in Hx. eapply lt_below_succ; eassumption.
  - inversion Hred as [v Hs _ | | props' Hsc Hen Hjs Hnp Hall]; subst; [discriminate|].
    cbn [reduceData_fuel]. unfold reduceData_body. rewrite Hsc, Hen.
    rewrite reduce_object_props by exact Hnp.
    rewrite reduce_props_id; [reflexivity| |exact Hjs].
    intros k x Hx. rewrite Forall_forall in IH, Hall.
    apply (IH (k, x) Hx); [apply (Hall (k, x) Hx)|].
    apply nesting_obj_child in Hx. eapply le_lt_below_succ; eassumption.
  - inversion Hred as [v Hs _ | | ]; subst. discriminate.
Qed.

(** ** Well-formed values *)

Lemma wf_value_obj (props : list (string * value)) :
  wf_value (VObj props) = true <->
  NoDup (map fst props) /\ (forall k v, In (k, v) props -> wf_value v = true).
Proof.
  cbn [wf_value]. rewrite andb_true_iff, distinct_NoDup, forallb_forall. split.
  - intros [H1 H2]. split; [exact H1|]. intros k v Hin. apply (H2 (k, v) Hin).
  - intros [H1 H2]. split; [exact H1|]. intros [k v] Hin. apply (H2 k v Hin).
Qed.

Lemma wf_value_arr (elems : list value) :
  wf_value (VArr elems) = true <-> (forall x, In x elems -> wf_value x = true).
Proof. cbn [wf_value]. apply forallb_forall. Qed.

Lemma wf_own_props (e : value) (k : string) (v : value) :
  wf_value e = true -> In (k, v) (own_props e) -> wf_value v = true.
Proof.
  intros Hwf Hin. destruct e; simpl in Hin; try contradiction.
  - apply indexed_from_In in Hin. destruct Hin as [_ Hin].
    apply in_map_iff in Hin. destruct Hin as [c [<- _]]. reflexivity.
  - apply indexed_from_In in Hin. destruct Hin as [_ Hin].
    rewrite wf_value_arr in Hwf. auto.
  - rewrite wf_value_obj in Hwf. destruct Hwf as [_ Hwf]. eauto.
  - cbn [wf_value] in Hwf. rewrite !andb_true_iff, forallb_forall in Hwf.
    destruct Hwf as [_ Hwf]. apply (Hwf (k, v) Hin).
Qed.

(** ** Plain values *)

Lemma keys_all_obj (ok : string -> bool) (props : list (string * value)) :
  keys_all ok (VObj props) = true <->
  (forall k v, In (k, v) props -> ok k = true /\ keys_all ok v = true).
Proof.
  cbn [keys_all]. rewrite forallb_forall. split.
  - intros H k v Hin. specialize (H (k, v) Hin). apply andb_true_iff in H. exact H.
  - intros H [k v] Hin. apply andb_true_iff. apply (H k v Hin).
Qed.

Lemma keys_all_arr (ok : string -> bool) (elems : list value) :
  keys_all ok (VArr elems) = true <-> (forall x, In x elems -> keys_all ok x = true).
Proof. cbn [keys_all]. apply forallb_forall. Qed.

Lemma keys_all_weaken (ok ok' : string -> bool) (v : value) :
  (forall k, ok k = true -> ok' k = true) ->
  keys_all ok v = true -> keys_all ok' v = true.
Proof.
  intro Hok.
  induction v as [| | | |elems IH|props IH|proto props _ _] using value_deep_ind;
    try (intros; reflexivity); try discriminate.
  - rewrite !keys_all_arr. intros H x Hx. rewrite Forall_forall in IH. auto.
  - rewrite !keys_all_obj. intros H k v Hin. rewrite Forall_forall in IH.
    destruct (H k v Hin) as [H1 H2]. split; [auto|]. apply (IH (k, v) Hin H2).
Qed.

Lemma plain_proto_free (v : value) : plain v = true -> proto_free v = true.
Proof.
  unfold plain, proto_free. apply keys_all_weaken. intros k H. apply andb_true_iff in H. tauto.
Qed.

Lemma index_key_plain (j : N) :
  index_key j <> "__proto__" /\ simplify_key (index_key j) <> "__proto__".
Proof.
  unfold index_key. destruct (N.to_uint j); split; discriminate.
Qed.

Lemma plain_plain_below (v : value) : plain v = true -> plain_below v.
Proof.
  unfold plain. destruct v; cbn [plain_below]; try tauto.
  - apply keys_all_arr.
  - intros H k x Hin. destruct (proj1 (keys_all_obj _ _) H k x Hin) as [H1 H2].
    apply plain_key_spec in H1. tauto.
  - discriminate.
Qed.

Lemma plain_own_props (e : value) (k : string) (v : value) :
  plain e = true -> In (k, v) (own_props e) ->
  simplify_key k <> "__proto__" /\ plain v = true.
Proof.
  unfold plain. intros Hp Hin. destruct e; simpl in Hin; try contradiction.
  - apply indexed_from_In in Hin. destruct Hin as [[j ->] Hin].
    apply in_map_iff in Hin. destruct Hin as [c [<- _]].
    split; [apply index_key_plain | reflexivity].
  - apply indexed_from_In in Hin. destruct Hin as [[j ->] Hin].
    split; [apply index_key_plain|]. apply (proj1 (keys_all_arr _ _) Hp). exact Hin.
  - destruct (proj1 (keys_all_obj _ _) Hp k v Hin) as [H1 H2].
    apply plain_key_spec in H1. tauto.
  - discriminate.
Qed.

Lemma entries_ret_plain_below (entries : value) :
  plain entries = true -> plain_below (VObj (entries_ret entries)).
Proof.
  intros Hp k' v Hin. apply entries_ret_In in Hin. destruct Hin as [k [Hin ->]].
  apply (plain_own_props _ _ _ Hp Hin).
Qed.

Lemma entries_object_plain (entries : value) :
  plain entries = true ->
  entries_object (own_props entries) = VObj (entries_ret entries).
Proof.
  intro Hp. apply entries_object_ret. intros k Hk.
  apply in_map_iff in Hk. destruct Hk as [[k0 v] [<- Hin]].
  apply (plain_own_props _ _ _ Hp Hin).
Qed.

Lemma entries_ret_js_props (entries : value) : js_props (entries_ret entries).
Proof.
  unfold entries_ret.
  assert (forall l ret, js_props ret ->
            js_props (fold_left (fun ret kv => set_prop (simplify_key (fst kv)) (snd kv) ret) l ret))
    as Hgen.
  { induction l as [|kv l IH]; simpl; intros ret H; [exact H|].
    apply IH. apply set_prop_js_props. exact H. }
  apply Hgen. apply js_props_nil.
Qed.

Lemma entries_ret_wf (entries : value) :
  wf_value entries = true -> wf_value (VObj (entries_ret entries)) = true.
Proof.
  intro Hwf. apply wf_value_obj. split.
  - apply entries_ret_js_props.
  - intros k' v Hin. apply entries_ret_In in Hin. destruct Hin as [k [Hin _]].
    eapply wf_own_props; eauto.
Qed.

(** ** The two loops of the generic case *)

Lemma NoDup_app_disjoint (l1 l2 : list string) :
  NoDup (l1 ++ l2) -> forall a, In a l1 -> ~ In a l2.
Proof.
  induction l1 as [|x l1 IH]; simpl; intros Hnd a Hin; [contradiction|].
  inversion Hnd as [|? ? Hx Hnd']; subst. destruct Hin as [->|Hin].
  - intro H. apply Hx. apply in_app_iff. auto.
  - apply IH; assumption.
Qed.

Lemma reduce_each_In (f : value -> option (result value)) (l ret out : list value) :
  reduce_each f l ret = Some (Ok out) ->
  forall r, In r out -> In r ret \/ exists x, In x l /\ f x = Some (Ok r).
Proof.
  revert ret. induction l as [|x l IH]; simpl; intros ret H r Hr.
  - injection H as <-. auto.
  - destruct (f x) as [[rx|e]|] eqn:Hf; try discriminate.
    destruct (IH _ H r Hr) as [Hin|[y [Hy Hfy]]].
    + apply in_app_iff in Hin. destruct Hin as [Hin|[<-|[]]]; [auto|].
      right. exists x. auto.
    + right. exists y. auto.
Qed.

Lemma reduce_props_In (f : value -> option (result value))
      (l ret out : list (string * value)) :
  reduce_props f l ret = Some (Ok out) ->
  forall k r, In (k, r) out ->
              In (k, r) ret \/ exists x, In (k, x) l /\ f x = Some (Ok r).
Proof.
  revert ret. induction l as [|[k0 x] l IH]; simpl; intros ret H k r Hr.
  - injection H as <-. auto.
  - destruct (f x) as [[rx|e]|] eqn:Hf; try discriminate.
    destruct (IH _ H k r Hr) as [Hin|[y [Hy Hfy]]].
    + apply set_prop_In in Hin. destruct Hin as [Hin|Hin]; [|auto].
      injection Hin as -> ->. right. exists x. auto.
    + right. exists y. auto.
Qed.

Lemma reduce_props_js_props (f : value -> option (result value))
      (l ret out : list (string * value)) :
  reduce_props f l ret = Some (Ok out) -> js_props ret -> js_props out.
Proof.
  revert ret. induction l as [|[k0 x] l IH]; simpl; intros ret H Hjs.
  - injection H as <-. exact Hjs.
  - destruct (f x) as [[rx|e]|]; try discriminate.
    eapply IH; [exact H|]. apply set_prop_js_props. exact Hjs.
Qed.

Lemma reduce_props_keys (f : value -> option (result value))
      (l ret out : list (string * value)) :
  reduce_props f l ret = Some (Ok out) ->
  forall k, In k (map fst out) <-> In k (map fst ret) \/ In k (map fst l).
Proof.
  revert ret. induction l as [|[k0 x] l IH]; simpl; intros ret H k.
  - injection H as <-. tauto.
  - destruct (f x) as [[rx|e]|]; try discriminate.
    rewrite (IH _ H k), set_prop_keys_In. intuition congruence.
Qed.

Lemma reduce_props_length (f : value -> option (result value))
      (l ret out : list (string * value)) :
  reduce_props f l ret = Some (Ok out) ->
  NoDup (map fst ret ++ map fst l) ->
  List.length out = List.length ret + List.length l.
Proof.
  revert ret. induction l as [|[k0 x] l IH]; simpl; intros ret H Hnd.
  - injection H as <-. lia.
  - destruct (f x) as [[rx|e]|]; try discriminate.
    assert (~ In k0 (map fst ret)) as Hnin.
    { apply NoDup_remove_2 in Hnd. intro Hin. apply Hnd. apply in_app_iff. auto. }
    rewrite (IH _ H).
    + rewrite set_prop_length_new by exact Hnin. lia.
    + assert (Hnd' := Hnd). apply NoDup_remove_1 in Hnd'.
      apply NoDup_remove_2 in Hnd.
      apply NoDup_app.
      * apply set_prop_NoDup. apply NoDup_app_remove_r in Hnd'. exact Hnd'.
      * apply NoDup_app_remove_l in Hnd'. exact Hnd'.
      * intros y Hy Hy'. apply set_prop_keys_In in Hy. destruct Hy as [->|Hy].
        -- apply Hnd. apply in_app_iff. auto.
        -- apply (NoDup_app_disjoint _ _ Hnd' y); auto.
Qed.

(** ** What the reduction returns is reduced *)

Lemma entries_container_obj (props entries : list (string * value)) :
  entries_container (VObj props) = Some entries ->
  exists e, get_prop "entries" props = Some e /\ truthy e = true /\
            entries = own_props e.
Proof.
  intro H. apply entries_container_Some in H.
  destruct H as [_ [[e [Hm [Ht ->]]]|[_ [Hi _]]]]; [|discriminate].
  exists e. auto.
Qed.

Section ReducedOutput.

Variable conv : list value -> string -> option string -> result value.
Variable options : ReduceOptions.t.
Hypothesis conv_wf : converter_wf conv.

Lemma reduceData_fuel_falsy (fuel : nat) (v r : value) :
  truthy v = false ->
  reduceData_fuel conv fuel v options = Some (Ok r) -> r = v.
Proof.
  intros Ht H. destruct fuel as [|fuel]; [discriminate|].
  destruct v; try discriminate.
  - rewrite reduceData_fuel_scalar in H; [congruence | reflexivity | discriminate].
  - rewrite reduceData_fuel_scalar in H; [congruence | reflexivity | discriminate].
  - rewrite reduceData_fuel_scalar in H; [congruence | reflexivity | discriminate].
Qed.

Lemma generic_object_reduced (fuel : nat) (props out : list (string * value)) :
  (forall k v r, In (k, v) props ->
                 reduceData_fuel conv fuel v options = Some (Ok r) ->
                 reduced (keeps_arrays options) r) ->
  NoDup (map fst props) ->
  ~ In "__proto__" (map fst props) ->
  scaffold_item keysToReduce (VObj props) = None ->
  entries_container (VObj props) = None ->
  reduce_props (fun v => reduceData_fuel conv fuel v options) props [] = Some (Ok out) ->
  reduced (keeps_arrays options) (VObj out).
Proof.
  intros IH Hnd Hnp Hsc Hen H. apply reduced_object.
  - apply scaffold_item_None. apply scaffold_item_None in Hsc.
    cbn [own_props get_member] in *. destruct Hsc as [Hl|Hm].
    + left. rewrite (reduce_props_length _ _ _ _ H); [exact Hl | exact Hnd].
    + right. intros name Hn. specialize (Hm name Hn).
      apply get_prop_None. apply get_prop_None in Hm.
      rewrite (reduce_props_keys _ _ _ _ H). simpl. tauto.
  - apply entries_container_None. intros e He.
    apply get_prop_In in He.
    destruct (reduce_props_In _ _ _ _ H _ _ He) as [[]|[x [Hx Hf]]].
    rewrite entries_container_None in Hen.
    assert (truthy x = false) as Ht.
    { apply Hen. apply In_get_prop; assumption. }
    rewrite (reduceData_fuel_falsy _ _ _ Ht Hf). exact Ht.
  - eapply reduce_props_js_props; [exact H | apply js_props_nil].
  - rewrite (reduce_props_keys _ _ _ _ H). simpl. tauto.
  - apply Forall_forall. intros [k r] Hin.
    destruct (reduce_props_In _ _ _ _ H _ _ Hin) as [[]|[x [Hx Hf]]].
    simpl. eapply IH; eauto.
Qed.

Lemma reduceData_fuel_reduced_below (fuel : nat) :
  forall data r,
    wf_value data = true -> plain_below data ->
    reduceData_fuel conv fuel data options = Some (Ok r) ->
    reduced (keeps_arrays options) r.
Proof.
  induction fuel as [|fuel IH]; intros data r Hwf Hp H; [discriminate|].
  cbn [reduceData_fuel] in H. unfold reduceData_body in H.
  destruct data as [|b|n|s|elems|props|proto props];
    cbn [plain_below] in Hp; try contradiction; try discriminate.
  - simpl in H. injection H as <-. apply reduced_scalar; [reflexivity | discriminate].
  - simpl in H. injection H as <-. apply reduced_scalar; [reflexivity | discriminate].
  - rewrite scaffold_item_string in H. unfold entries_container in H.
    destruct entries_plain as [E1 E2].
    cbn [isArray get_member inherits_from_array] in H. rewrite E2, E1 in H.
    injection H as <-. apply reduced_scalar; [reflexivity | discriminate].
  - rewrite scaffold_item_array in H. unfold entries_container in H.
    cbn [isArray] in H.
    destruct (catm_keyName options) as [[name prefix]|] eqn:Hc.
    + destruct (conv elems name prefix) as [ret|] eqn:Hconv; [|discriminate].
      destruct (conv_wf elems name prefix ret) as [Hw1 Hw2];
        [exact Hwf | apply forallb_forall; exact Hp | exact Hconv |].
      eapply IH; [exact Hw1 | apply plain_plain_below; exact Hw2 | exact H].
    + apply lift_Some in H. destruct H as [[rs|] [H Hr]]; [|discriminate].
      injection Hr as ->. apply reduced_array.
      * unfold keeps_arrays. rewrite Hc. reflexivity.
      * apply Forall_forall. intros x Hx.
        destruct (reduce_each_In _ _ _ _ H _ Hx) as [[]|[y [Hy Hf]]].
        eapply IH; [| |exact Hf].
        -- rewrite wf_value_arr in Hwf. auto.
        -- apply plain_plain_below. auto.
  - apply wf_value_obj in Hwf. destruct Hwf as [Hnd Hwf].
    destruct (scaffold_item keysToReduce (VObj props)) as [item|] eqn:Hsc.
    { apply scaffold_item_sole in Hsc. destruct Hsc as [k [_ ->]].
      eapply IH; [| |exact H].
      - apply (Hwf k). left. reflexivity.
      - apply plain_plain_below. apply (Hp k). left. reflexivity. }
    destruct (entries_container (VObj props)) as [l|] eqn:Hen.
    { apply entries_container_obj in Hen. destruct Hen as [e [He [_ ->]]].
      apply get_prop_In in He.
      assert (plain e = true) as Hpe by (apply (Hp _ _ He)).
      rewrite (entries_object_plain _ Hpe) in H.
      eapply IH; [| |exact H].
      - apply entries_ret_wf. eauto.
      - apply entries_ret_plain_below. exact Hpe. }
    assert (~ In "__proto__" (map fst props)) as Hnp.
    { intro Hin. apply in_map_iff in Hin. destruct Hin as [[k x] [Hk Hin]].
      simpl in Hk. subst k. destruct (Hp _ _ Hin) as [Hne _]. congruence. }
    rewrite reduce_object_props in H by exact Hnp.
    apply lift_Some in H. destruct H as [[out|] [H Hr]]; [|discriminate].
    injection Hr as ->.
    eapply generic_object_reduced; eauto.
    intros k v r Hin Hf. eapply IH; [| |exact Hf].
    + eauto.
    + apply plain_plain_below. apply (Hp _ _ Hin).
Qed.

Lemma reduceData_fuel_reduced (fuel : nat) (data r : value) :
  wf_value data = true -> plain data = true ->
  reduceData_fuel conv fuel data options = Some (Ok r) ->
  reduced (keeps_arrays options) r.
Proof.
  intros Hwf Hp. apply reduceData_fuel_reduced_below; [exact Hwf|].
  apply plain_plain_below. exact Hp.
Qed.

End ReducedOutput.

(** * The reducer *)

(** ** Scalars *)

(** C6 (as amended).  A scalar other than null (a boolean, a number or a
    string) is returned by [reduceData] as it is, without an exception,
    whatever the options and however deep the call. *)
Theorem reduceData_scalar_unchanged
        (conv : list value -> string -> option string -> result value)
        (options : ReduceOptions.t) (v : value) :
  is_scalar v = true -> v <> VNull ->
  reduceData conv v options = Some (Ok v) /\
  forall fuel, reduceData_fuel conv (S fuel) v options = Some (Ok v).
Proof.
  intros Hs Hn. split.
  - unfold reduceData. apply reduceData_fuel_scalar; assumption.
  - intro fuel. apply reduceData_fuel_scalar; assumption.
Qed.

Lemma reduceData_scalar_unchanged_witness :
  (is_scalar (VStr "up") = true /\ VStr "up" <> VNull) /\
  reduceData keyed_by_field (VStr "up") no_options = Some (Ok (VStr "up")).
Proof.
  split; [split; [reflexivity | discriminate]|].
  apply (reduceData_scalar_unchanged keyed_by_field no_options (VStr "up"));
    [reflexivity | discriminate].
Defined.

(** C6 fails at null: the first statement of [reduceData] indexes into
    [data], which throws a TypeError on null. *)
Lemma reduceData_null_raises :
  is_scalar VNull = true /\
  reduceData keyed_by_field VNull no_options = Some (Throw TypeError) /\
  reduceData keyed_by_field VNull no_options <> Some (Ok VNull).
Proof. split; [reflexivity|]. split; [reflexivity | discriminate]. Qed.

(** ** Scaffold wrappers *)

Lemma set_prop_nil (k : string) (v : value) : set_prop k v [] = [(k, v)].
Proof. unfold set_prop. simpl. destruct (array_index k); reflexivity. Qed.

Lemma wrap_collapses
      (conv : list value -> string -> option string -> result value)
      (options : ReduceOptions.t) (ks : list string) (v : value) (fuel : nat) :
  Forall (fun k => In k keysToReduce) ks ->
  reduceData_fuel conv (List.length ks + fuel) (wrap ks v) options =
  reduceData_fuel conv fuel v options.
Proof.
  induction 1 as [|k ks Hk _ IH]; [reflexivity|].
  change (wrap (k :: ks) v) with (VObj [(k, wrap ks v)]).
  cbn [List.length Nat.add reduceData_fuel]. unfold reduceData_body.
  assert (scaffold_item keysToReduce (VObj [(k, wrap ks v)]) = Some (wrap ks v)) as ->.
  { apply scaffold_item_sole. exists k. auto. }
  exact IH.
Qed.

(** C3 (as amended).  A mapping is unwrapped exactly when it has one key
    and that key is one of [nestedStats], [value], [description], [color];
    the result is then the reduction of that key's value, so that
    [{"value": 5}] reduces to [5] and a chain of such wrappers of any depth
    collapses.  A one-key mapping whose key is not a scaffold name and
    which is not an entries container (its key is not [entries], or the
    value under [entries] is falsy) is handled as any mapping: the value
    is reduced, and the key stays unless it is [__proto__].  Under that key
    the assignment to the fresh result stores no property: the result is
    an empty mapping, whose prototype is the reduced value when that one is
    an object or an array. *)
Theorem reduceData_scaffold_unwrap
        (conv : list value -> string -> option string -> result value)
        (options : ReduceOptions.t) (fuel : nat)
        (k : string) (v : value) (ks : list string) (k' : string) (v' : value) :
  In k keysToReduce ->
  Forall (fun k => In k keysToReduce) ks ->
  ~ In k' keysToReduce ->
  entries_container (VObj [(k', v')]) = None ->
  k' <> "__proto__" ->
  (forall props item,
      scaffold_item keysToReduce (VObj props) = Some item <->
      exists k0, In k0 keysToReduce /\ props = [(k0, item)]) /\
  reduceData_fuel conv (S fuel) (VObj [(k, v)]) options =
    reduceData_fuel conv fuel v options /\
  reduceData_fuel conv (List.length ks + fuel) (wrap ks v) options =
    reduceData_fuel conv fuel v options /\
  reduceData conv (VObj [("value", VNum 5)]) options = Some (Ok (VNum 5)) /\
  reduceData_fuel conv (S fuel) (VObj [(k', v')]) options =
    lift (fun r => VObj [(k', r)]) (reduceData_fuel conv fuel v' options) /\
  reduceData_fuel conv (S fuel) (VObj [("__proto__", v')]) options =
    lift (fun r => if typeof_object r then VProto r [] else VObj [])
         (reduceData_fuel conv fuel v' options).
Proof.
  intros Hk Hks Hk' Hen Hproto. split; [|split; [|split; [|split; [|split]]]].
  - intros props item. apply scaffold_item_sole.
  - apply (wrap_collapses conv options [k] v fuel). constructor; [exact Hk | constructor].
  - apply wrap_collapses. exact Hks.
  - reflexivity.
  - cbn [reduceData_fuel]. unfold reduceData_body. rewrite Hen.
    assert (scaffold_item keysToReduce (VObj [(k', v')]) = None) as ->.
    { destruct (scaffold_item keysToReduce (VObj [(k', v')])) eqn:E; [|reflexivity].
      apply scaffold_item_sole in E. destruct E as [k0 [Hk0 E]].
      injection E as -> _. contradiction. }
    cbn [reduce_object].
    destruct (reduceData_fuel conv fuel v' options) as [[r|e]|]; cbn [reduce_object lift];
      [rewrite assign_own by exact Hproto; rewrite set_prop_nil|..]; reflexivity.
  - cbn [reduceData_fuel]. unfold reduceData_body.
    change (scaffold_item keysToReduce (VObj [("__proto__", v')])) with (@None value).
    change (entries_container (VObj [("__proto__", v')]))
      with (@None (list (string * value))).
    cbn [reduce_object].
    destruct (reduceData_fuel conv fuel v' options) as [[r|e]|]; reflexivity.
Qed.

Lemma reduceData_scaffold_unwrap_witness :
  (In "nestedStats" keysToReduce /\
   Forall (fun k => In k keysToReduce) ["nestedStats"; "value"; "color"] /\
   ~ In "name" keysToReduce /\
   entries_container (VObj [("name", VStr "eth0")]) = None /\
   "name" <> "__proto__") /\
  reduceData_fuel keyed_by_field 4
    (wrap ["nestedStats"; "value"; "color"] (VStr "red")) no_options =
  Some (Ok (VStr "red")) /\
  reduceData_fuel keyed_by_field 2 (VObj [("name", VStr "eth0")]) no_options =
  Some (Ok (VObj [("name", VStr "eth0")])).
Proof.
  assert (In "nestedStats" keysToReduce) as H1 by (simpl; auto).
  assert (Forall (fun k => In k keysToReduce) ["nestedStats"; "value"; "color"]) as H2
      by (repeat constructor; simpl; auto 6).
  assert (~ In "name" keysToReduce) as H3
      by (simpl; intros [H|[H|[H|[H|[]]]]]; discriminate).
  assert (entries_container (VObj [("name", VStr "eth0")]) = None) as H4 by reflexivity.
  assert ("name" <> "__proto__") as H5 by discriminate.
  split; [auto|].
  destruct (reduceData_scaffold_unwrap keyed_by_field no_options 1
              "nestedStats" (VStr "red") ["nestedStats"; "value"; "color"]
              "name" (VStr "eth0") H1 H2 H3 H4 H5) as [_ [_ [Hw [_ [Hg _]]]]].
  split; [exact Hw | exact Hg].
Defined.

(** C3 fails for the key [entries]: a one-key mapping whose key is not a
    scaffold name is not left in shape when it is an entries container. *)
Lemma one_key_entries_container_reshaped :
  ~ In "entries" keysToReduce /\
  reduceData keyed_by_field (VObj [("entries", VObj [("a", VNum 1)])]) no_options
  = Some (Ok (VObj [("a", VNum 1)])) /\
  forall r, reduceData keyed_by_field (VObj [("entries", VObj [("a", VNum 1)])]) no_options
            <> Some (Ok (VObj [("entries", r)])).
Proof.
  split; [simpl; intros [H|[H|[H|[H|[]]]]]; discriminate|].
  split; [reflexivity | intro r; discriminate].
Qed.

(** ** Entries containers *)

Lemma entries_ret_keys (entries : value) (k' : string) :
  In k' (map fst (entries_ret entries)) <->
  exists k, In k (map fst (own_props entries)) /\ k' = simplify_key k.
Proof.
  unfold entries_ret.
  assert (forall l ret,
             In k' (map fst (fold_left (fun ret kv => set_prop (simplify_key (fst kv)) (snd kv) ret) l ret)) <->
             In k' (map fst ret) \/ exists k, In k (map fst l) /\ k' = simplify_key k) as Hgen.
  { induction l as [|[k x] l IH]; simpl; intros ret.
    - split; [auto | intros [H|[k [[] _]]]; exact H].
    - rewrite IH, set_prop_keys_In. split.
      + intros [[H|H]|[k0 [H1 H2]]]; eauto.
      + intros [H|[k0 [[H1|H1] H2]]]; subst; eauto. }
  rewrite Hgen. simpl. split; [intros [[]|H]; exact H | auto].
Qed.

(** C1 (as amended).  Reducing an entries container replaces each entries
    key by the key with the first occurrence of [https://localhost/] and
    then the first occurrence of [mgmt/tm/] removed; what follows, the
    module segment [sys/] included, is kept.  As long as no key is
    simplified to [__proto__], the object built from the entries has
    exactly the simplified keys as its keys; the reduction of the container
    is the reduction of this object.  So
    [reduce({"entries": {"https://localhost/mgmt/tm/sys/foo": {"value": 1}}})]
    is [{"sys/foo": 1}], and normalizing the tmm-info payload with empty
    options gives [{"sys/tmm-info/0.0/stats": {"oneMinAverageSystem": 5}}]. *)
Theorem reduceData_entries_keys
        (conv : list value -> string -> option string -> result value)
        (sep : string) (builtins : builtin -> string -> bool) (regex : Type)
        (string_match : string -> regex -> option (list (option string)))
        (registry : string -> option (arguments -> result resolved)) :
  (forall rest, simplify_key ("https://localhost/mgmt/tm/" ++ rest) = rest) /\
  (forall entries,
      (forall k, In k (map fst (own_props entries)) -> simplify_key k <> "__proto__") ->
      exists props,
        entries_object (own_props entries) = VObj props /\
        forall k', In k' (map fst props) <->
                   exists k, In k (map fst (own_props entries)) /\ k' = simplify_key k) /\
  (forall options fuel props entries,
      scaffold_item keysToReduce (VObj props) = None ->
      get_prop "entries" props = Some entries -> truthy entries = true ->
      reduceData_fuel conv (S fuel) (VObj props) options
      = reduceData_fuel conv fuel (entries_object (own_props entries)) options) /\
  reduceData conv foo_payload no_options = Some (Ok (VObj [("sys/foo", VNum 1)])) /\
  normalizeData conv sep builtins regex string_match registry tmm_payload
                (empty_options regex)
  = Some (Ok (Data (VObj [("sys/tmm-info/0.0/stats",
                           VObj [("oneMinAverageSystem", VNum 5)])])),
          []).
Proof.
  split; [|split; [|split; [|split]]].
  - intro rest. reflexivity.
  - intros entries H. exists (entries_ret entries).
    split; [apply entries_object_ret; exact H|]. intro k'. apply entries_ret_keys.
  - intros options fuel props entries Hs He Ht.
    cbn [reduceData_fuel]. unfold reduceData_body. rewrite Hs.
    unfold entries_container. cbn [isArray get_member]. rewrite He, Ht.
    destruct props; reflexivity.
  - reflexivity.
  - reflexivity.
Qed.

(** C1 fails as stated: the key keeps its [sys/] segment.  And an entry
    whose key is simplified to [__proto__] gives no key at all. *)
Lemma reduceData_entries_keeps_module :
  reduceData keyed_by_field foo_payload no_options
  <> Some (Ok (VObj [("foo", VNum 1)])) /\
  normalizeData keyed_by_field "::" es5_builtins string literal_match echo_registry
                tmm_payload (empty_options string)
  <> Some (Ok (Data (VObj [("tmm-info/0.0/stats",
                            VObj [("oneMinAverageSystem", VNum 5)])])), []) /\
  reduceData keyed_by_field
             (VObj [("entries", VObj [("https://localhost/__proto__", VNum 1)])])
             no_options
  = Some (Ok (VObj [])).
Proof. split; [|split]; vm_compute; (discriminate || reflexivity). Qed.

(** ** Generic handling of a mapping *)

Lemma reduce_props_get_other (f : value -> option (result value))
      (l ret out : list (string * value)) (k : string) :
  reduce_props f l ret = Some (Ok out) ->
  ~ In k (map fst l) -> get_prop k out = get_prop k ret.
Proof.
  revert ret. induction l as [|[k0 x] l IH]; simpl; intros ret H Hnin.
  - injection H as <-. reflexivity.
  - destruct (f x) as [[rx|e]|]; try discriminate.
    rewrite (IH _ H) by tauto. apply get_prop_set_prop_ne. tauto.
Qed.

Lemma reduce_props_get (f : value -> option (result value))
      (l ret out : list (string * value)) (k : string) (v : value) :
  reduce_props f l ret = Some (Ok out) ->
  NoDup (map fst l) -> In (k, v) l ->
  exists r, f v = Some (Ok r) /\ get_prop k out = Some r.
Proof.
  revert ret. induction l as [|[k0 x] l IH]; simpl; intros ret H Hnd Hin; [contradiction|].
  inversion Hnd as [|? ? Hk0 Hnd']; subst.
  destruct (f x) as [[rx|e]|] eqn:Hf; try discriminate.
  destruct Hin as [Heq|Hin].
  - injection Heq as -> ->. exists rx. split; [exact Hf|].
    rewrite (reduce_props_get_other _ _ _ _ _ H Hk0). apply get_prop_set_prop_eq.
  - eapply IH; eauto.
Qed.

Lemma reduce_props_ok (f : value -> option (result value))
      (l ret : list (string * value)) :
  (forall k v, In (k, v) l -> exists r, f v = Some (Ok r)) ->
  exists out, reduce_props f l ret = Some (Ok out).
Proof.
  revert ret. induction l as [|[k x] l IH]; simpl; intros ret H; [eauto|].
  destruct (H k x (or_introl eq_refl)) as [r ->].
  apply IH. intros; eapply H; eauto.
Qed.

Lemma reduce_props_throw (f : value -> option (result value))
      (l ret : list (string * value)) (e : error) :
  reduce_props f l ret = Some (Throw e) ->
  exists k v, In (k, v) l /\ f v = Some (Throw e).
Proof.
  revert ret. induction l as [|[k x] l IH]; simpl; intros ret H; [discriminate|].
  destruct (f x) as [[rx|e']|] eqn:Hf; try discriminate.
  - destruct (IH _ H) as [k1 [v1 [H1 H2]]]. exists k1, v1. auto.
  - injection H as ->. exists k, x. auto.
Qed.

(** C9 (as amended).  A mapping that is not a lone scaffold wrapper and
    whose [entries] field is absent or falsy gets the generic handling:
    every value is reduced, and the key set is kept when no key is
    [__proto__].  The node raises only if the reduction of one of its values
    does; in particular this covers a scaffold name accompanied by other
    keys. *)
Theorem reduceData_generic_mapping
        (conv : list value -> string -> option string -> result value)
        (options : ReduceOptions.t) (fuel : nat) (props : list (string * value)) :
  NoDup (map fst props) ->
  ~ In "__proto__" (map fst props) ->
  (List.length props <> 1 \/
   forall name, In name keysToReduce -> get_prop name props = None) ->
  (forall e, get_prop "entries" props = Some e -> truthy e = false) ->
  ((forall k v, In (k, v) props ->
                exists r, reduceData_fuel conv fuel v options = Some (Ok r)) ->
   exists out, reduceData_fuel conv (S fuel) (VObj props) options = Some (Ok (VObj out))) /\
  (forall out,
      reduceData_fuel conv (S fuel) (VObj props) options = Some (Ok out) ->
      exists outp,
        out = VObj outp /\
        (forall k, In k (map fst outp) <-> In k (map fst props)) /\
        List.length outp = List.length props /\
        forall k v, In (k, v) props ->
                    exists r, reduceData_fuel conv fuel v options = Some (Ok r) /\
                              get_prop k outp = Some r) /\
  (forall e,
      reduceData_fuel conv (S fuel) (VObj props) options = Some (Throw e) ->
      exists k v, In (k, v) props /\
                  reduceData_fuel conv fuel v options = Some (Throw e)).
Proof.
  intros Hnd Hnp Hsc Hen.
  assert (reduceData_fuel conv (S fuel) (VObj props) options =
          lift VObj (reduce_props (fun v => reduceData_fuel conv fuel v options) props []))
    as Heq.
  { cbn [reduceData_fuel]. unfold reduceData_body.
    assert (scaffold_item keysToReduce (VObj props) = None) as ->
        by (apply scaffold_item_None; exact Hsc).
    assert (entries_container (VObj props) = None) as ->
        by (apply entries_container_None; exact Hen).
    apply reduce_object_props. exact Hnp. }
  rewrite Heq. split; [|split].
  - intro Hall.
    destruct (reduce_props_ok (fun v => reduceData_fuel conv fuel v options) props [] Hall)
      as [out ->].
    exists out. reflexivity.
  - intros out H. apply lift_Some in H. destruct H as [[outp|] [H Hr]]; [|discriminate].
    injection Hr as ->. exists outp. split; [reflexivity|]. split; [|split].
    + intro k. rewrite (reduce_props_keys _ _ _ _ H). simpl. tauto.
    + rewrite (reduce_props_length _ _ _ _ H); [reflexivity | exact Hnd].
    + intros k v Hin.
      exact (reduce_props_get (fun v => reduceData_fuel conv fuel v options)
                              _ _ _ k v H Hnd Hin).
  - intros e H. apply lift_Some in H. destruct H as [[outp|e'] [H Hr]]; [discriminate|].
    injection Hr as ->. eapply reduce_props_throw. exact H.
Qed.

Lemma reduceData_generic_mapping_witness :
  (NoDup (map fst [("value", VNum 1); ("other", VObj [("value", VNum 2)])]) /\
   ~ In "__proto__" (map fst [("value", VNum 1); ("other", VObj [("value", VNum 2)])]) /\
   (List.length [("value", VNum 1); ("other", VObj [("value", VNum 2)])] <> 1 \/
    forall name, In name keysToReduce ->
                 get_prop name [("value", VNum 1); ("other", VObj [("value", VNum 2)])] = None) /\
   (forall e, get_prop "entries" [("value", VNum 1); ("other", VObj [("value", VNum 2)])] = Some e ->
              truthy e = false)) /\
  exists outp,
    reduceData_fuel keyed_by_field 3
      (VObj [("value", VNum 1); ("other", VObj [("value", VNum 2)])]) no_options
    = Some (Ok (VObj outp)) /\
    List.length outp = 2.
Proof.
  assert (NoDup (map fst [("value", VNum 1); ("other", VObj [("value", VNum 2)])])) as H1.
  { apply distinct_NoDup. reflexivity. }
  assert (List.length [("value", VNum 1); ("other", VObj [("value", VNum 2)])] <> 1 \/
          forall name, In name keysToReduce ->
                 get_prop name [("value", VNum 1); ("other", VObj [("value", VNum 2)])] = None)
    as H2 by (left; simpl; lia).
  assert (forall e, get_prop "entries" [("value", VNum 1); ("other", VObj [("value", VNum 2)])] = Some e ->
              truthy e = false) as H3 by (intros e H; simpl in H; discriminate).
  assert (~ In "__proto__"
            (map fst [("value", VNum 1); ("other", VObj [("value", VNum 2)])])) as H0
      by (simpl; intros [H|[H|[]]]; discriminate).
  split; [auto|].
  destruct (reduceData_generic_mapping keyed_by_field no_options 2 _ H1 H0 H2 H3)
    as [_ [Hshape _]].
  destruct (Hshape (VObj [("value", VNum 1); ("other", VNum 2)]) eq_refl)
    as [outp [Hout [_ [Hlen _]]]].
  exists outp. split; [rewrite <- Hout; reflexivity | exact Hlen].
Defined.

(** C9 fails for a truthy [entries] that is not a mapping: the node is
    taken for an entries container and rebuilt from the own properties of
    that value (a number has none), so the other keys are lost.  It fails
    as well for a mapping with a key [__proto__], which the result does not
    have: the reduced value of that key has become its prototype. *)
Lemma truthy_entries_number_drops_keys :
  reduceData keyed_by_field (VObj [("entries", VNum 5); ("a", VNum 1)]) no_options
  = Some (Ok (VObj [])) /\
  reduceData keyed_by_field (VObj [("entries", VStr "ab"); ("a", VNum 1)]) no_options
  = Some (Ok (VObj [("0", VStr "a"); ("1", VStr "b")])) /\
  reduceData keyed_by_field
             (VObj [("__proto__", VObj [("a", VNum 1)]); ("b", VNum 2)]) no_options
  = Some (Ok (VProto (VObj [("a", VNum 1)]) [("b", VNum 2)])).
Proof. split; [|split]; reflexivity. Qed.

(** ** Idempotence *)

Lemma index_key_inj (i j : N) : index_key i = index_key j -> i = j.
Proof.
  unfold index_key. intro H.
  assert (Some (N.to_uint i) = Some (N.to_uint j)) as Hu
      by (rewrite <- !NilEmpty.usu, H; reflexivity).
  injection Hu as Hu.
  rewrite <- (DecimalN.Unsigned.of_to i), <- (DecimalN.Unsigned.of_to j), Hu.
  reflexivity.
Qed.

Lemma indexed_from_keys (i : N) (l : list value) (k : string) :
  In k (map fst (indexed_from i l)) -> exists j, (i <= j)%N /\ k = index_key j.
Proof.
  revert i. induction l as [|x l IH]; simpl; intros i; [tauto|].
  intros [H|H].
  - exists i. split; [lia | auto].
  - destruct (IH _ H) as [j [Hj ->]]. exists j. split; [lia | reflexivity].
Qed.

Lemma indexed_from_NoDup (i : N) (l : list value) : NoDup (map fst (indexed_from i l)).
Proof.
  revert i. induction l as [|x l IH]; intro i; simpl; constructor; [|apply IH].
  intro H. apply indexed_from_keys in H. destruct H as [j [Hj Heq]].
  apply index_key_inj in Heq. lia.
Qed.

Lemma keyed_by_index_wf : converter_wf keyed_by_index.
Proof.
  intros elems name prefix ret Hwf Hp H. unfold keyed_by_index in H.
  injection H as <-. rewrite forallb_forall in Hwf, Hp. split.
  - apply wf_value_obj. split; [apply indexed_from_NoDup|].
    intros k v Hin. apply indexed_from_In in Hin. destruct Hin as [_ Hin]. auto.
  - apply keys_all_obj. intros k v Hin. apply indexed_from_In in Hin.
    destruct Hin as [[j ->] Hin]. split; [|apply Hp; exact Hin].
    apply plain_key_spec. apply index_key_plain.
Qed.

(** C2 (as amended).  Reducing the result of a reduction gives that
    result again, for every payload in which no key is [__proto__] or is
    simplified to it: whenever [reduceData(x, options)] ends, [reduceData]
    applied to what it returned ends with the same value (and an exception
    of the first call is the outcome of the composition too).  [x] is any
    such payload with unique keys and [options] any options; the converter
    is only required to return such payloads. *)
Theorem reduceData_idempotent
        (conv : list value -> string -> option string -> result value)
        (options : ReduceOptions.t) (fuel : nat) (x : value) (res : result value) :
  converter_wf conv ->
  wf_value x = true ->
  plain x = true ->
  reduceData_fuel conv fuel x options = Some res ->
  match res with
  | Ok r => reduceData conv r options
  | Throw e => Some (Throw e)
  end = Some res.
Proof.
  intros Hconv Hwf Hp H. destruct res as [r|e]; [|reflexivity].
  unfold reduceData. apply reduced_fixed; [|lia].
  eapply reduceData_fuel_reduced; eauto.
Qed.

Lemma reduceData_idempotent_witness :
  (converter_wf keyed_by_index /\ wf_value tmm_payload = true /\
   plain tmm_payload = true /\
   reduceData_fuel keyed_by_index 8 tmm_payload no_options
   = Some (Ok (VObj [("sys/tmm-info/0.0/stats", VObj [("oneMinAverageSystem", VNum 5)])]))) /\
  reduceData keyed_by_index
             (VObj [("sys/tmm-info/0.0/stats", VObj [("oneMinAverageSystem", VNum 5)])])
             no_options
  = Some (Ok (VObj [("sys/tmm-info/0.0/stats", VObj [("oneMinAverageSystem", VNum 5)])])).
Proof.
  split; [split; [exact keyed_by_index_wf | repeat split; reflexivity]|].
  exact (reduceData_idempotent keyed_by_index no_options 8 tmm_payload _
                               keyed_by_index_wf eq_refl eq_refl eq_refl).
Defined.

(** C2 fails as stated, for a payload with a key [__proto__]: the first
    pass installs the reduced value of that key as the prototype of its
    result, which has the one key [b]; the second pass reads [value]
    through that prototype and takes the result for a scaffold wrapper. *)
Lemma reduceData_proto_not_idempotent :
  reduceData keyed_by_index
             (VObj [("__proto__", VObj [("value", VObj [("x", VNum 1)]); ("y", VNum 2)]);
                    ("b", VNum 2)])
             no_options
  = Some (Ok (VProto (VObj [("value", VObj [("x", VNum 1)]); ("y", VNum 2)])
                     [("b", VNum 2)])) /\
  reduceData keyed_by_index
             (VProto (VObj [("value", VObj [("x", VNum 1)]); ("y", VNum 2)])
                     [("b", VNum 2)])
             no_options
  = Some (Ok (VObj [("x", VNum 1)])) /\
  VObj [("x", VNum 1)]
  <> VProto (VObj [("value", VObj [("x", VNum 1)]); ("y", VNum 2)]) [("b", VNum 2)].
Proof. split; [reflexivity | split; [reflexivity | discriminate]]. Qed.

(** Without conversion the first call always ends, so idempotence is not
    vacuous there. *)
Lemma reduceData_total
      (conv : list value -> string -> option string -> result value)
      (options : ReduceOptions.t) (x : value) :
  catm_keyName options = None ->
  exists res, reduceData conv x options = Some res.
Proof. intro Hc. apply reduceData_fuel_total; [exact Hc | lia]. Qed.

(** * The custom-function stage *)

Lemma merge_args_reserved (todo : list (string * value)) (args : value) :
  In "data" (map fst todo) -> merge_args todo args = Throw reserved_argument.
Proof.
  revert args. induction todo as [|[k v] todo IH]; simpl; intros args Hin; [contradiction|].
  eqb_case k "data"; [reflexivity|].
  apply IH. destruct Hin as [H|H]; [congruence | exact H].
Qed.

Lemma runCustomFunction_reserved
      (registry : string -> option (arguments -> result resolved))
      (data : resolved) (func : string) (a : list (string * value)) :
  In "data" (map fst a) ->
  runCustomFunction registry data
    {| CustomFunctionOptions.func := func; CustomFunctionOptions.args := Some (VObj a) |}
  = (Throw reserved_argument, []).
Proof.
  intro Hin. unfold runCustomFunction. cbn [CustomFunctionOptions.args truthy typeof_object andb own_props].
  rewrite merge_args_reserved by exact Hin. reflexivity.
Qed.

(** C8.  When [options.runCustomFunction.args] is a mapping with a key
    [data], [normalizeData] ends by an exception and no registered
    function has been called: the custom-function stage throws
    "Named argument (data) is not allowed" before the call, and an
    exception of an earlier stage ends the call even sooner.  No value is
    returned. *)
Theorem normalizeData_rejects_reserved_data
        (conv : list value -> string -> option string -> result value)
        (sep : string) (builtins : builtin -> string -> bool) (regex : Type)
        (string_match : string -> regex -> option (list (option string)))
        (registry : string -> option (arguments -> result resolved))
        (fuel : nat) (data : value) (options : Options.t regex)
        (rcf : Options.custom) (a : list (string * value)) :
  Options.runCustomFunction options = Some rcf ->
  Options.args rcf = Some (VObj a) ->
  In "data" (map fst a) ->
  (forall reduced,
      runCustomFunction registry reduced
        {| CustomFunctionOptions.func := Options.name rcf;
           CustomFunctionOptions.args := Options.args rcf |}
      = (Throw reserved_argument, [])) /\
  (forall reduced,
      exists e, normalize_stages sep builtins regex string_match registry reduced options
                = (Throw e, [])) /\
  (forall res,
      normalizeData_fuel conv sep builtins regex string_match registry fuel data options = Some res ->
      exists e, res = (Throw e, [])) /\
  (Options.convertArrayToMap options = None ->
   exists e, normalizeData conv sep builtins regex string_match registry data options
             = Some (Throw e, [])).
Proof.
  intros Hrcf Hargs Hin.
  assert (forall reduced,
      runCustomFunction registry reduced
        {| CustomFunctionOptions.func := Options.name rcf;
           CustomFunctionOptions.args := Options.args rcf |}
      = (Throw reserved_argument, [])) as Hrun.
  { intro reduced. rewrite Hargs. apply runCustomFunction_reserved. exact Hin. }
  assert (forall reduced,
      exists e, normalize_stages sep builtins regex string_match registry reduced options
                = (Throw e, [])) as Hstages.
  { intro reduced. unfold normalize_stages. rewrite Hrcf.
    match goal with |- context [match ?s with Ok _ => _ | Throw _ => _ end] =>
      destruct s as [ret|e] end.
    - rewrite Hrun. eauto.
    - eauto. }
  assert (forall f res,
      normalizeData_fuel conv sep builtins regex string_match registry f data options = Some res ->
      exists e, res = (Throw e, [])) as Hfuel.
  { intros f res. unfold normalizeData_fuel.
    destruct (reduceData_fuel conv f data _) as [[ret|e]|]; [| |discriminate].
    - intro H. injection H as <-. apply Hstages.
    - intro H. injection H as <-. eauto. }
  split; [exact Hrun|]. split; [exact Hstages|]. split; [apply Hfuel|].
  intro Hc. unfold normalizeData.
  destruct (reduceData_fuel_total conv
              {| ReduceOptions.convertArrayToMap := Options.convertArrayToMap options |}
              ltac:(unfold catm_keyName; cbn; rewrite Hc; reflexivity)
              (S (nesting data)) data ltac:(lia)) as [r Hr].
  destruct (normalizeData_fuel conv sep builtins regex string_match registry (S (nesting data)) data options)
    as [res|] eqn:Hn.
  - destruct (Hfuel _ _ Hn) as [e ->]. eauto.
  - unfold normalizeData_fuel in Hn. rewrite Hr in Hn. destruct r; discriminate.
Qed.

Lemma normalizeData_rejects_reserved_data_witness :
  (Options.runCustomFunction reserved_data_options = Some echo_with_data /\
   Options.args echo_with_data = Some (VObj [("data", VNum 1)]) /\
   In "data" (map fst [("data", VNum 1)])) /\
  normalizeData keyed_by_field "::" es5_builtins string literal_match echo_registry
                foo_payload reserved_data_options
  = Some (Throw reserved_argument, []).
Proof.
  assert (In "data" (map fst [("data", VNum 1)])) as Hin by (simpl; auto).
  split; [auto|].
  destruct (normalizeData_rejects_reserved_data
              keyed_by_field "::" es5_builtins string literal_match echo_registry
              (S (nesting foo_payload)) foo_payload reserved_data_options echo_with_data
              [("data", VNum 1)] eq_refl eq_refl Hin) as [_ [_ [_ Hres]]].
  destruct (Hres eq_refl) as [e He].
  rewrite He. vm_compute in He. injection He as <-. reflexivity.
Defined.

(** * The key renamer *)

Section RenameFacts.

Variable regex : Type.
Variable string_match : string -> regex -> option (list (option string)).
Variable patterns : list (string * rename_pattern regex).

Lemma rename_all_cons (k : string) (v : value) (todo ret : list (string * value)) :
  rename_all regex string_match patterns ((k, v) :: todo) ret =
  v' <- renameKeysInData regex string_match v patterns ;;
  rename_all regex string_match patterns todo
             (set_prop (target_key regex string_match patterns k) v' ret).
Proof. reflexivity. Qed.

Lemma rename_all_NoDup (todo ret out : list (string * value)) :
  rename_all regex string_match patterns todo ret = Ok out ->
  NoDup (map fst ret) -> NoDup (map fst out).
Proof.
  revert ret. induction todo as [|[k v] todo IH]; intros ret H Hnd.
  - injection H as <-. exact Hnd.
  - rewrite rename_all_cons in H.
    destruct (renameKeysInData regex string_match v patterns) as [r|]; simpl in H;
      [|discriminate].
    eapply IH; [exact H|]. apply set_prop_NoDup. exact Hnd.
Qed.

Lemma rename_all_get_other (todo ret out : list (string * value)) (K : string) :
  rename_all regex string_match patterns todo ret = Ok out ->
  (forall k, In k (map fst todo) -> target_key regex string_match patterns k <> K) ->
  get_prop K out = get_prop K ret.
Proof.
  revert ret. induction todo as [|[k v] todo IH]; intros ret H Hne.
  - injection H as <-. reflexivity.
  - rewrite rename_all_cons in H.
    destruct (renameKeysInData regex string_match v patterns) as [r|]; simpl in H;
      [|discriminate].
    rewrite (IH _ H) by (intros; apply Hne; simpl; auto).
    apply get_prop_set_prop_ne. apply Hne. simpl. auto.
Qed.

Lemma set_prop_length_le (k : string) (v : value) (l : list (string * value)) :
  List.length (set_prop k v l) <= S (List.length l).
Proof.
  destruct (has_prop k l) eqn:Hh.
  - unfold set_prop. rewrite Hh.
    rewrite <- (length_map fst), replace_prop_keys, length_map. lia.
  - rewrite set_prop_length_new by (apply has_prop_false; exact Hh). lia.
Qed.

Lemma rename_all_length (todo ret out : list (string * value)) :
  rename_all regex string_match patterns todo ret = Ok out ->
  List.length out <= List.length ret + List.length todo.
Proof.
  revert ret. induction todo as [|[k v] todo IH]; intros ret H.
  - injection H as <-. simpl. lia.
  - rewrite rename_all_cons in H.
    destruct (renameKeysInData regex string_match v patterns) as [r|]; simpl in H;
      [|discriminate].
    apply IH in H.
    assert (Hl := set_prop_length_le (target_key regex string_match patterns k) r ret).
    simpl. lia.
Qed.

Lemma rename_all_app (l1 l2 ret out : list (string * value)) :
  rename_all regex string_match patterns (l1 ++ l2) ret = Ok out ->
  exists mid, rename_all regex string_match patterns l1 ret = Ok mid /\
              rename_all regex string_match patterns l2 mid = Ok out.
Proof.
  revert ret. induction l1 as [|[k v] l1 IH]; intros ret H.
  - exists ret. auto.
  - simpl app in H. rewrite rename_all_cons in H |- *.
    destruct (renameKeysInData regex string_match v patterns) as [r|]; simpl in H |- *;
      [|discriminate].
    apply IH. exact H.
Qed.

Lemma rename_all_keeps (todo ret out : list (string * value)) (K : string) :
  rename_all regex string_match patterns todo ret = Ok out ->
  In K (map fst ret) -> In K (map fst out).
Proof.
  revert ret. induction todo as [|[k v] todo IH]; intros ret H HK.
  - injection H as <-. exact HK.
  - rewrite rename_all_cons in H.
    destruct (renameKeysInData regex string_match v patterns) as [r|]; simpl in H;
      [|discriminate].
    eapply IH; [exact H|]. apply set_prop_keys_In. auto.
Qed.

Lemma rename_all_has (todo ret out : list (string * value)) (k : string) :
  rename_all regex string_match patterns todo ret = Ok out ->
  In k (map fst todo) ->
  In (target_key regex string_match patterns k) (map fst out).
Proof.
  revert ret. induction todo as [|[k0 v] todo IH]; intros ret H Hin; [contradiction|].
  rewrite rename_all_cons in H.
  destruct (renameKeysInData regex string_match v patterns) as [r|]; simpl in H;
    [|discriminate].
  simpl in Hin. destruct Hin as [->|Hin].
  - eapply rename_all_keeps; [exact H|]. apply set_prop_keys_In. auto.
  - eapply IH; eauto.
Qed.

(** The loop of the code and the loop on own properties. *)
Lemma rename_object_props (todo ret : list (string * value)) :
  (forall k, In k (map fst todo) ->
             target_key regex string_match patterns k <> "__proto__") ->
  rename_object regex string_match
                (fun v => renameKeysInData regex string_match v patterns)
                patterns todo (VObj ret)
  = (out <- rename_all regex string_match patterns todo ret ;; Ok (VObj out)).
Proof.
  revert ret. induction todo as [|[k v] todo IH]; intros ret H; [reflexivity|].
  rewrite rename_all_cons. cbn [rename_object].
  destruct (renameKeysInData regex string_match v patterns) as [r|]; simpl;
    [|reflexivity].
  rewrite assign_own by (apply H; left; reflexivity).
  apply IH. intros k' Hk'. apply H. right. exact Hk'.
Qed.

Lemma renameKeysInData_props (props : list (string * value)) :
  (forall k, In k (map fst props) ->
             target_key regex string_match patterns k <> "__proto__") ->
  renameKeysInData regex string_match (VObj props) patterns
  = (out <- rename_all regex string_match patterns props [] ;; Ok (VObj out)).
Proof. intro H. cbn [renameKeysInData]. apply rename_object_props. exact H. Qed.

(** Without null, the renamer ends with a value. *)
Lemma renameKeysInData_returns (data : value) :
  null_free data = true ->
  exists out, renameKeysInData regex string_match data patterns = Ok out.
Proof.
  assert (forall self todo ret,
             (forall k v, In (k, v) todo -> exists r, self v = Ok r) ->
             exists out, rename_object regex string_match self patterns todo ret = Ok out)
    as Hloop.
  { intros self. induction todo as [|[k v] todo IHt]; intros ret H; [eexists; reflexivity|].
    cbn [rename_object]. destruct (H k v (or_introl eq_refl)) as [r ->]. simpl.
    apply IHt. intros k' v' Hin. apply (H k' v'). right. exact Hin. }
  induction data as [| | | |elems _|props IH|proto props _ IH] using value_deep_ind;
    intro Hn; try discriminate; try (eexists; reflexivity).
  - cbn [renameKeysInData]. apply Hloop. intros k v Hin.
    rewrite Forall_forall in IH. apply (IH (k, v) Hin).
    cbn [null_free] in Hn. rewrite forallb_forall in Hn. apply (Hn (k, v) Hin).
  - cbn [renameKeysInData]. apply Hloop. intros k v Hin.
    rewrite Forall_forall in IH. apply (IH (k, v) Hin).
    cbn [null_free] in Hn. apply andb_true_iff in Hn. destruct Hn as [_ Hn].
    rewrite forallb_forall in Hn. apply (Hn (k, v) Hin).
Qed.

(** C10 (as amended).  When two distinct keys of a mapping get the same
    new key [K], the result has one entry under [K]; it holds the renamed
    subtree of the key enumerated last among those stored under [K], and
    the entry written earlier is overwritten, so the result has fewer
    entries than the mapping had.  This holds when no new key is
    [__proto__] (an assignment to that key stores no entry) and when the
    renaming ends with a value, which it does when the mapping holds no
    null. *)
Theorem renameKeysInData_collision
        (props l1 l2 l3 : list (string * value))
        (k1 k2 K : string) (v1 v2 : value) :
  NoDup (map fst props) ->
  props = l1 ++ (k1, v1) :: l2 ++ (k2, v2) :: l3 ->
  renamedKey regex string_match patterns k1 = Some K ->
  renamedKey regex string_match patterns k2 = Some K ->
  (forall k, In k (map fst l3) -> target_key regex string_match patterns k <> K) ->
  (forall k, In k (map fst props) ->
             target_key regex string_match patterns k <> "__proto__") ->
  (null_free (VObj props) = true ->
   exists out, renameKeysInData regex string_match (VObj props) patterns = Ok out) /\
  forall out,
    renameKeysInData regex string_match (VObj props) patterns = Ok out ->
    exists outp r2,
      out = VObj outp /\
      renameKeysInData regex string_match v2 patterns = Ok r2 /\
      get_prop K outp = Some r2 /\
      (forall r, In (K, r) outp -> r = r2) /\
      NoDup (map fst outp) /\
      List.length outp < List.length props.
Proof.
  intros Hnd -> Hk1 Hk2 Hl3 Hproto.
  split; [apply renameKeysInData_returns|]. intros out H.
  assert (target_key regex string_match patterns k1 = K) as Ht1
      by (unfold target_key; rewrite Hk1; reflexivity).
  assert (target_key regex string_match patterns k2 = K) as Ht2
      by (unfold target_key; rewrite Hk2; reflexivity).
  rewrite renameKeysInData_props in H by exact Hproto.
  destruct (rename_all regex string_match patterns
              (l1 ++ (k1, v1) :: l2 ++ (k2, v2) :: l3) []) as [outp|] eqn:Hloop;
    simpl in H; [|discriminate].
  injection H as <-.
  change (l1 ++ (k1, v1) :: l2 ++ (k2, v2) :: l3)
    with (l1 ++ ((k1, v1) :: l2) ++ (k2, v2) :: l3) in Hloop.
  rewrite app_assoc in Hloop.
  apply rename_all_app in Hloop. destruct Hloop as [mid [Hmid Hrest]].
  assert (In K (map fst mid)) as HK.
  { rewrite <- Ht1. eapply rename_all_has; [exact Hmid|].
    rewrite map_app, in_app_iff. right. simpl. auto. }
  assert (Hlen := rename_all_length _ _ _ Hmid).
  rewrite rename_all_cons in Hrest.
  destruct (renameKeysInData regex string_match v2 patterns) as [r2|] eqn:Hr2;
    simpl in Hrest; [|discriminate].
  rewrite Ht2 in Hrest.
  assert (Hlen3 := rename_all_length _ _ _ Hrest).
  assert (List.length (set_prop K r2 mid) = List.length mid) as Hsame.
  { unfold set_prop. apply has_prop_true in HK. rewrite HK.
    rewrite <- (length_map fst), replace_prop_keys, length_map. reflexivity. }
  assert (NoDup (map fst outp)) as Hout.
  { eapply rename_all_NoDup; [exact Hrest|]. apply set_prop_NoDup.
    eapply rename_all_NoDup; [exact Hmid | constructor]. }
  assert (get_prop K outp = Some r2) as Hget.
  { rewrite (rename_all_get_other _ _ _ K Hrest) by exact Hl3.
    apply get_prop_set_prop_eq. }
  exists outp, r2. split; [reflexivity|]. split; [reflexivity|]. split; [exact Hget|].
  split; [|split; [exact Hout|]].
  - intros r Hin. apply (In_get_prop _ _ _ Hout) in Hin. congruence.
  - rewrite Hsame in Hlen3. rewrite !length_app in *. simpl in *.
    rewrite !length_app in *. simpl in *. lia.
Qed.

(** C4 (as amended).  A sequence is returned by the renamer as it is:
    its elements are not visited, so a mapping inside a sequence keeps its
    keys; length and order are those of the input.  Scalars other than
    null are returned unchanged as well. *)
Theorem renameKeysInData_sequence_untouched (elems : list value) :
  renameKeysInData regex string_match (VArr elems) patterns = Ok (VArr elems) /\
  forall b n s,
    renameKeysInData regex string_match (VBool b) patterns = Ok (VBool b) /\
    renameKeysInData regex string_match (VNum n) patterns = Ok (VNum n) /\
    renameKeysInData regex string_match (VStr s) patterns = Ok (VStr s).
Proof. split; [reflexivity | intros; repeat split]. Qed.

End RenameFacts.

Lemma renameKeysInData_collision_witness :
  (NoDup (map fst [("tmm_0", VNum 1); ("tmm_1", VNum 2)]) /\
   renamedKey string literal_match tmm_patterns "tmm_0" = Some "tmm" /\
   renamedKey string literal_match tmm_patterns "tmm_1" = Some "tmm" /\
   (forall k, In k (map fst [("tmm_0", VNum 1); ("tmm_1", VNum 2)]) ->
              target_key string literal_match tmm_patterns k <> "__proto__") /\
   renameKeysInData string literal_match
     (VObj [("tmm_0", VNum 1); ("tmm_1", VNum 2)]) tmm_patterns
   = Ok (VObj [("tmm", VNum 2)])) /\
  exists outp,
    VObj [("tmm", VNum 2)] = VObj outp /\
    get_prop "tmm" outp = Some (VNum 2) /\
    List.length outp < 2.
Proof.
  assert (NoDup (map fst [("tmm_0", VNum 1); ("tmm_1", VNum 2)])) as Hnd
      by (apply distinct_NoDup; reflexivity).
  assert (forall k, In k (map fst [("tmm_0", VNum 1); ("tmm_1", VNum 2)]) ->
                    target_key string literal_match tmm_patterns k <> "__proto__") as Hp
      by (intros k [<-|[<-|[]]]; vm_compute; discriminate).
  split; [repeat split; auto|].
  destruct (renameKeysInData_collision string literal_match tmm_patterns
              [("tmm_0", VNum 1); ("tmm_1", VNum 2)] [] [] []
              "tmm_0" "tmm_1" "tmm" (VNum 1) (VNum 2)
              Hnd eq_refl eq_refl eq_refl
              (fun k (H : In k []) => match H with end) Hp)
    as [_ Hshape].
  destruct (Hshape (VObj [("tmm", VNum 2)]) eq_refl)
    as [outp [r2 [Hout [Hr2 [Hget [_ [_ Hlen]]]]]]].
  exists outp. injection Hr2 as <-. auto.
Defined.

(** C10 fails when the new key is [__proto__]: the two assignments run the
    accessor of [Object.prototype] instead of storing an entry, so the
    result has no entry under that key.  With numbers as values it is the
    empty mapping; with a mapping as the last value it is an empty mapping
    that has this value as its prototype.  It fails as well for a mapping
    with a null in it, on which the renamer throws. *)
Lemma renameKeysInData_proto_collision :
  renamedKey string literal_match [("__proto__", Bare "__proto__")] "a__proto__x"
  = Some "__proto__" /\
  renamedKey string literal_match [("__proto__", Bare "__proto__")] "b__proto__y"
  = Some "__proto__" /\
  renameKeysInData string literal_match
    (VObj [("a__proto__x", VNum 1); ("b__proto__y", VNum 2)])
    [("__proto__", Bare "__proto__")]
  = Ok (VObj []) /\
  renameKeysInData string literal_match
    (VObj [("a__proto__x", VNum 1); ("b__proto__y", VObj [("c", VNum 2)])])
    [("__proto__", Bare "__proto__")]
  = Ok (VProto (VObj [("c", VNum 2)]) []) /\
  renameKeysInData string literal_match
    (VObj [("tmm_0", VNum 1); ("tmm_1", VNull)]) tmm_patterns
  = Throw TypeError.
Proof. repeat split. Qed.

(** C4 fails as stated: the elements of a sequence are not renamed.  The
    mapping [{"tmm_0": 5}] is renamed to [{"tmm": 5}] on its own, and is
    left as it is inside a sequence. *)
Lemma renameKeysInData_sequence_not_recursed :
  renameKeysInData string literal_match (VObj [("tmm_0", VNum 5)]) tmm_patterns
  = Ok (VObj [("tmm", VNum 5)]) /\
  renameKeysInData string literal_match (VArr [VObj [("tmm_0", VNum 5)]]) tmm_patterns
  = Ok (VArr [VObj [("tmm_0", VNum 5)]]) /\
  renameKeysInData string literal_match (VArr [VObj [("tmm_0", VNum 5)]]) tmm_patterns
  <> Ok (VArr [VObj [("tmm", VNum 5)]]).
Proof. split; [reflexivity|]. split; [reflexivity | discriminate]. Qed.

(** * The key filter *)

Lemma starts_with_spec (pat s : string) :
  JsString.starts_with pat s = true <-> exists rest, s = (pat ++ rest)%string.
Proof.
  revert s. induction pat as [|a pat IH]; intro s; simpl.
  - split; [intros _; exists s; reflexivity | reflexivity].
  - destruct s as [|b s].
    + split; [discriminate | intros [rest H]; discriminate].
    + rewrite andb_true_iff, Ascii.eqb_eq, IH. split.
      * intros [-> [rest ->]]. exists rest. reflexivity.
      * intros [rest H]. injection H as -> ->. split; [reflexivity | exists rest; reflexivity].
Qed.

(** [includes] is the substring test: case-sensitive, at any position. *)
Lemma includes_spec (needle s : string) :
  JsString.includes needle s = true <->
  exists before after, s = (before ++ needle ++ after)%string.
Proof.
  induction s as [|c s IH].
  - simpl. destruct (JsString.starts_with needle "") eqn:E.
    + apply starts_with_spec in E. destruct E as [rest E].
      split; [intros _; exists ""%string, rest; exact E | reflexivity].
    + split; [discriminate|]. intros [before [after H]].
      destruct before; [|discriminate]. simpl in H.
      assert (JsString.starts_with needle "" = true) as E'
          by (apply starts_with_spec; exists after; exact H).
      congruence.
  - cbn [JsString.includes]. destruct (JsString.starts_with needle (String c s)) eqn:E.
    + apply starts_with_spec in E. destruct E as [rest E].
      split; [intros _; exists ""%string, rest; exact E | reflexivity].
    + rewrite IH. split.
      * intros [before [after ->]]. exists (String c before), after. reflexivity.
      * intros [before [after H]]. destruct before as [|b before].
        -- simpl in H.
           assert (JsString.starts_with needle (String c s) = true) as E'
               by (apply starts_with_spec; exists after; exact H).
           congruence.
        -- injection H as _ ->. exists before, after. reflexivity.
Qed.

Lemma deleteKey_existsb (keys : list string) (k : string) :
  deleteKey keys k = negb (existsb (fun i => JsString.includes i k) keys).
Proof.
  unfold deleteKey.
  assert (forall b, fold_left (fun del i => if JsString.includes i k then false else del) keys b
                    = b && negb (existsb (fun i => JsString.includes i k) keys)) as Hgen.
  { induction keys as [|i keys IH]; intro b; simpl.
    - rewrite andb_true_r. reflexivity.
    - rewrite IH. destruct (JsString.includes i k); simpl.
      + rewrite andb_false_r. reflexivity.
      + reflexivity. }
  apply Hgen.
Qed.

(** A key is dropped exactly when no entry of [keys] is a substring of
    it. *)
Lemma deleteKey_spec (keys : list string) (k : string) :
  deleteKey keys k = true <->
  forall i, In i keys ->
            ~ exists before after, k = (before ++ i ++ after)%string.
Proof.
  rewrite deleteKey_existsb, negb_true_iff. split.
  - intros H i Hi Hsub. apply includes_spec in Hsub.
    assert (existsb (fun i => JsString.includes i k) keys = true) as Hex
        by (apply existsb_exists; exists i; auto).
    congruence.
  - intro H. destruct (existsb (fun i => JsString.includes i k) keys) eqn:Hex; [|reflexivity].
    apply existsb_exists in Hex. destruct Hex as [i [Hi Hinc]].
    apply includes_spec in Hinc. exfalso. exact (H i Hi Hinc).
Qed.

Lemma delete_prop_first (k : string) (v : value) (done rest : list (string * value)) :
  ~ In k (map fst done) ->
  delete_prop k (done ++ (k, v) :: rest) = done ++ rest.
Proof.
  induction done as [|[k0 v0] done IH]; simpl; intro Hnin.
  - rewrite String.eqb_refl. reflexivity.
  - eqb_case k k0; [exfalso; apply Hnin; auto|]. rewrite IH by tauto. reflexivity.
Qed.

Lemma set_prop_first (k : string) (v v' : value) (done rest : list (string * value)) :
  ~ In k (map fst done) ->
  set_prop k v' (done ++ (k, v) :: rest) = done ++ (k, v') :: rest.
Proof.
  intro Hnin. unfold set_prop.
  assert (has_prop k (done ++ (k, v) :: rest) = true) as ->.
  { apply has_prop_true. rewrite map_app, in_app_iff. right. left. reflexivity. }
  induction done as [|[k0 v0] done IH]; simpl.
  - rewrite String.eqb_refl. reflexivity.
  - simpl in Hnin. eqb_case k k0; [exfalso; apply Hnin; auto|].
    rewrite IH by tauto. reflexivity.
Qed.

Lemma filter_props_spec (self : value -> result value) (keys : list string)
      (todo done out : list (string * value)) :
  NoDup (map fst (done ++ todo)) ->
  filter_props self keys todo (done ++ todo) = Ok out ->
  exists kept,
    out = done ++ kept /\
    map fst kept = filter (fun k => negb (deleteKey keys k)) (map fst todo) /\
    forall k v', In (k, v') kept -> exists v, In (k, v) todo /\ self v = Ok v'.
Proof.
  revert done. induction todo as [|[k v] todo IH]; intros done Hnd H.
  - simpl in H. injection H as <-. exists []. split; [reflexivity|]. split; [reflexivity|].
    intros k v' [].
  - assert (~ In k (map fst done)) as Hnin.
    { rewrite map_app in Hnd. simpl in Hnd. apply NoDup_remove_2 in Hnd.
      intro Hin. apply Hnd. apply in_app_iff. auto. }
    cbn [filter_props] in H. cbn [map filter fst].
    destruct (deleteKey keys k) eqn:Hdel; cbn [negb].
    + rewrite delete_prop_first in H by exact Hnin.
      destruct (IH done) as [kept [Hout [Hkeys Hvals]]]; [|exact H|].
      { rewrite map_app in Hnd |- *. simpl in Hnd. apply NoDup_remove_1 in Hnd. exact Hnd. }
      exists kept. split; [exact Hout|]. split; [exact Hkeys|].
      intros k0 v' Hin. destruct (Hvals k0 v' Hin) as [v0 [H1 H2]]. exists v0. simpl. auto.
    + destruct (self v) as [v'|] eqn:Hself; simpl in H; [|discriminate].
      rewrite set_prop_first in H by exact Hnin.
      change (done ++ (k, v') :: todo) with (done ++ [(k, v')] ++ todo) in H.
      rewrite app_assoc in H.
      destruct (IH (done ++ [(k, v')])) as [kept [Hout [Hkeys Hvals]]]; [|exact H|].
      { rewrite <- app_assoc. simpl. rewrite map_app in Hnd |- *. exact Hnd. }
      exists ((k, v') :: kept). split; [rewrite Hout, <- app_assoc; reflexivity|].
      split; [simpl; rewrite Hkeys; reflexivity|].
      intros k0 v0' [Heq|Hin].
      * injection Heq as <- <-. exists v. simpl. auto.
      * destruct (Hvals k0 v0' Hin) as [v0 [H1 H2]]. exists v0. simpl. auto.
Qed.

Lemma filter_props_total (self : value -> result value) (keys : list string)
      (todo ret : list (string * value)) :
  (forall k v, In (k, v) todo -> exists v', self v = Ok v') ->
  exists out, filter_props self keys todo ret = Ok out.
Proof.
  revert ret. induction todo as [|[k v] todo IH]; simpl; intros ret H; [eauto|].
  destruct (deleteKey keys k).
  - apply IH. intros; eapply H; eauto.
  - destruct (H k v (or_introl eq_refl)) as [v' ->]. simpl.
    apply IH. intros; eapply H; eauto.
Qed.

Lemma filterDataByKeys_total (keys : list string) (data : value) :
  null_free data = true -> exists out, filterDataByKeys data keys = Ok out.
Proof.
  induction data as [| b | n | s | l IH | props IH | proto props _ IH]
    using value_deep_ind; intro Hn;
    try discriminate; try (eexists; reflexivity).
  - cbn [filterDataByKeys].
    destruct (filter_props_total (fun v => filterDataByKeys v keys) keys props props)
      as [out ->]; [|simpl; eauto].
    intros k v Hin. rewrite Forall_forall in IH. apply (IH (k, v) Hin).
    cbn [null_free] in Hn. rewrite forallb_forall in Hn. apply (Hn (k, v) Hin).
  - cbn [filterDataByKeys].
    destruct (filter_props_total (fun v => filterDataByKeys v keys) keys props props)
      as [out ->]; [|simpl; eauto].
    intros k v Hin. rewrite Forall_forall in IH. apply (IH (k, v) Hin).
    cbn [null_free] in Hn. apply andb_true_iff in Hn. destruct Hn as [_ Hn].
    rewrite forallb_forall in Hn. apply (Hn (k, v) Hin).
Qed.

(** C7 (as amended).  For a mapping with no null in it, filtering returns
    a mapping that keeps, in their order, exactly the keys of which some
    entry of [keys] is a substring (case-sensitive, at any position), each
    with its filtered subtree; when a mapping is returned at all, it has
    that shape.  Sequences are returned as they are, and so are the scalars
    other than null.  In particular
    [filter({"cpuUtil":1,"memUtil":2,"other":3}, ["Util"])] is
    [{"cpuUtil":1,"memUtil":2}]. *)
Theorem filterDataByKeys_keeps_matching
        (keys : list string) (props : list (string * value)) :
  NoDup (map fst props) ->
  (null_free (VObj props) = true ->
   exists outp, filterDataByKeys (VObj props) keys = Ok (VObj outp)) /\
  (forall out,
      filterDataByKeys (VObj props) keys = Ok out ->
      exists outp,
        out = VObj outp /\
        map fst outp = filter (fun k => negb (deleteKey keys k)) (map fst props) /\
        forall k v', In (k, v') outp ->
                     exists v, In (k, v) props /\ filterDataByKeys v keys = Ok v') /\
  (forall k, deleteKey keys k = true <->
             forall i, In i keys ->
                       ~ exists before after, k = (before ++ i ++ after)%string) /\
  (forall elems, filterDataByKeys (VArr elems) keys = Ok (VArr elems)) /\
  (forall s, is_scalar s = true -> s <> VNull -> filterDataByKeys s keys = Ok s) /\
  filterDataByKeys util_payload ["Util"]
  = Ok (VObj [("cpuUtil", VNum 1); ("memUtil", VNum 2)]).
Proof.
  intro Hnd.
  assert (forall out,
      filterDataByKeys (VObj props) keys = Ok out ->
      exists outp,
        out = VObj outp /\
        map fst outp = filter (fun k => negb (deleteKey keys k)) (map fst props) /\
        forall k v', In (k, v') outp ->
                     exists v, In (k, v) props /\ filterDataByKeys v keys = Ok v') as Hshape.
  { intros out H. cbn [filterDataByKeys] in H.
    destruct (filter_props (fun v => filterDataByKeys v keys) keys props props)
      as [outp|] eqn:Hloop; simpl in H; [|discriminate].
    injection H as <-.
    destruct (filter_props_spec (fun v => filterDataByKeys v keys) keys props [] outp Hnd Hloop)
      as [kept [-> [Hkeys Hvals]]].
    exists kept. auto. }
  split; [|split; [exact Hshape|split; [|split; [|split]]]].
  - intro Hn. destruct (filterDataByKeys_total keys (VObj props) Hn) as [out Hout].
    destruct (Hshape out Hout) as [outp [-> _]]. exists outp. exact Hout.
  - intro k. apply deleteKey_spec.
  - reflexivity.
  - intros s Hs Hne. destruct s; try discriminate; try reflexivity. congruence.
  - reflexivity.
Qed.

Lemma filterDataByKeys_keeps_matching_witness :
  NoDup (map fst [("cpuUtil", VNum 1); ("memUtil", VNum 2); ("other", VNum 3)]) /\
  exists outp,
    filterDataByKeys util_payload ["Util"] = Ok (VObj outp) /\
    map fst outp = ["cpuUtil"; "memUtil"].
Proof.
  assert (NoDup (map fst [("cpuUtil", VNum 1); ("memUtil", VNum 2); ("other", VNum 3)]))
    as Hnd by (apply distinct_NoDup; reflexivity).
  split; [exact Hnd|].
  destruct (filterDataByKeys_keeps_matching ["Util"] _ Hnd) as [_ [Hshape _]].
  destruct (Hshape _ eq_refl) as [outp [Hout [Hkeys _]]].
  exists outp. split; [rewrite <- Hout; reflexivity | exact Hkeys].
Defined.

(** C7 fails at null: a null scalar is not passed through but makes the
    filter throw ([Object.keys(null)]), at the top as well as under a key
    that is kept. *)
Lemma filterDataByKeys_null_raises :
  is_scalar VNull = true /\
  filterDataByKeys VNull ["Util"] = Throw TypeError /\
  filterDataByKeys (VObj [("cpuUtil", VNull)]) ["Util"] = Throw TypeError.
Proof. repeat split. Qed.

(** * The key-path resolver *)

Lemma string_app_assoc (a b c : string) :
  ((a ++ b) ++ c)%string = (a ++ (b ++ c))%string.
Proof. induction a as [|x a IH]; simpl; [reflexivity | rewrite IH; reflexivity]. Qed.

Lemma string_app_nil_r (a : string) : (a ++ "")%string = a.
Proof. induction a as [|x a IH]; simpl; [reflexivity | rewrite IH; reflexivity]. Qed.

Lemma split_from_absent (sep cur s : string) :
  JsString.includes sep s = false ->
  JsString.split_from sep 0 cur s = [(cur ++ s)%string].
Proof.
  revert cur. induction s as [|c s IH]; intros cur H.
  - simpl. rewrite string_app_nil_r. reflexivity.
  - cbn [JsString.includes] in H. cbn [JsString.split_from].
    destruct (JsString.starts_with sep (String c s)); [discriminate|].
    rewrite IH by exact H. rewrite string_app_assoc. reflexivity.
Qed.

Lemma split_from_skip (sep cur passed s : string) :
  JsString.split_from sep (String.length passed) cur (passed ++ s)
  = JsString.split_from sep 0 cur s.
Proof.
  induction passed as [|c passed IH]; [reflexivity|].
  simpl. exact IH.
Qed.

Lemma starts_with_first (c : ascii) (sep' s : string) :
  JsString.starts_with (String c sep') s = true ->
  JsString.starts_with (String c "") s = true.
Proof.
  destruct s as [|b s]; simpl; [discriminate|].
  rewrite andb_true_iff. intros [H _]. rewrite H. reflexivity.
Qed.

Lemma starts_with_app (pat rest : string) :
  JsString.starts_with pat (pat ++ rest) = true.
Proof. apply starts_with_spec. exists rest. reflexivity. Qed.

Lemma split_from_first_segment (c : ascii) (sep' cur k1 rest : string) :
  JsString.includes (String c "") k1 = false ->
  JsString.split_from (String c sep') 0 cur (k1 ++ String c sep' ++ rest)
  = (cur ++ k1)%string :: JsString.split_from (String c sep') 0 "" rest.
Proof.
  revert cur. induction k1 as [|a k1 IH]; intros cur H.
  - rewrite string_app_nil_r.
    change ("" ++ String c sep' ++ rest)%string with (String c (sep' ++ rest)).
    cbn [JsString.split_from].
    change (String c (sep' ++ rest)) with (String c sep' ++ rest)%string.
    rewrite starts_with_app. cbn [String.length Nat.sub].
    rewrite Nat.sub_0_r. rewrite split_from_skip. reflexivity.
  - cbn [JsString.includes] in H.
    destruct (JsString.starts_with (String c "") (String a k1)) eqn:Hc; [discriminate|].
    change (String a k1 ++ String c sep' ++ rest)%string
      with (String a (k1 ++ String c sep' ++ rest)).
    cbn [JsString.split_from].
    destruct (JsString.starts_with (String c sep') (String a (k1 ++ String c sep' ++ rest)))
      eqn:Hs.
    + apply starts_with_first in Hs. simpl in Hs, Hc.
      rewrite andb_true_r in Hs, Hc. congruence.
    + rewrite IH by exact H. rewrite string_app_assoc. reflexivity.
Qed.


Lemma get_member_null_free (v : value) (i : string) (x : value) :
  null_free v = true -> get_member v i = Some x -> null_free x = true.
Proof.
  induction v as [| | | |elems _|props _|proto props IHp _] using value_deep_ind;
    intros Hv Hm; cbn [get_member] in Hm; try discriminate.
  - destruct (String.eqb i "length"); [injection Hm as <-; reflexivity|].
    destruct (array_index i); [|discriminate].
    apply nth_error_In in Hm. apply in_map_iff in Hm. destruct Hm as [c [<- _]]. reflexivity.
  - destruct (String.eqb i "length"); [injection Hm as <-; reflexivity|].
    destruct (array_index i); [|discriminate].
    apply nth_error_In in Hm. cbn [null_free] in Hv. rewrite forallb_forall in Hv. auto.
  - apply get_prop_In in Hm. cbn [null_free] in Hv. rewrite forallb_forall in Hv.
    apply (Hv (i, x) Hm).
  - cbn [null_free] in Hv. apply andb_true_iff in Hv. destruct Hv as [Hp Hv].
    destruct (get_prop i props) as [y|] eqn:Hy.
    + injection Hm as <-. apply get_prop_In in Hy. rewrite forallb_forall in Hv.
      apply (Hv (i, y) Hy).
    + apply IHp; assumption.
Qed.

Section KeyPath.

Variable builtins : builtin -> string -> bool.

Lemma resolve_segments_throw (segments : list string) (e : error) :
  resolve_segments builtins segments (Throw e) = Throw e.
Proof. induction segments as [|i segments IH]; [reflexivity | exact IH]. Qed.


(** A name other than [__proto__] finds nothing but functions in the
    built-in prototypes. *)
Lemma Object_prototype_member_function (proto m : resolved) (i : string) :
  i <> "__proto__" ->
  Object_prototype_member builtins proto i = Some m -> resolved_null_free m = true.
Proof.
  intros Hi. unfold Object_prototype_member. apply String.eqb_neq in Hi. rewrite Hi.
  destruct (builtins Object_prototype i); [|discriminate].
  intro H. injection H as <-. reflexivity.
Qed.

Lemma Array_prototype_member_function (proto m : resolved) (i : string) :
  i <> "__proto__" ->
  Array_prototype_member builtins proto i = Some m -> resolved_null_free m = true.
Proof.
  intros Hi. unfold Array_prototype_member.
  destruct (builtins Array_prototype i).
  - intro H. injection H as <-. reflexivity.
  - apply Object_prototype_member_function. exact Hi.
Qed.

Lemma builtin_member_function (v : value) (proto m : resolved) (i : string) :
  i <> "__proto__" ->
  builtin_member builtins v proto i = Some m -> resolved_null_free m = true.
Proof.
  intro Hi.
  induction v as [| | | |elems _|props _|p props IHp _] using value_deep_ind;
    cbn [builtin_member]; try discriminate.
  - apply Array_prototype_member_function. exact Hi.
  - apply Object_prototype_member_function. exact Hi.
  - exact IHp.
Qed.

Lemma getDataByKey_step_null_free (ret : resolved) (i : string) :
  resolved_null_free ret = true -> i <> "__proto__" ->
  exists v, getDataByKey_step builtins ret i = Ok v /\ resolved_null_free v = true.
Proof.
  intros Hn Hi. destruct ret as [v|b].
  - cbn [getDataByKey_step resolved_null_free] in *.
    destruct (typeof_object v) eqn:Ht; [|exists (Data missing_key); auto].
    assert (match get_member v i with
            | Some x => Ok (Data x)
            | None => match builtin_member builtins v (prototype_of v) i with
                      | Some m => Ok m
                      | None => Ok (Data missing_key)
                      end
            end
            = getDataByKey_step builtins (Data v) i) as Heq.
    { cbn [getDataByKey_step]. rewrite Ht. destruct v; try reflexivity. discriminate. }
    cbn [getDataByKey_step] in Heq. rewrite Ht in Heq. rewrite <- Heq.
    destruct (get_member v i) as [x|] eqn:Hm.
    + exists (Data x). split; [reflexivity|]. eapply get_member_null_free; eauto.
    + destruct (builtin_member builtins v (prototype_of v) i) as [m|] eqn:Hb.
      * exists m. split; [reflexivity|]. eapply builtin_member_function; eauto.
      * exists (Data missing_key). auto.
  - destruct b; cbn [getDataByKey_step].
    + destruct (Object_prototype_member builtins (Data VNull) i) as [m|] eqn:Hb.
      * exists m. split; [reflexivity|]. eapply Object_prototype_member_function; eauto.
      * exists (Data missing_key). auto.
    + destruct (String.eqb i "length"); [eexists; split; reflexivity|].
      destruct (Array_prototype_member builtins (Builtin Object_prototype) i)
        as [m|] eqn:Hb.
      * exists m. split; [reflexivity|]. eapply Array_prototype_member_function; eauto.
      * exists (Data missing_key). auto.
    + exists (Data missing_key). auto.
    + exists (Data missing_key). auto.
Qed.

Lemma resolve_segments_null_free (segments : list string) (ret : resolved) :
  resolved_null_free ret = true -> ~ In "__proto__" segments ->
  exists v, resolve_segments builtins segments (Ok ret) = Ok v /\
            resolved_null_free v = true.
Proof.
  revert ret. induction segments as [|i segments IH]; intros ret Hn Hs.
  - exists ret. auto.
  - destruct (getDataByKey_step_null_free ret i Hn) as [v [Hv Hnv]].
    { intros ->. apply Hs. left. reflexivity. }
    unfold resolve_segments in *. simpl. rewrite Hv. apply IH; [exact Hnv|].
    intro Hin. apply Hs. right. exact Hin.
Qed.

Variable c : ascii.
Variable sep' : string.

(** The first segment of a path is looked up in one step, and the rest
    of the path is resolved from what this step gives. *)
Lemma getDataByKey_first_segment (data : resolved) (k1 rest : string) :
  JsString.includes (String c "") k1 = false ->
  getDataByKey (String c sep') builtins data k1 = getDataByKey_step builtins data k1 /\
  getDataByKey (String c sep') builtins data (k1 ++ String c sep' ++ rest)
  = (v <- getDataByKey_step builtins data k1 ;;
     getDataByKey (String c sep') builtins v rest).
Proof.
  intro H. split.
  - unfold getDataByKey, JsString.split.
    rewrite split_from_absent.
    + simpl. destruct (getDataByKey_step builtins data k1); reflexivity.
    + destruct (JsString.includes (String c sep') k1) eqn:Hi; [|reflexivity].
      apply includes_spec in Hi. destruct Hi as [before [after ->]].
      assert (JsString.includes (String c "") (before ++ String c sep' ++ after) = true)
        as Hc.
      { apply includes_spec. exists before, (sep' ++ after)%string. reflexivity. }
      congruence.
  - unfold getDataByKey, JsString.split.
    rewrite split_from_first_segment by exact H.
    unfold resolve_segments. cbn [fold_left bind String.append].
    destruct (getDataByKey_step builtins data k1) as [v|e]; [reflexivity|].
    apply resolve_segments_throw.
Qed.



End KeyPath.



(** * Further properties of the reducer *)

Lemma reduce_each_Forall2 (f : value -> option (result value))
      (elems ret out : list value) :
  reduce_each f elems ret = Some (Ok out) <->
  exists outs, out = ret ++ outs /\ Forall2 (fun x r => f x = Some (Ok r)) elems outs.
Proof.
  revert ret. induction elems as [|x elems IH]; intro ret; simpl.
  - split.
    + intro H. injection H as <-. exists []. rewrite app_nil_r. auto.
    + intros [outs [-> H]]. inversion H. rewrite app_nil_r. reflexivity.
  - destruct (f x) as [[r|e]|] eqn:Hf.
    + rewrite IH. split.
      * intros [outs [-> H]]. exists (r :: outs). rewrite <- app_assoc. auto.
      * intros [outs [-> H]]. inversion H as [|? r' ? outs' Hr Hrest]; subst.
        assert (r' = r) as -> by congruence.
        exists outs'. rewrite <- app_assoc. auto.
    + split; [discriminate|]. intros [outs [_ H]].
      inversion H as [|? r' ? outs' Hr Hrest]; subst. rewrite Hf in Hr. discriminate.
    + split; [discriminate|]. intros [outs [_ H]].
      inversion H as [|? r' ? outs' Hr Hrest]; subst. rewrite Hf in Hr. discriminate.
Qed.

Lemma reduce_each_throw (f : value -> option (result value))
      (elems ret : list value) (e : error) :
  reduce_each f elems ret = Some (Throw e) ->
  exists x, In x elems /\ f x = Some (Throw e).
Proof.
  revert ret. induction elems as [|x elems IH]; simpl; intros ret H; [discriminate|].
  destruct (f x) as [[r|e']|] eqn:Hf; try discriminate.
  - destruct (IH _ H) as [y [Hy Hfy]]. exists y. auto.
  - injection H as ->. exists x. auto.
Qed.

Lemma reduce_each_ok (f : value -> option (result value)) (elems ret : list value) :
  (forall x, In x elems -> exists r, f x = Some (Ok r)) ->
  exists out, reduce_each f elems ret = Some (Ok out).
Proof.
  revert ret. induction elems as [|x elems IH]; simpl; intros ret H; [eauto|].
  destruct (H x (or_introl eq_refl)) as [r ->].
  apply IH. intros; apply H; auto.
Qed.

Lemma reduce_object_invariant (P : value -> Prop) (f : value -> option (result value))
      (l : list (string * value)) (ret out : value) :
  (forall k v ret, P v -> P ret -> P (assign k v ret)) ->
  (forall k x r, In (k, x) l -> f x = Some (Ok r) -> P r) ->
  P ret -> reduce_object f l ret = Some (Ok out) -> P out.
Proof.
  intro Has. revert ret. induction l as [|[k x] l IH]; intros ret Hf Hret H.
  - simpl in H. injection H as <-. exact Hret.
  - cbn [reduce_object] in H. destruct (f x) as [[r|e]|] eqn:Hx; try discriminate.
    apply (IH (assign k r ret)); [| |exact H].
    + intros k0 x0 r0 Hin. apply (Hf k0 x0 r0). right. exact Hin.
    + apply Has; [|exact Hret]. apply (Hf k x r); [left; reflexivity | exact Hx].
Qed.

Lemma reduce_object_throw (f : value -> option (result value))
      (l : list (string * value)) (ret : value) (e : error) :
  reduce_object f l ret = Some (Throw e) ->
  exists k x, In (k, x) l /\ f x = Some (Throw e).
Proof.
  revert ret. induction l as [|[k x] l IH]; simpl; intros ret H; [discriminate|].
  destruct (f x) as [[r|e']|] eqn:Hf; try discriminate.
  - destruct (IH _ H) as [k0 [y [Hy Hfy]]]. exists k0, y. auto.
  - injection H as ->. exists k, x. auto.
Qed.

Lemma reduce_object_ok (f : value -> option (result value))
      (l : list (string * value)) (ret : value) :
  (forall k x, In (k, x) l -> exists r, f x = Some (Ok r)) ->
  exists out, reduce_object f l ret = Some (Ok out).
Proof.
  revert ret. induction l as [|[k x] l IH]; simpl; intros ret H; [eauto|].
  destruct (H k x (or_introl eq_refl)) as [r ->].
  apply IH. intros; eapply H; eauto.
Qed.

Lemma set_prop_forallb (P : value -> bool) (k : string) (v : value)
      (l : list (string * value)) :
  P v = true -> forallb (fun kv => P (snd kv)) l = true ->
  forallb (fun kv => P (snd kv)) (set_prop k v l) = true.
Proof.
  intros Hv Hl. apply forallb_forall. intros x Hx.
  apply set_prop_In in Hx. destruct Hx as [->|Hx]; [exact Hv|].
  rewrite forallb_forall in Hl. apply Hl. exact Hx.
Qed.

(** An assignment keeps every property that is checked member by member,
    prototype included. *)
Lemma assign_invariant (P : value -> bool) :
  (forall props, P (VObj props) = forallb (fun kv => P (snd kv)) props) ->
  (forall proto props,
      P (VProto proto props) = P proto && forallb (fun kv => P (snd kv)) props) ->
  forall k v ret, P v = true -> P ret = true -> P (assign k v ret) = true.
Proof.
  intros Hobj Hproto k v ret Hv Hret. unfold assign.
  destruct (String.eqb k "__proto__" && proto_setter ret).
  - destruct (typeof_object v); [|exact Hret].
    destruct ret; cbn [set_prototype]; try exact Hret.
    + rewrite Hproto, Hv. rewrite Hobj in Hret. exact Hret.
    + rewrite Hproto, Hv. rewrite Hproto in Hret. apply andb_true_iff in Hret. apply Hret.
  - destruct ret; cbn [set_own]; try exact Hret.
    + rewrite Hobj in *. apply set_prop_forallb; assumption.
    + rewrite Hproto in *. apply andb_true_iff in Hret. destruct Hret as [Hp Hl].
      rewrite Hp. apply set_prop_forallb; assumption.
Qed.

Lemma assign_null_free (k : string) (v ret : value) :
  null_free v = true -> null_free ret = true -> null_free (assign k v ret) = true.
Proof. apply assign_invariant; reflexivity. Qed.

Lemma assign_array_free (k : string) (v ret : value) :
  array_free v = true -> array_free ret = true -> array_free (assign k v ret) = true.
Proof. apply assign_invariant; reflexivity. Qed.

(** X1.  Without conversion an array is reduced element by element: the
    result is an array of the same length whose i-th element is the
    reduction of the i-th element, and an array is never unwrapped or taken
    for an entries container. *)
Theorem reduceData_array_elementwise
        (conv : list value -> string -> option string -> result value)
        (options : ReduceOptions.t) (fuel : nat) (elems : list value) :
  catm_keyName options = None ->
  (forall outs,
      Forall2 (fun x r => reduceData_fuel conv fuel x options = Some (Ok r)) elems outs ->
      reduceData_fuel conv (S fuel) (VArr elems) options = Some (Ok (VArr outs))) /\
  (forall out,
      reduceData_fuel conv (S fuel) (VArr elems) options = Some (Ok out) ->
      exists outs,
        out = VArr outs /\ List.length outs = List.length elems /\
        Forall2 (fun x r => reduceData_fuel conv fuel x options = Some (Ok r)) elems outs).
Proof.
  intro Hc.
  assert (reduceData_fuel conv (S fuel) (VArr elems) options =
          lift VArr (reduce_each (fun i => reduceData_fuel conv fuel i options) elems []))
    as Heq.
  { cbn [reduceData_fuel]. unfold reduceData_body.
    rewrite scaffold_item_array. unfold entries_container. cbn [isArray].
    rewrite Hc. reflexivity. }
  rewrite Heq. split.
  - intros outs H.
    assert (reduce_each (fun i => reduceData_fuel conv fuel i options) elems []
            = Some (Ok outs)) as ->
        by (apply reduce_each_Forall2; exists outs; auto).
    reflexivity.
  - intros out H. apply lift_Some in H. destruct H as [[outs|] [H Hr]]; [|discriminate].
    injection Hr as ->. apply reduce_each_Forall2 in H. destruct H as [outs' [-> H]].
    exists outs'. split; [reflexivity|]. split; [|exact H].
    symmetry. eapply Forall2_length. exact H.
Qed.

Lemma reduceData_array_elementwise_witness :
  catm_keyName no_options = None /\
  reduceData_fuel keyed_by_field 3
    (VArr [VObj [("value", VNum 1)]; VNum 2; VObj [("color", VStr "red")]]) no_options
  = Some (Ok (VArr [VNum 1; VNum 2; VStr "red"])).
Proof.
  split; [reflexivity|].
  destruct (reduceData_array_elementwise keyed_by_field no_options 2
              [VObj [("value", VNum 1)]; VNum 2; VObj [("color", VStr "red")]] eq_refl)
    as [Hbuild _].
  apply Hbuild. repeat constructor.
Defined.

(** Whatever holds of the scalars other than null and of the empty
    mapping, and is kept by the generic case of arrays and by the assignment
    of a property, holds of every value that the reduction returns. *)
Lemma reduceData_fuel_output
      (conv : list value -> string -> option string -> result value)
      (options : ReduceOptions.t) (P : value -> Prop) :
  (forall v, is_scalar v = true -> v <> VNull -> P v) ->
  (forall elems, catm_keyName options = None -> Forall P elems -> P (VArr elems)) ->
  P (VObj []) ->
  (forall k v ret, P v -> P ret -> P (assign k v ret)) ->
  forall fuel data r,
    reduceData_fuel conv fuel data options = Some (Ok r) -> P r.
Proof.
  intros Hs Ha Ho Has. induction fuel as [|fuel IH]; intros data r H; [discriminate|].
  cbn [reduceData_fuel] in H. unfold reduceData_body in H.
  destruct (scaffold_item keysToReduce data) as [item|].
  { destruct data; try discriminate; eapply IH; eauto. }
  destruct (entries_container data) as [e|].
  { destruct data; try discriminate; eapply IH; eauto. }
  destruct data; try discriminate.
  - injection H as <-. apply Hs; [reflexivity | discriminate].
  - injection H as <-. apply Hs; [reflexivity | discriminate].
  - injection H as <-. apply Hs; [reflexivity | discriminate].
  - destruct (catm_keyName options) as [[name prefix]|] eqn:Hc.
    + destruct (conv elems name prefix); [eapply IH; eauto | discriminate].
    + apply lift_Some in H. destruct H as [[rs|] [H Hr]]; [|discriminate].
      injection Hr as ->. apply Ha; [reflexivity|].
      apply Forall_forall. intros x Hx.
      destruct (reduce_each_In _ _ _ _ H _ Hx) as [[]|[y [_ Hf]]]. eapply IH; eauto.
  - refine (reduce_object_invariant P _ props (VObj []) r Has _ Ho H).
    intros k x r0 _ Hx. eapply IH; eauto.
  - refine (reduce_object_invariant P _ props (VObj []) r Has _ Ho H).
    intros k x r0 _ Hx. eapply IH; eauto.
Qed.

(** X2.  What [reduceData] returns holds no null at any depth; and when
    the conversion of arrays is requested, it holds no array at any depth
    either, whatever the converter returns. *)
Theorem reduceData_output_null_and_array_free
        (conv : list value -> string -> option string -> result value)
        (options : ReduceOptions.t) (fuel : nat) (data r : value) :
  reduceData_fuel conv fuel data options = Some (Ok r) ->
  null_free r = true /\
  (catm_keyName options <> None -> array_free r = true).
Proof.
  intro H. split.
  - revert fuel data r H. apply reduceData_fuel_output.
    + intros v Hs Hn. destruct v; simpl in Hs; try reflexivity; congruence.
    + intros elems _ Hall. cbn [null_free]. apply forallb_forall.
      rewrite Forall_forall in Hall. exact Hall.
    + reflexivity.
    + apply assign_null_free.
  - intro Hc. revert fuel data r H. apply reduceData_fuel_output.
    + intros v Hs Hn. destruct v; simpl in Hs; try reflexivity; discriminate.
    + intros elems Hnone. contradiction.
    + reflexivity.
    + apply assign_array_free.
Qed.

Lemma reduceData_output_null_and_array_free_witness :
  reduceData_fuel keyed_by_field 4
    (VArr [VObj [("name", VStr "a"); ("up", VBool true)]]) convert_by_name
  = Some (Ok (VObj [("a", VObj [("name", VStr "a"); ("up", VBool true)])])) /\
  array_free (VObj [("a", VObj [("name", VStr "a"); ("up", VBool true)])]) = true.
Proof.
  split; [reflexivity|].
  destruct (reduceData_output_null_and_array_free keyed_by_field convert_by_name 4
              (VArr [VObj [("name", VStr "a"); ("up", VBool true)]]) _ eq_refl)
    as [_ Harr].
  apply Harr. discriminate.
Defined.

Lemma own_props_null_free (e : value) (k : string) (v : value) :
  null_free e = true -> In (k, v) (own_props e) -> null_free v = true.
Proof.
  intros Hn Hin. destruct e; simpl in Hin; try contradiction.
  - apply indexed_from_In in Hin. destruct Hin as [_ Hin].
    apply in_map_iff in Hin. destruct Hin as [c [<- _]]. reflexivity.
  - apply indexed_from_In in Hin. destruct Hin as [_ Hin].
    cbn [null_free] in Hn. rewrite forallb_forall in Hn. auto.
  - cbn [null_free] in Hn. rewrite forallb_forall in Hn. apply (Hn (k, v) Hin).
  - cbn [null_free] in Hn. apply andb_true_iff in Hn. destruct Hn as [_ Hn].
    rewrite forallb_forall in Hn. apply (Hn (k, v) Hin).
Qed.

Lemma entries_object_null_free (entries : list (string * value)) :
  (forall k v, In (k, v) entries -> null_free v = true) ->
  null_free (entries_object entries) = true.
Proof.
  unfold entries_object.
  assert (null_free (VObj []) = true) as Hret by reflexivity. revert Hret.
  generalize (VObj []) as ret.
  induction entries as [|[k v] entries IH]; intros ret Hret H; [exact Hret|].
  cbn [fold_left fst snd]. apply IH.
  - apply assign_null_free; [|exact Hret]. apply (H k v). left. reflexivity.
  - intros k0 v0 Hin. apply (H k0 v0). right. exact Hin.
Qed.

Lemma reduceData_fuel_null_free
      (conv : list value -> string -> option string -> result value)
      (options : ReduceOptions.t) :
  catm_keyName options = None ->
  forall fuel data,
    nesting data < fuel -> null_free data = true ->
    exists r, reduceData_fuel conv fuel data options = Some (Ok r).
Proof.
  intro Hc. induction fuel as [|fuel IH]; intros data Hlt Hn; [lia|].
  cbn [reduceData_fuel]. unfold reduceData_body.
  destruct (scaffold_item keysToReduce data) as [item|] eqn:Hs.
  { assert (Hlt' := scaffold_nesting _ _ Hs).
    assert (null_free item = true) as Hni.
    { apply scaffold_item_Some in Hs. destruct Hs as [_ [name [_ Hm]]].
      eapply get_member_null_free; eauto. }
    destruct data; try discriminate; apply IH; solve [lia | assumption]. }
  destruct (entries_container data) as [e|] eqn:He.
  { assert (Hlt' := entries_nesting _ _ He).
    assert (null_free (entries_object e) = true) as Hne.
    { apply entries_container_Some in He.
      destruct He as [_ [[e0 [Hm [_ ->]]]|[_ [_ ->]]]]; [|reflexivity].
      apply entries_object_null_free. intros k v Hin.
      eapply own_props_null_free; [|exact Hin]. eapply get_member_null_free; eauto. }
    destruct data; try discriminate; apply IH; solve [lia | assumption]. }
  destruct data; try discriminate; eauto.
  - rewrite Hc.
    destruct (reduce_each_ok (fun v => reduceData_fuel conv fuel v options) elems [])
      as [out ->]; simpl; eauto.
    intros x Hx. apply IH.
    + apply nesting_arr_child in Hx. eapply lt_below_succ; eassumption.
    + cbn [null_free] in Hn. rewrite forallb_forall in Hn. auto.
  - apply reduce_object_ok.
    intros k x Hx. apply IH.
    + apply nesting_obj_child in Hx. eapply le_lt_below_succ; eassumption.
    + cbn [null_free] in Hn. rewrite forallb_forall in Hn. apply (Hn (k, x) Hx).
  - apply reduce_object_ok.
    intros k x Hx. apply IH.
    + apply (nesting_proto_child _ _ data) in Hx. eapply le_lt_below_succ; eassumption.
    + cbn [null_free] in Hn. apply andb_true_iff in Hn. destruct Hn as [_ Hn].
      rewrite forallb_forall in Hn. apply (Hn (k, x) Hx).
Qed.

Lemma reduceData_null_free_value
        (conv : list value -> string -> option string -> result value)
        (options : ReduceOptions.t) (data : value) :
  catm_keyName options = None ->
  null_free data = true ->
  exists r, reduceData conv data options = Some (Ok r) /\ null_free r = true.
Proof.
  intros Hc Hn.
  destruct (reduceData_fuel_null_free conv options Hc (S (nesting data)) data
              (Nat.lt_succ_diag_r _) Hn) as [r Hr].
  exists r. split; [exact Hr|].
  revert Hr. unfold reduceData.
  apply (reduceData_fuel_output conv options (fun v => null_free v = true)).
  - intros v Hs Hne. destruct v; simpl in Hs; try reflexivity; congruence.
  - intros elems _ Hall. cbn [null_free]. apply forallb_forall.
    rewrite Forall_forall in Hall. exact Hall.
  - reflexivity.
  - apply assign_null_free.
Qed.

(** X3.  Without conversion, the reduction of a payload that holds no null
    ends with a value, never with an exception; and that value holds no
    null. *)
Theorem reduceData_null_free_returns
        (conv : list value -> string -> option string -> result value)
        (options : ReduceOptions.t) (data : value) :
  catm_keyName options = None ->
  null_free data = true ->
  exists r, reduceData conv data options = Some (Ok r) /\ null_free r = true.
Proof.
  exact (reduceData_null_free_value conv options data).
Qed.

Lemma reduceData_null_free_returns_witness :
  (catm_keyName no_options = None /\ null_free tmm_payload = true) /\
  exists r, reduceData keyed_by_field tmm_payload no_options = Some (Ok r).
Proof.
  split; [split; reflexivity|].
  destruct (reduceData_null_free_returns keyed_by_field no_options tmm_payload
              eq_refl eq_refl) as [r [Hr _]].
  exists r. exact Hr.
Defined.

(** X4.  The only exception that the reducer raises by itself is the
    TypeError of an access into null; any other exception is one that the
    array-to-map converter threw, and it is passed on as it is. *)
Theorem reduceData_throws_TypeError_or_converter
        (conv : list value -> string -> option string -> result value)
        (options : ReduceOptions.t) (fuel : nat) :
  forall (data : value) (e : error),
    reduceData_fuel conv fuel data options = Some (Throw e) ->
    e = TypeError \/
    (catm_keyName options <> None /\
     exists elems name prefix, conv elems name prefix = Throw e).
Proof.
  induction fuel as [|fuel IH]; intros data e H; [discriminate|].
  cbn [reduceData_fuel] in H. unfold reduceData_body in H.
  destruct data as [| b | n | s | elems | props | proto props];
    try (injection H as <-; left; reflexivity);
    (destruct (scaffold_item keysToReduce _); [eapply IH; eauto|]);
    (destruct (entries_container _); [eapply IH; eauto|]); try discriminate.
  - destruct (catm_keyName options) as [[name prefix]|] eqn:Hc.
    + destruct (conv elems name prefix) as [ret|e'] eqn:Hconv; [eapply IH; eauto|].
      injection H as ->. right. split; [discriminate|]. eauto.
    + apply lift_Some in H. destruct H as [[rs|e'] [H Hr]]; [discriminate|].
      injection Hr as ->. apply reduce_each_throw in H. destruct H as [x [_ Hx]].
      destruct (IH _ _ Hx) as [Ht|[Hne _]]; [auto | congruence].
  - apply reduce_object_throw in H. destruct H as [k [x [_ Hx]]]. eapply IH; eauto.
  - apply reduce_object_throw in H. destruct H as [k [x [_ Hx]]]. eapply IH; eauto.
Qed.

Lemma reduceData_throws_TypeError_or_converter_witness :
  reduceData_fuel keyed_by_field 3 (VObj [("a", VArr [VNum 1; VNull])]) no_options
  = Some (Throw TypeError) /\
  (TypeError = TypeError \/
   (catm_keyName no_options <> None /\
    exists elems name prefix, keyed_by_field elems name prefix = Throw TypeError)).
Proof.
  split; [reflexivity|].
  exact (reduceData_throws_TypeError_or_converter keyed_by_field no_options 3
           (VObj [("a", VArr [VNum 1; VNull])]) TypeError eq_refl).
Defined.

Lemma reduced_top (arrays : bool) (r : value) :
  reduced arrays r ->
  scaffold_item keysToReduce r = None /\ entries_container r = None.
Proof.
  intro H. inversion H as [v Hs Hn | elems Ha Hall | props Hsc Hen Hjs Hall]; subst.
  - destruct r; simpl in Hs; try discriminate; try congruence; split; reflexivity.
  - split; [apply scaffold_item_array | reflexivity].
  - auto.
Qed.

(** X5.  On a payload with unique keys, none of which is [__proto__] or
    is simplified to it, what [reduceData] returns is fully unwrapped:
    neither the result nor any value inside it is a mapping whose only key
    is a scaffold name, or a mapping with a truthy [entries]; in particular
    a second pass finds nothing to unwrap at the top. *)
Theorem reduceData_output_unwrapped
        (conv : list value -> string -> option string -> result value)
        (options : ReduceOptions.t) (fuel : nat) (data r : value) :
  converter_wf conv ->
  wf_value data = true ->
  plain data = true ->
  reduceData_fuel conv fuel data options = Some (Ok r) ->
  reduced (keeps_arrays options) r /\
  scaffold_item keysToReduce r = None /\
  entries_container r = None.
Proof.
  intros Hconv Hwf Hp H.
  assert (reduced (keeps_arrays options) r) as Hr
      by (eapply reduceData_fuel_reduced; eauto).
  split; [exact Hr | eapply reduced_top; exact Hr].
Qed.

Lemma reduceData_output_unwrapped_witness :
  (converter_wf keyed_by_index /\ wf_value tmm_payload = true /\
   plain tmm_payload = true /\
   reduceData_fuel keyed_by_index 8 tmm_payload no_options
   = Some (Ok (VObj [("sys/tmm-info/0.0/stats", VObj [("oneMinAverageSystem", VNum 5)])]))) /\
  scaffold_item keysToReduce
    (VObj [("sys/tmm-info/0.0/stats", VObj [("oneMinAverageSystem", VNum 5)])]) = None.
Proof.
  split; [split; [exact keyed_by_index_wf | repeat split]|].
  destruct (reduceData_output_unwrapped keyed_by_index no_options 8 tmm_payload _
              keyed_by_index_wf eq_refl eq_refl eq_refl) as [_ [Hs _]].
  exact Hs.
Defined.

(** ** Keys of an entries container *)

Lemma replace_absent (pat rep s : string) :
  JsString.includes pat s = false -> JsString.replace pat rep s = s.
Proof.
  induction s as [|c s IH]; cbn [JsString.includes JsString.replace].
  - destruct (JsString.starts_with pat ""); [discriminate | reflexivity].
  - destruct (JsString.starts_with pat (String c s)); [discriminate|].
    intro H. rewrite IH by exact H. reflexivity.
Qed.

Lemma entries_ret_get_last (eprops l1 l2 : list (string * value)) (k : string) (v : value) :
  eprops = l1 ++ (k, v) :: l2 ->
  (forall k2, In k2 (map fst l2) -> simplify_key k2 <> simplify_key k) ->
  get_prop (simplify_key k) (entries_ret (VObj eprops)) = Some v.
Proof.
  intros -> Hl2. unfold entries_ret. cbn [own_props]. rewrite fold_left_app. cbn [fold_left fst snd].
  generalize (fold_left (fun ret kv => set_prop (simplify_key (fst kv)) (snd kv) ret) l1 []).
  intro mid.
  assert (forall l acc,
             (forall k2, In k2 (map fst l) -> simplify_key k2 <> simplify_key k) ->
             get_prop (simplify_key k)
               (fold_left (fun ret kv => set_prop (simplify_key (fst kv)) (snd kv) ret) l acc)
             = get_prop (simplify_key k) acc) as Hkeep.
  { induction l as [|[k0 v0] l IH]; simpl; intros acc Hne; [reflexivity|].
    rewrite IH by (intros; apply Hne; auto).
    apply get_prop_set_prop_ne. apply Hne. auto. }
  rewrite Hkeep by exact Hl2. apply get_prop_set_prop_eq.
Qed.

(** X6.  The key of an entry is simplified by removing text only: a key
    in which neither [https://localhost/] nor [mgmt/tm/] occurs is kept as
    it is, and a key that starts with the host prefix loses that prefix
    once.  When no key is simplified to [__proto__], the object built from
    the entries is a plain mapping of the simplified keys; when several
    entries get the same simplified key, it holds one property of that
    name, with the child of the entry enumerated last.  An entry whose key
    is simplified to [__proto__] gives no property: its child becomes the
    prototype of the object when it is an object, and is dropped
    otherwise. *)
Theorem entries_ret_simplified_keys
        (eprops l1 l2 : list (string * value)) (k : string) (v : value) :
  eprops = l1 ++ (k, v) :: l2 ->
  (forall k2, In k2 (map fst l2) -> simplify_key k2 <> simplify_key k) ->
  (forall k2, In k2 (map fst eprops) -> simplify_key k2 <> "__proto__") ->
  (exists props,
      entries_object eprops = VObj props /\
      get_prop (simplify_key k) props = Some v /\
      NoDup (map fst props)) /\
  (JsString.includes "https://localhost/" k = false ->
   JsString.includes "mgmt/tm/" k = false -> simplify_key k = k) /\
  (forall rest, simplify_key ("https://localhost/" ++ rest)
                = JsString.replace "mgmt/tm/" "" rest) /\
  (forall k0 x,
      simplify_key k0 = "__proto__" ->
      entries_object [(k0, x)] = if typeof_object x then VProto x [] else VObj []).
Proof.
  intros Heq Hl2 Hp. split; [|split; [|split]].
  - exists (entries_ret (VObj eprops)). split; [|split].
    + apply (entries_object_ret (VObj eprops)). exact Hp.
    + eapply entries_ret_get_last; eauto.
    + apply entries_ret_js_props.
  - intros H1 H2. unfold simplify_key. rewrite (replace_absent _ _ _ H1).
    apply replace_absent. exact H2.
  - intro rest. reflexivity.
  - intros k0 x Hk. unfold entries_object. cbn [fold_left fst snd]. rewrite Hk.
    reflexivity.
Qed.

Lemma entries_ret_simplified_keys_witness :
  ([("https://localhost/mgmt/tm/sys/a", VNum 1); ("sys/a", VNum 2)]
   = [("https://localhost/mgmt/tm/sys/a", VNum 1)] ++ ("sys/a", VNum 2) :: []
   /\ (forall k2, In k2 (map fst (@nil (string * value))) ->
                  simplify_key k2 <> simplify_key "sys/a")
   /\ (forall k2,
          In k2 (map fst [("https://localhost/mgmt/tm/sys/a", VNum 1); ("sys/a", VNum 2)]) ->
          simplify_key k2 <> "__proto__")) /\
  exists props,
    entries_object [("https://localhost/mgmt/tm/sys/a", VNum 1); ("sys/a", VNum 2)]
    = VObj props /\
    get_prop "sys/a" props = Some (VNum 2).
Proof.
  assert (forall k2,
             In k2 (map fst [("https://localhost/mgmt/tm/sys/a", VNum 1); ("sys/a", VNum 2)]) ->
             simplify_key k2 <> "__proto__") as Hp.
  { intros k2 [<-|[<-|[]]]; discriminate. }
  split; [split; [reflexivity | split; [intros k2 [] | exact Hp]]|].
  destruct (entries_ret_simplified_keys
              [("https://localhost/mgmt/tm/sys/a", VNum 1); ("sys/a", VNum 2)]
              [("https://localhost/mgmt/tm/sys/a", VNum 1)] [] "sys/a" (VNum 2)
              eq_refl (fun k2 (H : In k2 []) => match H with end) Hp)
    as [[props [Hobj [Hget _]]] _].
  exists props. split; [exact Hobj | exact Hget].
Defined.

(** * Further properties of the key-path resolver *)

(** X7.  A key in which the separator does not occur is looked up as it
    stands, in one step; and a path whose first segment is free of the
    separator's first character resolves by looking that segment up and
    resolving the rest of the path from the value found.  An exception of
    the first step is the outcome of the whole resolution. *)
Theorem getDataByKey_composes
        (builtins : builtin -> string -> bool)
        (c : ascii) (sep' : string) (data : resolved) (k1 rest : string) :
  JsString.includes (String c "") k1 = false ->
  getDataByKey (String c sep') builtins data k1 = getDataByKey_step builtins data k1 /\
  getDataByKey (String c sep') builtins data (k1 ++ String c sep' ++ rest)
  = (v <- getDataByKey_step builtins data k1 ;;
     getDataByKey (String c sep') builtins v rest).
Proof.
  exact (getDataByKey_first_segment builtins c sep' data k1 rest).
Qed.

Lemma getDataByKey_composes_witness :
  JsString.includes ":" "system" = false /\
  getDataByKey "::" es5_builtins
               (VObj [("system", VObj [("hostname", VStr "bigip1")])])
               "system::hostname"
  = Ok (Data (VStr "bigip1")).
Proof.
  split; [reflexivity|].
  destruct (getDataByKey_composes es5_builtins ":" ":"
              (VObj [("system", VObj [("hostname", VStr "bigip1")])])
              "system" "hostname" eq_refl) as [_ Hc].
  simpl String.append in Hc. rewrite Hc. reflexivity.
Defined.

(** * Further properties of the key filter *)

Lemma filter_props_all_deleted (self : value -> result value) (keys : list string)
      (todo : list (string * value)) :
  (forall k, In k (map fst todo) -> deleteKey keys k = true) ->
  filter_props self keys todo todo = Ok [].
Proof.
  induction todo as [|[k v] todo IH]; intro H; [reflexivity|].
  cbn [filter_props]. rewrite (H k (or_introl eq_refl)).
  cbn [delete_prop]. rewrite String.eqb_refl. apply IH. intros; apply H; simpl; auto.
Qed.

(** X8.  When no key of a mapping contains an entry of [keys] (so, for
    every mapping, when [keys] is empty), filtering returns the empty
    mapping; the values are not visited, and a null among them does not
    make the filter throw. *)
Theorem filterDataByKeys_nothing_kept (keys : list string) (props : list (string * value)) :
  (forall k, In k (map fst props) -> deleteKey keys k = true) ->
  filterDataByKeys (VObj props) keys = Ok (VObj []) /\
  filterDataByKeys (VObj props) [] = Ok (VObj []).
Proof.
  intro H. split.
  - cbn [filterDataByKeys]. rewrite filter_props_all_deleted by exact H. reflexivity.
  - cbn [filterDataByKeys]. rewrite filter_props_all_deleted; [reflexivity|].
    intros; reflexivity.
Qed.

Lemma filterDataByKeys_nothing_kept_witness :
  (forall k, In k (map fst [("other", VNull); ("name", VStr "x")]) ->
             deleteKey ["Util"] k = true) /\
  filterDataByKeys (VObj [("other", VNull); ("name", VStr "x")]) ["Util"] = Ok (VObj []).
Proof.
  assert (forall k, In k (map fst [("other", VNull); ("name", VStr "x")]) ->
                    deleteKey ["Util"] k = true) as H.
  { intros k [<-|[<-|[]]]; reflexivity. }
  split; [exact H|].
  destruct (filterDataByKeys_nothing_kept ["Util"] _ H) as [Hf _]. exact Hf.
Defined.

Lemma filter_props_fixed (self : value -> result value) (keys : list string)
      (todo done : list (string * value)) :
  (forall k v, In (k, v) todo -> deleteKey keys k = false /\ self v = Ok v) ->
  NoDup (map fst (done ++ todo)) ->
  filter_props self keys todo (done ++ todo) = Ok (done ++ todo).
Proof.
  revert done. induction todo as [|[k v] todo IH]; intros done H Hnd.
  - reflexivity.
  - destruct (H k v (or_introl eq_refl)) as [Hk Hv].
    cbn [filter_props]. rewrite Hk, Hv. cbn [bind].
    assert (~ In k (map fst done)) as Hnin.
    { rewrite map_app in Hnd. simpl in Hnd. apply NoDup_remove_2 in Hnd.
      intro Hin. apply Hnd. apply in_app_iff. auto. }
    rewrite set_prop_first by exact Hnin.
    change (done ++ (k, v) :: todo) with (done ++ [(k, v)] ++ todo).
    rewrite app_assoc. apply IH.
    + intros; apply H; simpl; auto.
    + rewrite <- app_assoc. exact Hnd.
Qed.

Lemma NoDup_filter_keys (f : string -> bool) (l : list string) :
  NoDup l -> NoDup (filter f l).
Proof.
  induction 1 as [|x l Hx Hnd IH]; simpl; [constructor|].
  destruct (f x); [|exact IH]. constructor; [|exact IH].
  intro Hin. apply filter_In in Hin. tauto.
Qed.

(** X9.  Filtering is idempotent: filtering once more with the same
    [keys] returns what the first pass returned, for every payload with
    unique keys. *)
Theorem filterDataByKeys_idempotent (keys : list string) (data : value) :
  forall out,
    wf_value data = true ->
    filterDataByKeys data keys = Ok out ->
    filterDataByKeys out keys = Ok out.
Proof.
  assert (forall props,
             Forall (fun kv => forall out,
                         wf_value (snd kv) = true ->
                         filterDataByKeys (snd kv) keys = Ok out ->
                         filterDataByKeys out keys = Ok out) props ->
             NoDup (map fst props) ->
             (forall k v, In (k, v) props -> wf_value v = true) ->
             forall outp,
               filter_props (fun v => filterDataByKeys v keys) keys props props = Ok outp ->
               filter_props (fun v => filterDataByKeys v keys) keys outp outp = Ok outp)
    as Hprops.
  { intros props IH Hnd Hwf outp Hloop.
    destruct (filter_props_spec (fun v => filterDataByKeys v keys) keys props [] outp
                Hnd Hloop) as [kept [-> [Hkeys Hvals]]].
    cbn [app].
    apply (filter_props_fixed (fun v => filterDataByKeys v keys) keys kept []).
    - intros k v' Hin. split.
      + assert (In k (map fst kept)) as Hk by (apply (in_map fst) in Hin; exact Hin).
        rewrite Hkeys in Hk. apply filter_In in Hk. destruct Hk as [_ Hk].
        apply negb_true_iff in Hk. exact Hk.
      + destruct (Hvals k v' Hin) as [v [Hv Hf]].
        rewrite Forall_forall in IH. apply (IH (k, v) Hv); [|exact Hf].
        eapply Hwf; eauto.
    - cbn [app]. rewrite Hkeys. apply NoDup_filter_keys. exact Hnd. }
  induction data as [| b | n | s | l IH | props IH | proto props _ IH]
    using value_deep_ind;
    intros out Hwf H; try (injection H as <-; reflexivity); try discriminate.
  - apply wf_value_obj in Hwf. destruct Hwf as [Hnd Hwf].
    cbn [filterDataByKeys] in H.
    destruct (filter_props (fun v => filterDataByKeys v keys) keys props props)
      as [outp|] eqn:Hloop; simpl in H; [|discriminate].
    injection H as <-. cbn [filterDataByKeys].
    rewrite (Hprops props IH Hnd Hwf outp Hloop). reflexivity.
  - cbn [wf_value] in Hwf. rewrite !andb_true_iff in Hwf.
    destruct Hwf as [[_ Hnd] Hwf]. apply distinct_NoDup in Hnd.
    rewrite forallb_forall in Hwf.
    cbn [filterDataByKeys] in H.
    destruct (filter_props (fun v => filterDataByKeys v keys) keys props props)
      as [outp|] eqn:Hloop; simpl in H; [|discriminate].
    injection H as <-. cbn [filterDataByKeys].
    rewrite (Hprops props IH Hnd (fun k v Hin => Hwf (k, v) Hin) outp Hloop). reflexivity.
Qed.

Lemma filterDataByKeys_idempotent_witness :
  (wf_value util_payload = true /\
   filterDataByKeys util_payload ["Util"]
   = Ok (VObj [("cpuUtil", VNum 1); ("memUtil", VNum 2)])) /\
  filterDataByKeys (VObj [("cpuUtil", VNum 1); ("memUtil", VNum 2)]) ["Util"]
  = Ok (VObj [("cpuUtil", VNum 1); ("memUtil", VNum 2)]).
Proof.
  split; [split; reflexivity|].
  exact (filterDataByKeys_idempotent ["Util"] util_payload _ eq_refl eq_refl).
Defined.

(** * Further properties of the key renamer *)

Section RenameMore.

Variable regex : Type.
Variable string_match : string -> regex -> option (list (option string)).

Lemma renamedKey_skip (patterns : list (string * rename_pattern regex)) (k : string)
      (acc : option string) :
  (forall p, In p patterns -> ~ pattern_applies regex string_match k p) ->
  fold_left
    (fun acc p =>
       if JsString.includes (fst p) k then
         match string_match k (entry_pattern regex (snd p)) with
         | Some m => Some (match_group m (entry_group regex (snd p)))
         | None => acc
         end
       else acc) patterns acc = acc.
Proof.
  revert acc. induction patterns as [|p patterns IH]; intros acc H; [reflexivity|].
  simpl. rewrite IH by (intros; apply H; simpl; auto).
  destruct (JsString.includes (fst p) k) eqn:Hi; [|reflexivity].
  destruct (string_match k (entry_pattern regex (snd p))) as [m|] eqn:Hm; [|reflexivity].
  exfalso. apply (H p (or_introl eq_refl)). split; eauto.
Qed.

(** X10.  Among the patterns whose trigger occurs in a key and whose
    regular expression matches it, the one enumerated last gives the new
    key (the text of its group, the whole match by default); when no
    pattern applies, the key is kept. *)
Theorem renamedKey_last_applicable
        (patterns l1 l2 : list (string * rename_pattern regex))
        (pK k : string) (e : rename_pattern regex) (m : list (option string)) :
  patterns = l1 ++ (pK, e) :: l2 ->
  JsString.includes pK k = true ->
  string_match k (entry_pattern regex e) = Some m ->
  (forall p, In p l2 -> ~ pattern_applies regex string_match k p) ->
  renamedKey regex string_match patterns k = Some (match_group m (entry_group regex e)) /\
  target_key regex string_match patterns k = match_group m (entry_group regex e) /\
  ((forall p, In p l1 -> ~ pattern_applies regex string_match k p) ->
   renamedKey regex string_match (l1 ++ l2) k = None /\
   target_key regex string_match (l1 ++ l2) k = k).
Proof.
  intros -> Hi Hm Hl2.
  assert (renamedKey regex string_match (l1 ++ (pK, e) :: l2) k
          = Some (match_group m (entry_group regex e))) as Hr.
  { unfold renamedKey. rewrite fold_left_app. cbn [fold_left fst snd].
    rewrite Hi, Hm. apply renamedKey_skip. exact Hl2. }
  split; [exact Hr|]. split; [unfold target_key; rewrite Hr; reflexivity|].
  intro Hl1.
  assert (renamedKey regex string_match (l1 ++ l2) k = None) as Hn.
  { unfold renamedKey. apply renamedKey_skip. intros p Hp.
    apply in_app_iff in Hp. destruct Hp; auto. }
  split; [exact Hn | unfold target_key; rewrite Hn; reflexivity].
Qed.

Variable patterns : list (string * rename_pattern regex).

Lemma rename_all_keys (todo ret out : list (string * value)) (K : string) :
  rename_all regex string_match patterns todo ret = Ok out ->
  (In K (map fst out) <->
   In K (map fst ret) \/
   exists k, In k (map fst todo) /\ target_key regex string_match patterns k = K).
Proof.
  revert ret. induction todo as [|[k v] todo IH]; intros ret H.
  - injection H as <-. simpl. split; [auto | intros [H|[k [[] _]]]; exact H].
  - rewrite rename_all_cons in H.
    destruct (renameKeysInData regex string_match v patterns) as [r|]; simpl in H;
      [|discriminate].
    rewrite (IH _ H), set_prop_keys_In. simpl. split.
    + intros [[->|Hin]|[k0 [Hk0 Ht]]]; eauto.
    + intros [Hin|[k0 [[<-|Hk0] Ht]]]; eauto.
Qed.

Lemma rename_all_In (todo ret out : list (string * value)) (K : string) (r : value) :
  rename_all regex string_match patterns todo ret = Ok out ->
  In (K, r) out ->
  In (K, r) ret \/
  exists k v, In (k, v) todo /\ target_key regex string_match patterns k = K /\
              renameKeysInData regex string_match v patterns = Ok r.
Proof.
  revert ret. induction todo as [|[k v] todo IH]; intros ret H Hin.
  - injection H as <-. auto.
  - rewrite rename_all_cons in H.
    destruct (renameKeysInData regex string_match v patterns) as [r0|] eqn:Hr;
      simpl in H; [|discriminate].
    destruct (IH _ H Hin) as [Hret|[k0 [v0 [H1 [H2 H3]]]]].
    + apply set_prop_In in Hret. destruct Hret as [Heq|Hret]; [|auto].
      injection Heq as HK Hr0. right. exists k, v. simpl.
      split; [auto|]. split; [symmetry; exact HK | congruence].
    + right. exists k0, v0. simpl. auto.
Qed.

(** X11.  When no key of a mapping gets the new key [__proto__], the
    keys of the renamed mapping are exactly the new keys of its keys (a
    key that no pattern renames being its own new key), each once; the
    value under a key of the result is the renamed subtree of a key of
    the input that got this new key; so the result never has more entries
    than the input. *)
Theorem renameKeysInData_key_set (props : list (string * value)) (out : value) :
  (forall k, In k (map fst props) ->
             target_key regex string_match patterns k <> "__proto__") ->
  renameKeysInData regex string_match (VObj props) patterns = Ok out ->
  exists outp,
    out = VObj outp /\
    NoDup (map fst outp) /\
    (forall K, In K (map fst outp) <->
               exists k, In k (map fst props) /\
                         target_key regex string_match patterns k = K) /\
    (forall K r, In (K, r) outp ->
                 exists k v, In (k, v) props /\
                             target_key regex string_match patterns k = K /\
                             renameKeysInData regex string_match v patterns = Ok r) /\
    List.length outp <= List.length props.
Proof.
  intros Hp H. rewrite (renameKeysInData_props regex string_match patterns props Hp) in H.
  destruct (rename_all regex string_match patterns props []) as [outp|] eqn:Hloop;
    simpl in H; [|discriminate].
  injection H as <-. exists outp. split; [reflexivity|]. split; [|split; [|split]].
  - eapply rename_all_NoDup; [exact Hloop | constructor].
  - intro K. rewrite (rename_all_keys _ _ _ K Hloop). simpl. tauto.
  - intros K r Hin. destruct (rename_all_In _ _ _ _ _ Hloop Hin) as [[]|Hex]. exact Hex.
  - apply (rename_all_length _ _ _ _ _ _ Hloop).
Qed.

End RenameMore.

Lemma renamedKey_last_applicable_witness :
  (two_patterns = [("tmm", Bare "tmm")] ++ ("_", Bare "_0") :: [] /\
   JsString.includes "_" "tmm_0" = true /\
   literal_match "tmm_0" (entry_pattern string (Bare "_0")) = Some [Some "_0"] /\
   (forall p, In p (@nil (string * rename_pattern string)) ->
              ~ pattern_applies string literal_match "tmm_0" p)) /\
  renamedKey string literal_match two_patterns "tmm_0" = Some "_0".
Proof.
  split; [repeat split; intros p []|].
  destruct (renamedKey_last_applicable string literal_match two_patterns
              [("tmm", Bare "tmm")] [] "_" "tmm_0" (Bare "_0") [Some "_0"]
              eq_refl eq_refl eq_refl (fun p (H : In p []) => match H with end))
    as [Hr _].
  exact Hr.
Defined.

Lemma renameKeysInData_key_set_witness :
  ((forall k, In k (map fst [("tmm_0", VNum 1); ("tmm_1", VNum 2); ("other", VNum 3)]) ->
              target_key string literal_match tmm_patterns k <> "__proto__") /\
   renameKeysInData string literal_match
     (VObj [("tmm_0", VNum 1); ("tmm_1", VNum 2); ("other", VNum 3)]) tmm_patterns
   = Ok (VObj [("tmm", VNum 2); ("other", VNum 3)])) /\
  exists outp,
    VObj [("tmm", VNum 2); ("other", VNum 3)] = VObj outp /\
    List.length outp <= 3.
Proof.
  assert (forall k,
             In k (map fst [("tmm_0", VNum 1); ("tmm_1", VNum 2); ("other", VNum 3)]) ->
             target_key string literal_match tmm_patterns k <> "__proto__") as Hp.
  { intros k [<-|[<-|[<-|[]]]]; discriminate. }
  split; [split; [exact Hp | reflexivity]|].
  destruct (renameKeysInData_key_set string literal_match tmm_patterns
              [("tmm_0", VNum 1); ("tmm_1", VNum 2); ("other", VNum 3)]
              (VObj [("tmm", VNum 2); ("other", VNum 3)]) Hp eq_refl)
    as [outp [Hout [_ [_ [_ Hlen]]]]].
  exists outp. auto.
Defined.

Lemma js_value_obj (props : list (string * value)) :
  js_value (VObj props) <->
  js_props props /\ forall k v, In (k, v) props -> js_value v.
Proof.
  cbn [js_value]. split; intros [Hjs H]; (split; [exact Hjs|]).
  - clear Hjs. induction props as [|[k0 v0] props IH]; intros k v Hin; [contradiction|].
    destruct H as [Hv Hrest]. destruct Hin as [Heq|Hin].
    + injection Heq as <- <-. exact Hv.
    + apply (IH Hrest k v Hin).
  - clear Hjs. induction props as [|[k0 v0] props IH]; [exact I|].
    split; [apply (H k0 v0); left; reflexivity|].
    apply IH. intros k v Hin. apply (H k v). right. exact Hin.
Qed.

Section RenameNothing.

Variable regex : Type.
Variable string_match : string -> regex -> option (list (option string)).
Variable patterns : list (string * rename_pattern regex).

Lemma rename_all_id (todo ret : list (string * value)) :
  (forall k v, In (k, v) todo ->
               renameKeysInData regex string_match v patterns = Ok v /\
               target_key regex string_match patterns k = k) ->
  js_props (ret ++ todo) ->
  rename_all regex string_match patterns todo ret = Ok (ret ++ todo).
Proof.
  revert ret. induction todo as [|[k v] todo IH]; intros ret H Hjs.
  - rewrite app_nil_r. reflexivity.
  - destruct (H k v (or_introl eq_refl)) as [Hv Hk].
    rewrite rename_all_cons, Hv, Hk. cbn [bind].
    rewrite (set_prop_next k v ret todo Hjs).
    rewrite IH.
    + rewrite <- app_assoc. reflexivity.
    + intros; apply H; simpl; auto.
    + rewrite <- app_assoc. exact Hjs.
Qed.

(** X12.  When the patterns rename no key (for instance when there is no
    pattern at all), renaming returns a payload equal to its input: same
    keys in the same order, same values; this for every payload without
    null and without a key [__proto__] whose mappings list their keys in
    enumeration order. *)
Theorem renameKeysInData_nothing_renamed (data : value) :
  (forall k, renamedKey regex string_match patterns k = None) ->
  js_value data ->
  null_free data = true ->
  proto_free data = true ->
  renameKeysInData regex string_match data patterns = Ok data.
Proof.
  intro Hnone.
  induction data as [| b | n | s | l IH | props IH | proto props _ _]
    using value_deep_ind;
    intros Hjs Hn Hp; try reflexivity; try discriminate.
  apply js_value_obj in Hjs. destruct Hjs as [Hjs Hvals].
  unfold proto_free in Hp. rewrite keys_all_obj in Hp.
  rewrite renameKeysInData_props.
  - rewrite (rename_all_id props []); [reflexivity| |exact Hjs].
    intros k v Hin. split.
    + rewrite Forall_forall in IH. apply (IH (k, v) Hin).
      * eapply Hvals; eauto.
      * cbn [null_free] in Hn. rewrite forallb_forall in Hn. apply (Hn (k, v) Hin).
      * apply (Hp k v Hin).
    + unfold target_key. rewrite Hnone. reflexivity.
  - intros k Hin. unfold target_key. rewrite Hnone.
    apply in_map_iff in Hin. destruct Hin as [[k0 v] [<- Hin]].
    apply not_proto_spec. apply (Hp k0 v Hin).
Qed.

End RenameNothing.

Lemma renameKeysInData_nothing_renamed_witness :
  ((forall k, renamedKey string literal_match [] k = None) /\
   js_value (VObj [("1", VObj [("b", VNum 1)]); ("a", VStr "x")]) /\
   null_free (VObj [("1", VObj [("b", VNum 1)]); ("a", VStr "x")]) = true /\
   proto_free (VObj [("1", VObj [("b", VNum 1)]); ("a", VStr "x")]) = true) /\
  renameKeysInData string literal_match
    (VObj [("1", VObj [("b", VNum 1)]); ("a", VStr "x")]) []
  = Ok (VObj [("1", VObj [("b", VNum 1)]); ("a", VStr "x")]).
Proof.
  assert (js_value (VObj [("1", VObj [("b", VNum 1)]); ("a", VStr "x")])) as Hjs.
  { cbn [js_value snd]. unfold js_props. cbn [map fst].
    repeat split; repeat constructor; try (vm_compute; exact I);
      simpl; intuition discriminate. }
  split; [split; [reflexivity | split; [exact Hjs | split; reflexivity]]|].
  apply (renameKeysInData_nothing_renamed string literal_match []);
    [reflexivity | exact Hjs | reflexivity | reflexivity].
Defined.

(** * The custom-function stage and the orchestrator *)

Lemma assign_ordinary (k : string) (v ret : value) :
  ordinary_object ret = true -> ordinary_object (assign k v ret) = true.
Proof.
  intro H. unfold assign.
  destruct (String.eqb k "__proto__" && proto_setter ret).
  - destruct (typeof_object v); [|exact H]. destruct ret; try discriminate; reflexivity.
  - destruct ret; try discriminate; reflexivity.
Qed.

Lemma assign_get_own_eq (k : string) (v ret : value) :
  k <> "__proto__" -> ordinary_object ret = true ->
  get_prop k (own_props (assign k v ret)) = Some v.
Proof.
  intros Hk H. unfold assign. apply String.eqb_neq in Hk. rewrite Hk. cbn [andb].
  destruct ret; try discriminate; cbn [set_own own_props]; apply get_prop_set_prop_eq.
Qed.

Lemma assign_get_own_ne (k k' : string) (v ret : value) :
  k <> k' -> ordinary_object ret = true ->
  get_prop k (own_props (assign k' v ret)) = get_prop k (own_props ret).
Proof.
  intros Hk H. unfold assign.
  destruct (String.eqb k' "__proto__" && proto_setter ret).
  - destruct (typeof_object v); [|reflexivity].
    destruct ret; try discriminate; reflexivity.
  - destruct ret; try discriminate; cbn [set_own own_props];
      apply get_prop_set_prop_ne; congruence.
Qed.

Lemma get_member_own (k : string) (v obj : value) :
  ordinary_object obj = true ->
  get_prop k (own_props obj) = Some v -> get_member obj k = Some v.
Proof.
  intros H Hg. destruct obj; try discriminate; cbn [own_props get_member] in *.
  - exact Hg.
  - rewrite Hg. reflexivity.
Qed.

Lemma merge_args_ordinary (todo : list (string * value)) (named merged : value) :
  merge_args todo named = Ok merged ->
  ordinary_object named = true ->
  ~ In "data" (map fst todo) /\ ordinary_object merged = true.
Proof.
  revert named. induction todo as [|[k v] todo IH]; simpl; intros named H Ho.
  - injection H as <-. tauto.
  - eqb_case k "data"; [discriminate|].
    destruct (IH _ H (assign_ordinary k v named Ho)) as [Hnin Hm]. tauto.
Qed.

Lemma merge_args_keeps (todo : list (string * value)) (named merged : value) (k : string) :
  merge_args todo named = Ok merged ->
  ordinary_object named = true ->
  ~ In k (map fst todo) ->
  get_prop k (own_props merged) = get_prop k (own_props named).
Proof.
  revert named. induction todo as [|[k0 v0] todo IH]; simpl; intros named H Ho Hnin.
  - injection H as <-. reflexivity.
  - destruct (String.eqb k0 "data"); [discriminate|].
    rewrite (IH _ H (assign_ordinary k0 v0 named Ho)) by tauto.
    apply assign_get_own_ne; [|exact Ho]. intros ->. tauto.
Qed.

Lemma merge_args_get (todo : list (string * value)) (named merged : value)
      (k : string) (v : value) :
  merge_args todo named = Ok merged ->
  ordinary_object named = true ->
  NoDup (map fst todo) -> In (k, v) todo -> k <> "__proto__" ->
  get_member merged k = Some v.
Proof.
  revert named. induction todo as [|[k0 v0] todo IH]; simpl; intros named H Ho Hnd Hin Hk;
    [contradiction|].
  destruct (String.eqb k0 "data"); [discriminate|].
  inversion Hnd as [|? ? Hk0 Hnd']; subst.
  destruct Hin as [Heq|Hin].
  - injection Heq as -> ->.
    assert (Ho' := assign_ordinary k v named Ho).
    apply get_member_own; [apply (merge_args_ordinary _ _ _ H Ho')|].
    rewrite (merge_args_keeps _ _ _ k H Ho' Hk0).
    apply assign_get_own_eq; assumption.
  - eapply IH; eauto. apply assign_ordinary. exact Ho.
Qed.

Lemma runCustomFunction_call_shape
        (registry : string -> option (arguments -> result resolved))
        (data : resolved) (options : CustomFunctionOptions.t)
        (res : result resolved) (call : invocation) (calls : list invocation) :
  runCustomFunction registry data options = (res, call :: calls) ->
  calls = [] /\
  invoked call = CustomFunctionOptions.func options /\
  args_data (invoked_with call) = data /\
  (forall a k v,
      CustomFunctionOptions.args options = Some (VObj a) ->
      NoDup (map fst a) -> In (k, v) a -> k <> "__proto__" ->
      get_member (args_named (invoked_with call)) k = Some v) /\
  exists f,
    registry (CustomFunctionOptions.func options) = Some f /\
    res = match f (invoked_with call) with
          | Ok r => Ok r
          | Throw e => Throw (CustomFunctionFailed e)
          end.
Proof.
  unfold runCustomFunction.
  set (merged := match CustomFunctionOptions.args options with
                 | Some optionalArgs =>
                     if truthy optionalArgs && typeof_object optionalArgs
                     then merge_args (own_props optionalArgs) (VObj [])
                     else Ok (VObj [])
                 | None => Ok (VObj [])
                 end).
  destruct merged as [named|e] eqn:Hmerged; [|discriminate].
  destruct (registry (CustomFunctionOptions.func options)) as [f|] eqn:Hreg; [|discriminate].
  intro H.
  assert (call = {| invoked := CustomFunctionOptions.func options;
                    invoked_with := {| args_data := data; args_named := named |} |}
          /\ calls = []
          /\ res = match f {| args_data := data; args_named := named |} with
                   | Ok r => Ok r
                   | Throw e => Throw (CustomFunctionFailed e)
                   end)
    as [-> [-> ->]].
  { destruct (f {| args_data := data; args_named := named |});
      injection H as <- <- <-; auto. }
  cbn [invoked invoked_with args_data args_named].
  split; [reflexivity|]. split; [reflexivity|]. split; [reflexivity|].
  unfold merged in Hmerged. clear merged.
  split; [|exists f; auto].
  intros a k v Ha Hnd Hin Hk. rewrite Ha in Hmerged. cbn in Hmerged.
  eapply merge_args_get; eauto.
Qed.

(** X13.  Whenever the custom-function stage calls a registered function,
    it calls the one named by [func], once, with an argument record in which
    [data] is the current tree and every optional argument (of an [args]
    mapping) other than [__proto__] has its own value; the value returned
    by the function is the result, and an exception of the function comes
    back wrapped as "runCustomFunction failed". *)
Theorem runCustomFunction_call
        (registry : string -> option (arguments -> result resolved))
        (data : resolved) (options : CustomFunctionOptions.t)
        (res : result resolved) (call : invocation) (calls : list invocation) :
  runCustomFunction registry data options = (res, call :: calls) ->
  calls = [] /\
  invoked call = CustomFunctionOptions.func options /\
  args_data (invoked_with call) = data /\
  (forall a k v,
      CustomFunctionOptions.args options = Some (VObj a) ->
      NoDup (map fst a) -> In (k, v) a -> k <> "__proto__" ->
      get_member (args_named (invoked_with call)) k = Some v) /\
  exists f,
    registry (CustomFunctionOptions.func options) = Some f /\
    res = match f (invoked_with call) with
          | Ok r => Ok r
          | Throw e => Throw (CustomFunctionFailed e)
          end.
Proof.
  exact (runCustomFunction_call_shape registry data options res call calls).
Qed.

Lemma runCustomFunction_call_witness :
  runCustomFunction echo_registry (Data (VNum 7))
    {| CustomFunctionOptions.func := "echo";
       CustomFunctionOptions.args := Some (VObj [("unit", VStr "ms")]) |}
  = (Ok (Data (VNum 7)),
     [{| invoked := "echo";
         invoked_with := {| args_data := Data (VNum 7);
                            args_named := VObj [("unit", VStr "ms")] |} |}]) /\
  get_member (VObj [("unit", VStr "ms")]) "unit" = Some (VStr "ms").
Proof.
  split; [reflexivity|].
  destruct (runCustomFunction_call echo_registry (Data (VNum 7))
              {| CustomFunctionOptions.func := "echo";
                 CustomFunctionOptions.args := Some (VObj [("unit", VStr "ms")]) |}
              _ _ _ eq_refl) as [_ [_ [_ [Hargs _]]]].
  apply (Hargs [("unit", VStr "ms")] "unit" (VStr "ms") eq_refl).
  - apply distinct_NoDup. reflexivity.
  - left. reflexivity.
  - discriminate.
Defined.

(** X14.  A name that the registry does not define never leads to a call:
    the stage ends with the wrapped TypeError of calling [undefined], or
    with the rejection of a reserved [data] argument, which comes first. *)
Theorem runCustomFunction_unknown_name
        (registry : string -> option (arguments -> result resolved))
        (data : resolved) (options : CustomFunctionOptions.t) :
  registry (CustomFunctionOptions.func options) = None ->
  runCustomFunction registry data options = (Throw (CustomFunctionFailed TypeError), []) \/
  runCustomFunction registry data options = (Throw reserved_argument, []).
Proof.
  intro Hreg. unfold runCustomFunction. rewrite Hreg.
  destruct (CustomFunctionOptions.args options) as [o|]; [|left; reflexivity].
  destruct (truthy o && typeof_object o); [|left; reflexivity].
  assert (forall l acc, (exists m, merge_args l acc = Ok m) \/
                        merge_args l acc = Throw reserved_argument) as Hm.
  { induction l as [|[k v] l IH]; simpl; intro acc; [eauto|].
    destruct (String.eqb k "data"); [auto | apply IH]. }
  destruct (Hm (own_props o) (VObj [])) as [[m ->]| ->]; auto.
Qed.

Lemma runCustomFunction_unknown_name_witness :
  echo_registry "absent" = None /\
  runCustomFunction echo_registry (Data (VNum 7))
    {| CustomFunctionOptions.func := "absent"; CustomFunctionOptions.args := None |}
  = (Throw (CustomFunctionFailed TypeError), []).
Proof.
  split; [reflexivity|].
  destruct (runCustomFunction_unknown_name echo_registry (Data (VNum 7))
              {| CustomFunctionOptions.func := "absent"; CustomFunctionOptions.args := None |}
              eq_refl) as [H|H].
  - exact H.
  - discriminate H.
Defined.

Lemma delete_prop_In (k : string) (l : list (string * value)) (x : string * value) :
  In x (delete_prop k l) -> In x l.
Proof.
  induction l as [|[k0 v0] l IH]; simpl; [tauto|].
  destruct (String.eqb k k0); simpl; [auto|]. intros [H|H]; auto.
Qed.

Lemma filter_props_values (self : value -> result value) (keys : list string)
      (P : value -> Prop) (todo ret out : list (string * value)) :
  (forall x, In x ret -> P (snd x)) ->
  (forall k v v', In (k, v) todo -> self v = Ok v' -> P v') ->
  filter_props self keys todo ret = Ok out ->
  forall x, In x out -> P (snd x).
Proof.
  revert ret. induction todo as [|[k v] todo IH]; simpl; intros ret Hret Hself H.
  - injection H as <-. exact Hret.
  - destruct (deleteKey keys k).
    + eapply IH; [| |exact H].
      * intros x Hx. apply Hret. eapply delete_prop_In. exact Hx.
      * intros; eapply Hself; eauto.
    + destruct (self v) as [v'|] eqn:Hv; simpl in H; [|discriminate].
      eapply IH; [| |exact H].
      * intros x Hx. apply set_prop_In in Hx. destruct Hx as [->|Hx]; [|auto].
        simpl. eapply Hself; eauto.
      * intros; eapply Hself; eauto.
Qed.

Lemma filterDataByKeys_null_free (keys : list string) (data : value) :
  forall out,
    null_free data = true -> filterDataByKeys data keys = Ok out -> null_free out = true.
Proof.
  induction data as [| b | n | s | l IH | props IH | proto props _ IH]
    using value_deep_ind;
    intros out Hn H; try (injection H as <-; exact Hn); try discriminate.
  - cbn [filterDataByKeys] in H.
    destruct (filter_props (fun v => filterDataByKeys v keys) keys props props)
      as [outp|] eqn:Hloop; simpl in H; [|discriminate].
    injection H as <-. cbn [null_free] in Hn |- *. rewrite forallb_forall in Hn.
    apply forallb_forall.
    apply (filter_props_values (fun v => filterDataByKeys v keys) keys
             (fun v => null_free v = true) props props outp); [exact Hn| |exact Hloop].
    intros k v v' Hin Hv. rewrite Forall_forall in IH.
    apply (IH (k, v) Hin v'); [apply (Hn (k, v) Hin) | exact Hv].
  - cbn [filterDataByKeys] in H.
    destruct (filter_props (fun v => filterDataByKeys v keys) keys props props)
      as [outp|] eqn:Hloop; simpl in H; [|discriminate].
    injection H as <-. cbn [null_free] in Hn |- *.
    apply andb_true_iff in Hn. destruct Hn as [Hp Hn]. rewrite Hp. cbn [andb].
    rewrite forallb_forall in Hn. apply forallb_forall.
    apply (filter_props_values (fun v => filterDataByKeys v keys) keys
             (fun v => null_free v = true) props props outp); [exact Hn| |exact Hloop].
    intros k v v' Hin Hv. rewrite Forall_forall in IH.
    apply (IH (k, v) Hin v'); [apply (Hn (k, v) Hin) | exact Hv].
Qed.

Lemma rename_object_null_free (regex : Type)
      (string_match : string -> regex -> option (list (option string)))
      (self : value -> result value)
      (patterns : list (string * rename_pattern regex))
      (todo : list (string * value)) (ret : value) :
  (forall k v, In (k, v) todo -> exists r, self v = Ok r /\ null_free r = true) ->
  null_free ret = true ->
  exists out, rename_object regex string_match self patterns todo ret = Ok out /\
              null_free out = true.
Proof.
  revert ret. induction todo as [|[k v] todo IH]; intros ret H Hret.
  - exists ret. split; [reflexivity | exact Hret].
  - cbn [rename_object]. destruct (H k v (or_introl eq_refl)) as [r [-> Hr]]. cbn [bind].
    apply IH.
    + intros k' v' Hin. apply (H k' v'). right. exact Hin.
    + apply assign_null_free; assumption.
Qed.

Lemma renameKeysInData_null_free (regex : Type)
      (string_match : string -> regex -> option (list (option string)))
      (patterns : list (string * rename_pattern regex)) (data : value) :
  null_free data = true ->
  exists out, renameKeysInData regex string_match data patterns = Ok out /\
              null_free out = true.
Proof.
  induction data as [| b | n | s | l IH | props IH | proto props _ IH]
    using value_deep_ind;
    intro Hn; try discriminate; try (eexists; split; [reflexivity | exact Hn]).
  - cbn [null_free] in Hn. rewrite forallb_forall in Hn. rewrite Forall_forall in IH.
    cbn [renameKeysInData]. apply rename_object_null_free; [|reflexivity].
    intros k v Hin. apply (IH (k, v) Hin (Hn (k, v) Hin)).
  - cbn [null_free] in Hn. apply andb_true_iff in Hn. destruct Hn as [_ Hn].
    rewrite forallb_forall in Hn. rewrite Forall_forall in IH.
    cbn [renameKeysInData]. apply rename_object_null_free; [|reflexivity].
    intros k v Hin. apply (IH (k, v) Hin (Hn (k, v) Hin)).
Qed.

Lemma filterDataByKeys_resolved_null_free (keys : list string) (data : resolved) :
  resolved_null_free data = true ->
  exists out, filterDataByKeys_resolved data keys = Ok out /\
              resolved_null_free out = true.
Proof.
  destruct data as [v|b]; intro Hn; [|exists (Builtin b); auto].
  cbn [filterDataByKeys_resolved resolved_null_free] in *.
  destruct (filterDataByKeys_total keys v Hn) as [out Hout]. rewrite Hout. cbn [bind].
  exists (Data out). split; [reflexivity|]. eapply filterDataByKeys_null_free; eauto.
Qed.

Lemma renameKeysInData_resolved_null_free (regex : Type)
      (string_match : string -> regex -> option (list (option string)))
      (patterns : list (string * rename_pattern regex)) (data : resolved) :
  resolved_null_free data = true ->
  exists out, renameKeysInData_resolved regex string_match data patterns = Ok out /\
              resolved_null_free out = true.
Proof.
  destruct data as [v|b]; intro Hn.
  - cbn [renameKeysInData_resolved resolved_null_free] in *.
    destruct (renameKeysInData_null_free regex string_match patterns v Hn)
      as [out [-> Hout]].
    exists (Data out). auto.
  - destruct b; eexists; split; reflexivity.
Qed.

Section NormalizeFacts.

Variable conv : list value -> string -> option string -> result value.
Variable sep : string.
Variable builtins : builtin -> string -> bool.
Variable regex : Type.
Variable string_match : string -> regex -> option (list (option string)).
Variable registry : string -> option (arguments -> result resolved).

(** X15.  Without conversion and without a custom function, normalizing
    a payload that holds no null ends with a value and never with an
    exception, whatever the filter and the patterns, and whatever the key
    as long as no segment of it is [__proto__]; the value holds no null,
    and no registered function is called. *)
Theorem normalizeData_null_free_returns (data : value) (options : Options.t regex) :
  Options.convertArrayToMap options = None ->
  Options.runCustomFunction options = None ->
  null_free data = true ->
  (forall k, Options.key options = Some k ->
             ~ In "__proto__" (JsString.split sep k)) ->
  exists v,
    normalizeData conv sep builtins regex string_match registry data options
    = Some (Ok v, []) /\
    resolved_null_free v = true.
Proof.
  intros Hc Hrcf Hn Hkey. unfold normalizeData, normalizeData_fuel.
  destruct (reduceData_null_free_value conv
              {| ReduceOptions.convertArrayToMap := Options.convertArrayToMap options |}
              data) as [r [Hr Hnr]]; [rewrite Hc; reflexivity | exact Hn |].
  unfold reduceData in Hr. rewrite Hr.
  unfold normalize_stages. rewrite Hrcf.
  assert (exists r1, match Options.key options with
                     | Some k => if truthy (VStr k)
                                 then getDataByKey sep builtins (Data r) k
                                 else Ok (Data r)
                     | None => Ok (Data r)
                     end = Ok r1 /\ resolved_null_free r1 = true) as [r1 [-> Hn1]].
  { destruct (Options.key options) as [k|]; [|eauto].
    destruct (truthy (VStr k)); [|eauto].
    apply resolve_segments_null_free; [exact Hnr|]. apply Hkey. reflexivity. }
  cbn [bind].
  assert (exists r2, match Options.filterByKeys options with
                     | Some keys => filterDataByKeys_resolved r1 keys
                     | None => Ok r1
                     end = Ok r2 /\ resolved_null_free r2 = true) as [r2 [-> Hn2]].
  { destruct (Options.filterByKeys options) as [keys|]; [|eauto].
    apply filterDataByKeys_resolved_null_free. exact Hn1. }
  cbn [bind].
  destruct (Options.renameKeysByPattern options) as [patterns|].
  - destruct (renameKeysInData_resolved_null_free regex string_match patterns r2 Hn2)
      as [r3 [-> Hn3]].
    exists r3. auto.
  - exists r2. auto.
Qed.

(** The stages are those of a run without custom function, followed by
    the custom function on what they return. *)
Lemma normalize_stages_staged (reduced : resolved) (options : Options.t regex) :
  exists staged,
    normalize_stages sep builtins regex string_match registry reduced
                     (without_custom_function options) = (staged, []) /\
    normalize_stages sep builtins regex string_match registry reduced options
    = match staged with
      | Throw e => (Throw e, [])
      | Ok ret =>
          match Options.runCustomFunction options with
          | Some rcf =>
              runCustomFunction registry ret
                {| CustomFunctionOptions.func := Options.name rcf;
                   CustomFunctionOptions.args := Options.args rcf |}
          | None => (Ok ret, [])
          end
      end.
Proof.
  unfold normalize_stages, without_custom_function.
  cbn [Options.key Options.filterByKeys Options.renameKeysByPattern
       Options.runCustomFunction].
  match goal with |- context [match ?s with Ok _ => _ | Throw _ => _ end] =>
    destruct s as [ret|e] end.
  - exists (Ok ret). split; reflexivity.
  - exists (Throw e). split; reflexivity.
Qed.

(** X16.  One normalization calls the registry at most once, and not at
    all when no custom function is requested or when an earlier stage
    (the reduction, the key, the filter or the renamer) has raised: the
    exception of that stage is then the outcome.  A function that is
    called gets as [data] the output of the stages before it, that is,
    what the run returns when the custom function is left out of the
    options; and the outcome of the run is that of the custom-function
    stage on this value. *)
Theorem normalizeData_calls
        (fuel : nat) (data : value) (options : Options.t regex)
        (res : result resolved) (calls : list invocation) :
  normalizeData_fuel conv sep builtins regex string_match registry fuel data options
  = Some (res, calls) ->
  List.length calls <= 1 /\
  (Options.runCustomFunction options = None -> calls = []) /\
  (forall e,
      normalizeData_fuel conv sep builtins regex string_match registry fuel data
                         (without_custom_function options) = Some (Throw e, []) ->
      res = Throw e /\ calls = []) /\
  (forall call, In call calls ->
     exists rcf staged,
       Options.runCustomFunction options = Some rcf /\
       normalizeData_fuel conv sep builtins regex string_match registry fuel data
                          (without_custom_function options) = Some (Ok staged, []) /\
       invoked call = Options.name rcf /\
       args_data (invoked_with call) = staged /\
       runCustomFunction registry staged
         {| CustomFunctionOptions.func := Options.name rcf;
            CustomFunctionOptions.args := Options.args rcf |}
       = (res, calls)).
Proof.
  unfold normalizeData_fuel.
  change (Options.convertArrayToMap (without_custom_function options))
    with (Options.convertArrayToMap options).
  destruct (reduceData_fuel conv fuel data _) as [[r|e]|]; [| |discriminate].
  2:{ intro H. injection H as <- <-. simpl. split; [lia|]. split; [auto|].
      split; [|intros c []]. intros e0 H0. injection H0 as <-. auto. }
  destruct (normalize_stages_staged (Data r) options) as [staged [Hwithout ->]].
  rewrite Hwithout. clear Hwithout.
  destruct staged as [staged|e].
  2:{ intro H. injection H as <- <-. simpl. split; [lia|]. split; [auto|].
      split; [|intros c []]. intros e0 H0. injection H0 as <-. auto. }
  destruct (Options.runCustomFunction options) as [rcf|] eqn:Hrcf.
  2:{ intro H. injection H as <- <-. simpl. split; [lia|]. split; [auto|].
      split; [discriminate | intros c []]. }
  intro H. injection H as H.
  destruct calls as [|call calls].
  - simpl. split; [lia|]. split; [discriminate|]. split; [discriminate | intros c []].
  - destruct (runCustomFunction_call_shape registry staged _ res call calls H)
      as [-> [Hname [Hdata _]]].
    simpl. split; [lia|]. split; [discriminate|]. split; [discriminate|].
    intros c [<-|[]]. exists rcf, staged.
    split; [reflexivity|]. split; [reflexivity|]. split; [exact Hname|].
    split; [exact Hdata | exact H].
Qed.

(** X17.  Once the key does not resolve, the sentinel ['missing key'] is
    what the filter and the renamer get, and both hand it on untouched:
    without a custom function the result is the sentinel, whatever
    [filterByKeys] and [renameKeysByPattern] are. *)
Theorem normalize_stages_missing_key
        (reduced : resolved) (options : Options.t regex) (k : string) :
  Options.key options = Some k ->
  truthy (VStr k) = true ->
  getDataByKey sep builtins reduced k = Ok (Data missing_key) ->
  Options.runCustomFunction options = None ->
  normalize_stages sep builtins regex string_match registry reduced options
  = (Ok (Data missing_key), []).
Proof.
  intros Hk Ht Hget Hrcf. unfold normalize_stages.
  rewrite Hk, Ht, Hget, Hrcf. cbn [bind].
  destruct (Options.filterByKeys options);
    cbn [filterDataByKeys_resolved filterDataByKeys missing_key bind];
    destruct (Options.renameKeysByPattern options); reflexivity.
Qed.

End NormalizeFacts.

Lemma normalizeData_null_free_returns_witness :
  (Options.convertArrayToMap (stages_options "sys/tmm-info/0.0/stats") = None /\
   Options.runCustomFunction (stages_options "sys/tmm-info/0.0/stats") = None /\
   null_free tmm_payload = true /\
   (forall k, Options.key (stages_options "sys/tmm-info/0.0/stats") = Some k ->
              ~ In "__proto__" (JsString.split "::" k))) /\
  normalizeData keyed_by_index "::" es5_builtins string literal_match echo_registry
                tmm_payload (stages_options "sys/tmm-info/0.0/stats")
  = Some (Ok (Data (VObj [("oneMinAverageSystem", VNum 5)])), []).
Proof.
  assert (forall k, Options.key (stages_options "sys/tmm-info/0.0/stats") = Some k ->
                    ~ In "__proto__" (JsString.split "::" k)) as Hkey.
  { intros k Hk. injection Hk as <-. intros [H|[]]. discriminate H. }
  split; [repeat split; exact Hkey|].
  destruct (normalizeData_null_free_returns keyed_by_index "::" es5_builtins string
              literal_match echo_registry tmm_payload
              (stages_options "sys/tmm-info/0.0/stats")
              eq_refl eq_refl eq_refl Hkey) as [v [Hv _]].
  rewrite Hv. vm_compute in Hv. injection Hv as <-. reflexivity.
Defined.

Lemma normalizeData_calls_witness :
  normalizeData_fuel keyed_by_index "::" es5_builtins string literal_match echo_registry 4
                     foo_payload echo_options
  = Some (Ok (Data (VObj [("sys/foo", VNum 1)])),
          [{| invoked := "echo";
              invoked_with := {| args_data := Data (VObj [("sys/foo", VNum 1)]);
                                 args_named := VObj [] |} |}])
  /\ exists staged,
      normalizeData_fuel keyed_by_index "::" es5_builtins string literal_match
                         echo_registry 4 foo_payload
                         (without_custom_function echo_options)
      = Some (Ok staged, []) /\
      staged = Data (VObj [("sys/foo", VNum 1)]).
Proof.
  split; [reflexivity|].
  destruct (normalizeData_calls keyed_by_index "::" es5_builtins string literal_match
              echo_registry 4 foo_payload echo_options _ _ eq_refl)
    as [_ [_ [_ Hcall]]].
  destruct (Hcall _ (or_introl eq_refl)) as [rcf [staged [_ [Hstaged [_ [Hdata _]]]]]].
  exists staged. split; [exact Hstaged | symmetry; exact Hdata].
Defined.

Lemma normalize_stages_missing_key_witness :
  (Options.key (stages_options "absent") = Some "absent" /\
   truthy (VStr "absent") = true /\
   getDataByKey "::" es5_builtins (VObj [("oneTmm", VNum 1)]) "absent"
   = Ok (Data missing_key) /\
   Options.runCustomFunction (stages_options "absent") = None) /\
  normalize_stages "::" es5_builtins string literal_match echo_registry
                   (VObj [("oneTmm", VNum 1)]) (stages_options "absent")
  = (Ok (Data missing_key), []).
Proof.
  split; [repeat split|].
  apply (normalize_stages_missing_key "::" es5_builtins string literal_match echo_registry
           (VObj [("oneTmm", VNum 1)]) (stages_options "absent") "absent");
    reflexivity.
Defined.

(** * compareVersionStrings *)

Section VersionCompareFacts.

Variable number : Type.
Variable zero : number.
Variable parse_or_zero : string -> number.
Variable less : number -> number -> bool.

(** [<] on numbers is asymmetric. *)
Hypothesis less_asym : forall a b, less a b = true -> less b a = false.

Lemma less_irrefl (a : number) : less a a = false.
Proof. destruct (less a a) eqn:H; [|reflexivity]. rewrite (less_asym _ _ H) in H. discriminate. Qed.

Lemma compare_from_swap (l1 l2 : list string) (todo : nat) :
  forall i,
    compare_from number zero parse_or_zero less l2 l1 i todo
    = (- compare_from number zero parse_or_zero less l1 l2 i todo)%Z.
Proof.
  induction todo as [|todo IH]; intro i; [reflexivity|].
  cbn [compare_from].
  destruct (less (part_at number zero parse_or_zero l1 i)
                 (part_at number zero parse_or_zero l2 i)) eqn:H12.
  - rewrite (less_asym _ _ H12). reflexivity.
  - destruct (less (part_at number zero parse_or_zero l2 i)
                   (part_at number zero parse_or_zero l1 i)); [reflexivity | apply IH].
Qed.

Lemma compare_from_same (l : list string) (todo : nat) :
  forall i, compare_from number zero parse_or_zero less l l i todo = 0%Z.
Proof.
  induction todo as [|todo IH]; intro i; [reflexivity|].
  cbn [compare_from]. rewrite less_irrefl. apply IH.
Qed.

Lemma compare_from_range (l1 l2 : list string) (todo : nat) :
  forall i,
    let c := compare_from number zero parse_or_zero less l1 l2 i todo in
    c = 1%Z \/ c = 0%Z \/ c = (-1)%Z.
Proof.
  induction todo as [|todo IH]; intro i; cbn [compare_from]; [auto|].
  destruct (less _ _); [auto|]. destruct (less _ _); [auto|]. apply IH.
Qed.

Lemma valid_comparator_cases (c : string) :
  not_in_array c VERSION_COMPARATORS = false ->
  c = "==" \/ c = "===" \/ c = "<" \/ c = "<=" \/ c = ">" \/ c = ">=" \/ c = "!=" \/
  c = "!==".
Proof.
  unfold not_in_array, VERSION_COMPARATORS. rewrite negb_false_iff.
  intro H. apply existsb_exists in H. destruct H as [x [Hin Hx]].
  apply String.eqb_eq in Hx. subst x. simpl in Hin.
  repeat (destruct Hin as [Hin|Hin]; [subst; auto 10|]). contradiction.
Qed.

(** X18.  Version comparison behaves like an order on versions:
    comparing a version with itself holds for the comparators [=], [==],
    [===], [<=], [>=] and fails for [<], [>], [!=], [!==]; and exchanging
    the two versions amounts to mirroring the comparator ([<] with [>],
    [<=] with [>=]), the equality comparators being symmetric. *)
Theorem compareVersionStrings_order (v1 v2 : string) :
  compareVersionStrings number zero parse_or_zero less v1 "==" v1 = Ok true /\
  compareVersionStrings number zero parse_or_zero less v1 "<=" v1 = Ok true /\
  compareVersionStrings number zero parse_or_zero less v1 ">=" v1 = Ok true /\
  compareVersionStrings number zero parse_or_zero less v1 "<" v1 = Ok false /\
  compareVersionStrings number zero parse_or_zero less v1 ">" v1 = Ok false /\
  compareVersionStrings number zero parse_or_zero less v1 "!=" v1 = Ok false /\
  compareVersionStrings number zero parse_or_zero less v1 "<" v2
  = compareVersionStrings number zero parse_or_zero less v2 ">" v1 /\
  compareVersionStrings number zero parse_or_zero less v1 "<=" v2
  = compareVersionStrings number zero parse_or_zero less v2 ">=" v1 /\
  compareVersionStrings number zero parse_or_zero less v1 "==" v2
  = compareVersionStrings number zero parse_or_zero less v2 "==" v1 /\
  compareVersionStrings number zero parse_or_zero less v1 "!=" v2
  = compareVersionStrings number zero parse_or_zero less v2 "!=" v1.
Proof.
  unfold compareVersionStrings. cbn [String.eqb not_in_array].
  cbv beta iota zeta.
  assert (forall c, (c = "==" \/ c = "<=" \/ c = ">=" \/ c = "<" \/ c = ">" \/ c = "!=") ->
                    not_in_array c VERSION_COMPARATORS = false) as Hvalid.
  { intros c H. repeat (destruct H as [H|H]; [subst; reflexivity|]). subst. reflexivity. }
  rewrite !Hvalid by auto 10.
  rewrite !compare_from_same.
  rewrite (Nat.max_comm (List.length (JsString.split "." v2))).
  rewrite (compare_from_swap (JsString.split "." v1) (JsString.split "." v2)).
  generalize (compare_from number zero parse_or_zero less
                (JsString.split "." v1) (JsString.split "." v2) 0
                (Nat.max (List.length (JsString.split "." v1))
                         (List.length (JsString.split "." v2)))).
  intro c. unfold eval_comparison. cbn [String.eqb Ascii.eqb Bool.eqb orb].
  repeat split; f_equal.
  - rewrite Z.gtb_ltb. destruct (Z.ltb_spec 0 c), (Z.ltb_spec (- c) 0); try reflexivity; lia.
  - rewrite Z.geb_leb. destruct (Z.leb_spec 0 c), (Z.leb_spec (- c) 0); try reflexivity; lia.
  - destruct (Z.eqb_spec 0 c), (Z.eqb_spec 0 (- c)); try reflexivity; lia.
  - destruct (Z.eqb_spec 0 c), (Z.eqb_spec 0 (- c)); try reflexivity; lia.
Qed.

End VersionCompareFacts.

Section VersionCompareParts.

Variable number : Type.
Variable zero : number.
Variable parse_or_zero : string -> number.
Variable less : number -> number -> bool.

(** X19.  The comparator is checked before anything else: [=] stands for
    [==], the eight comparators of the table give a boolean, and any other
    text makes the call throw "Invalid comparator" with that text.  The
    comparators are consistent with one another: [===] is [==], [!==] is
    [!=], [!=] is the negation of [==], [>=] of [<], and [<=] of [>]. *)
Theorem compareVersionStrings_comparators (v1 comparator v2 : string) :
  ((exists b, compareVersionStrings number zero parse_or_zero less v1 comparator v2 = Ok b)
   <-> In comparator ("=" :: VERSION_COMPARATORS)) /\
  (compareVersionStrings number zero parse_or_zero less v1 comparator v2
   = Throw (Error ("Invalid comparator '" ++ comparator ++ "'"))
   <-> ~ In comparator ("=" :: VERSION_COMPARATORS)) /\
  compareVersionStrings number zero parse_or_zero less v1 "=" v2
  = compareVersionStrings number zero parse_or_zero less v1 "==" v2 /\
  (forall b,
      compareVersionStrings number zero parse_or_zero less v1 "==" v2 = Ok b ->
      compareVersionStrings number zero parse_or_zero less v1 "===" v2 = Ok b /\
      compareVersionStrings number zero parse_or_zero less v1 "!=" v2 = Ok (negb b) /\
      compareVersionStrings number zero parse_or_zero less v1 "!==" v2 = Ok (negb b)) /\
  (forall b,
      compareVersionStrings number zero parse_or_zero less v1 "<" v2 = Ok b ->
      compareVersionStrings number zero parse_or_zero less v1 ">=" v2 = Ok (negb b)) /\
  (forall b,
      compareVersionStrings number zero parse_or_zero less v1 ">" v2 = Ok b ->
      compareVersionStrings number zero parse_or_zero less v1 "<=" v2 = Ok (negb b)).
Proof.
  assert (forall c, In c VERSION_COMPARATORS <-> not_in_array c VERSION_COMPARATORS = false)
    as Htable.
  { intro c. unfold not_in_array. rewrite negb_false_iff, existsb_exists. split.
    - intro H. exists c. split; [exact H | apply String.eqb_refl].
    - intros [x [Hin Hx]]. apply String.eqb_eq in Hx. subst. exact Hin. }
  split; [|split; [|split; [reflexivity|]]].
  - unfold compareVersionStrings. eqb_case comparator "=".
    + subst. split; [intros _; left; reflexivity | intros _; eexists; reflexivity].
    + destruct (not_in_array comparator VERSION_COMPARATORS) eqn:Hn.
      * split; [intros [b Hb]; discriminate|].
        intros [H|H]; [congruence|]. apply Htable in H. congruence.
      * split; [intros _; right; apply Htable; exact Hn | intros _; eexists; reflexivity].
  - unfold compareVersionStrings. eqb_case comparator "=".
    + subst. split; [discriminate | intro H; exfalso; apply H; left; reflexivity].
    + destruct (not_in_array comparator VERSION_COMPARATORS) eqn:Hn.
      * split; [|reflexivity]. intros _ [H|H]; [congruence|].
        apply Htable in H. congruence.
      * split; [discriminate|]. intro H. exfalso. apply H. right. apply Htable. exact Hn.
  - unfold compareVersionStrings. cbn [String.eqb Ascii.eqb Bool.eqb].
    cbv beta iota zeta.
    assert (forall c, In c VERSION_COMPARATORS ->
                      not_in_array c VERSION_COMPARATORS = false) as Hvalid
        by (intros c H; apply Htable; exact H).
    rewrite !Hvalid by (unfold VERSION_COMPARATORS; simpl; auto 10).
    generalize (compare_from number zero parse_or_zero less
                  (JsString.split "." v1) (JsString.split "." v2) 0
                  (Nat.max (List.length (JsString.split "." v1))
                           (List.length (JsString.split "." v2)))).
    intro c. unfold eval_comparison. cbn [String.eqb Ascii.eqb Bool.eqb orb].
    split; [|split].
    + intros b H. injection H as <-. auto.
    + intros b H. injection H as <-. f_equal.
      rewrite Z.geb_leb. destruct (Z.ltb_spec 0 c), (Z.leb_spec c 0); try reflexivity; lia.
    + intros b H. injection H as <-. f_equal.
      rewrite Z.gtb_ltb. destruct (Z.ltb_spec c 0), (Z.leb_spec 0 c); try reflexivity; lia.
Qed.

(** [<] on numbers is irreflexive. *)
Hypothesis less_irrefl : forall a, less a a = false.

Lemma compare_from_ext (l1 l2 l2' : list string) (todo : nat) :
  (forall i, part_at number zero parse_or_zero l2' i
             = part_at number zero parse_or_zero l2 i) ->
  forall i, compare_from number zero parse_or_zero less l1 l2' i todo
            = compare_from number zero parse_or_zero less l1 l2 i todo.
Proof.
  intro H. induction todo as [|todo IH]; intro i; [reflexivity|].
  cbn [compare_from]. rewrite H, IH. reflexivity.
Qed.

Lemma compare_from_beyond (l1 l2 : list string) (todo : nat) :
  forall i,
    List.length l1 <= i + todo -> List.length l2 <= i + todo ->
    compare_from number zero parse_or_zero less l1 l2 i (S todo)
    = compare_from number zero parse_or_zero less l1 l2 i todo.
Proof.
  induction todo as [|todo IH]; intros i H1 H2.
  - cbn [compare_from]. unfold part_at.
    assert (nth_error l1 i = None) as -> by (apply nth_error_None; lia).
    assert (nth_error l2 i = None) as -> by (apply nth_error_None; lia).
    rewrite less_irrefl. reflexivity.
  - cbn [compare_from].
    destruct (less _ _); [reflexivity|]. destruct (less _ _); [reflexivity|].
    change (compare_from number zero parse_or_zero less l1 l2 (S i) (S todo)
            = compare_from number zero parse_or_zero less l1 l2 (S i) todo).
    apply IH; lia.
Qed.

Lemma part_at_snoc_zero (l : list string) (p : string) (i : nat) :
  parse_or_zero p = zero ->
  part_at number zero parse_or_zero (l ++ [p]) i
  = part_at number zero parse_or_zero l i.
Proof.
  intro Hp. unfold part_at.
  destruct (Nat.lt_ge_cases i (List.length l)) as [Hlt|Hge].
  - rewrite nth_error_app1 by exact Hlt. reflexivity.
  - rewrite nth_error_app2 by exact Hge.
    assert (nth_error l i = None) as -> by (apply nth_error_None; exact Hge).
    destruct (i - List.length l) as [|j]; simpl; [exact Hp|].
    destruct j; reflexivity.
Qed.

Lemma split_dot_snoc (s p cur : string) :
  JsString.includes "." p = false ->
  JsString.split_from "." 0 cur (s ++ String "." p)
  = JsString.split_from "." 0 cur s ++ [p].
Proof.
  intro Hp. revert cur. induction s as [|c s IH]; intro cur.
  - cbn [String.append JsString.split_from JsString.starts_with Ascii.eqb Bool.eqb andb
           String.length Nat.sub].
    rewrite split_from_absent by exact Hp. reflexivity.
  - change (String c s ++ String "." p)%string with (String c (s ++ String "." p)).
    cbn [JsString.split_from JsString.starts_with].
    destruct (Ascii.eqb "." c); cbn [andb String.length Nat.sub];
      rewrite IH; reflexivity.
Qed.

(** X20.  An absent part counts as [0]: appending to the second version a
    further part that parses to zero (as [.0] does) changes no comparison;
    so the versions are compared by value, not by their number of
    parts. *)
Theorem compareVersionStrings_trailing_zero (v1 comparator v2 p : string) :
  JsString.includes "." p = false ->
  parse_or_zero p = zero ->
  compareVersionStrings number zero parse_or_zero less v1 comparator (v2 ++ String "." p)
  = compareVersionStrings number zero parse_or_zero less v1 comparator v2.
Proof.
  intros Hdot Hp. unfold compareVersionStrings.
  destruct (not_in_array _ VERSION_COMPARATORS); [reflexivity|].
  cbv zeta. f_equal. f_equal.
  unfold JsString.split. rewrite split_dot_snoc by exact Hdot.
  set (l1 := JsString.split_from "." 0 "" v1).
  set (l2 := JsString.split_from "." 0 "" v2).
  rewrite length_app. cbn [List.length].
  rewrite (compare_from_ext l1 l2 (l2 ++ [p]))
    by (intro i; apply part_at_snoc_zero; exact Hp).
  destruct (Nat.le_gt_cases (List.length l1) (List.length l2)) as [Hle|Hgt].
  - replace (Nat.max (List.length l1) (List.length l2 + 1)) with (S (List.length l2)) by lia.
    replace (Nat.max (List.length l1) (List.length l2)) with (List.length l2) by lia.
    apply compare_from_beyond; simpl; lia.
  - replace (Nat.max (List.length l1) (List.length l2 + 1)) with (List.length l1) by lia.
    replace (Nat.max (List.length l1) (List.length l2)) with (List.length l1) by lia.
    reflexivity.
Qed.

End VersionCompareParts.

Lemma compareVersionStrings_order_witness :
  (forall a b : Z, Z.ltb a b = true -> Z.ltb b a = false) /\
  compareVersionStrings Z 0%Z numeral_or_zero Z.ltb "1.2.3" "<" "1.10"
  = compareVersionStrings Z 0%Z numeral_or_zero Z.ltb "1.10" ">" "1.2.3".
Proof.
  assert (forall a b : Z, Z.ltb a b = true -> Z.ltb b a = false) as Hasym.
  { intros a b H. apply Z.ltb_lt in H. apply Z.ltb_ge. lia. }
  split; [exact Hasym|].
  apply (compareVersionStrings_order Z 0%Z numeral_or_zero Z.ltb Hasym "1.2.3" "1.10").
Defined.

Lemma compareVersionStrings_trailing_zero_witness :
  (forall a : Z, Z.ltb a a = false) /\
  JsString.includes "." "0" = false /\
  numeral_or_zero "0" = 0%Z /\
  compareVersionStrings Z 0%Z numeral_or_zero Z.ltb "14.1" "==" ("14.1" ++ String "." "0")
  = compareVersionStrings Z 0%Z numeral_or_zero Z.ltb "14.1" "==" "14.1".
Proof.
  split; [exact Z.ltb_irrefl|]. split; [reflexivity|]. split; [reflexivity|].
  apply (compareVersionStrings_trailing_zero Z 0%Z numeral_or_zero Z.ltb Z.ltb_irrefl
           "14.1" "==" "14.1" "0"); reflexivity.
Defined.

Section VersionCompareFirstDifference.

Variable number : Type.
Variable zero : number.
Variable parse_or_zero : string -> number.
Variable less : number -> number -> bool.

(** [<] on numbers is irreflexive. *)
Hypothesis less_irrefl : forall a, less a a = false.

Lemma compare_from_first_difference (l1 l2 : list string) (k : nat) :
  forall i todo,
    k < todo ->
    (forall j, j < k ->
               less (part_at number zero parse_or_zero l1 (i + j))
                    (part_at number zero parse_or_zero l2 (i + j)) = false /\
               less (part_at number zero parse_or_zero l2 (i + j))
                    (part_at number zero parse_or_zero l1 (i + j)) = false) ->
    less (part_at number zero parse_or_zero l1 (i + k))
         (part_at number zero parse_or_zero l2 (i + k)) = true ->
    compare_from number zero parse_or_zero less l1 l2 i todo = 1%Z.
Proof.
  induction k as [|k IH]; intros i todo Hk Hsame Hless.
  - destruct todo as [|todo]; [lia|]. cbn [compare_from].
    rewrite Nat.add_0_r in Hless. rewrite Hless. reflexivity.
  - destruct todo as [|todo]; [lia|]. cbn [compare_from].
    destruct (Hsame 0) as [H1 H2]; [lia|]. rewrite Nat.add_0_r in H1, H2.
    rewrite H1, H2. apply IH.
    + lia.
    + intros j Hj. replace (S i + j) with (i + S j) by lia. apply Hsame. lia.
    + replace (S i + k) with (i + S k) by lia. exact Hless.
Qed.

(** X21.  A comparison is decided by the first part in which the two
    versions differ: if the parts before index [k] are pairwise not
    smaller than one another and part [k] of the first version is smaller
    than part [k] of the second (absent parts counting as zero), then the
    first version is the smaller one for every comparator. *)
Theorem compareVersionStrings_first_difference (v1 v2 : string) (k : nat) :
  (forall j, j < k ->
             less (part_at number zero parse_or_zero (JsString.split "." v1) j)
                  (part_at number zero parse_or_zero (JsString.split "." v2) j) = false /\
             less (part_at number zero parse_or_zero (JsString.split "." v2) j)
                  (part_at number zero parse_or_zero (JsString.split "." v1) j) = false) ->
  less (part_at number zero parse_or_zero (JsString.split "." v1) k)
       (part_at number zero parse_or_zero (JsString.split "." v2) k) = true ->
  compareVersionStrings number zero parse_or_zero less v1 "<" v2 = Ok true /\
  compareVersionStrings number zero parse_or_zero less v1 "<=" v2 = Ok true /\
  compareVersionStrings number zero parse_or_zero less v1 "!=" v2 = Ok true /\
  compareVersionStrings number zero parse_or_zero less v1 "==" v2 = Ok false /\
  compareVersionStrings number zero parse_or_zero less v1 ">" v2 = Ok false /\
  compareVersionStrings number zero parse_or_zero less v1 ">=" v2 = Ok false.
Proof.
  intros Hsame Hless.
  set (l1 := JsString.split "." v1) in *. set (l2 := JsString.split "." v2) in *.
  assert (k < Nat.max (List.length l1) (List.length l2)) as Hk.
  { destruct (Nat.lt_ge_cases k (Nat.max (List.length l1) (List.length l2)))
      as [H|H]; [exact H|].
    unfold part_at in Hless.
    assert (nth_error l1 k = None) as E1 by (apply nth_error_None; lia).
    assert (nth_error l2 k = None) as E2 by (apply nth_error_None; lia).
    rewrite E1, E2, less_irrefl in Hless. discriminate. }
  assert (compare_from number zero parse_or_zero less l1 l2 0
            (Nat.max (List.length l1) (List.length l2)) = 1%Z) as Hcmp
      by (apply (compare_from_first_difference l1 l2 k); assumption).
  unfold compareVersionStrings. cbn [String.eqb Ascii.eqb Bool.eqb].
  fold l1 l2. cbv zeta. rewrite Hcmp. repeat split; reflexivity.
Qed.

End VersionCompareFirstDifference.

Lemma compareVersionStrings_first_difference_witness :
  (forall a : Z, Z.ltb a a = false) /\
  (forall j, j < 1 ->
             Z.ltb (part_at Z 0%Z numeral_or_zero (JsString.split "." "14.1.2") j)
                   (part_at Z 0%Z numeral_or_zero (JsString.split "." "14.10") j) = false /\
             Z.ltb (part_at Z 0%Z numeral_or_zero (JsString.split "." "14.10") j)
                   (part_at Z 0%Z numeral_or_zero (JsString.split "." "14.1.2") j) = false) /\
  Z.ltb (part_at Z 0%Z numeral_or_zero (JsString.split "." "14.1.2") 1)
        (part_at Z 0%Z numeral_or_zero (JsString.split "." "14.10") 1) = true /\
  compareVersionStrings Z 0%Z numeral_or_zero Z.ltb "14.1.2" "<" "14.10" = Ok true.
Proof.
  assert (forall j, j < 1 ->
             Z.ltb (part_at Z 0%Z numeral_or_zero (JsString.split "." "14.1.2") j)
                   (part_at Z 0%Z numeral_or_zero (JsString.split "." "14.10") j) = false /\
             Z.ltb (part_at Z 0%Z numeral_or_zero (JsString.split "." "14.10") j)
                   (part_at Z 0%Z numeral_or_zero (JsString.split "." "14.1.2") j) = false)
    as Hsame.
  { intros j Hj. destruct j as [|j]; [split; reflexivity | lia]. }
  split; [exact Z.ltb_irrefl|]. split; [exact Hsame|]. split; [reflexivity|].
  apply (compareVersionStrings_first_difference Z 0%Z numeral_or_zero Z.ltb Z.ltb_irrefl
           "14.1.2" "14.10" 1 Hsame).
  reflexivity.
Defined.

(** ** misc.js: camelCaseToUnderscoreCase *)

Lemma lower_unit_not_capital (c : ascii) : is_capital (lower_unit c) = false.
Proof.
  destruct c as [[] [] [] [] [] [] [] []]; vm_compute; reflexivity.
Qed.

Lemma lower_unit_idempotent (c : ascii) : lower_unit (lower_unit c) = lower_unit c.
Proof.
  destruct c as [[] [] [] [] [] [] [] []]; vm_compute; reflexivity.
Qed.

Lemma toLowerCase_idempotent (s : string) : toLowerCase (toLowerCase s) = toLowerCase s.
Proof.
  induction s as [|c s IH]; [reflexivity|].
  cbn [toLowerCase]. rewrite lower_unit_idempotent, IH. reflexivity.
Qed.

Lemma toLowerCase_no_capital (s : string) : no_capital (toLowerCase s) = true.
Proof.
  unfold no_capital. induction s as [|c s IH]; [reflexivity|].
  cbn [toLowerCase units forallb]. rewrite lower_unit_not_capital, IH. reflexivity.
Qed.

Lemma toLowerCase_app (a b : string) :
  toLowerCase (a ++ b) = (toLowerCase a ++ toLowerCase b)%string.
Proof.
  induction a as [|c a IH]; [reflexivity|].
  cbn [String.append toLowerCase]. rewrite IH. reflexivity.
Qed.

Lemma toLowerCase_concat (l : list string) :
  toLowerCase (String.concat "_" l) = String.concat "_" (List.map toLowerCase l).
Proof.
  induction l as [|x l IH]; [reflexivity|].
  destruct l as [|y l]; [reflexivity|].
  change (String.concat "_" (x :: y :: l))
    with (x ++ String "_" (String.concat "_" (y :: l)))%string.
  rewrite toLowerCase_app. cbn [toLowerCase]. rewrite IH. reflexivity.
Qed.

Lemma split_before_capitals_no_capital (s : string) :
  forall cur, no_capital s = true -> split_before_capitals cur s = [(cur ++ s)%string].
Proof.
  unfold no_capital. induction s as [|c s IH]; intros cur H.
  - cbn [split_before_capitals]. rewrite string_app_nil_r. reflexivity.
  - cbn [units forallb] in H. apply andb_true_iff in H. destruct H as [Hc Hs].
    apply negb_true_iff in Hc. cbn [split_before_capitals]. rewrite Hc.
    cbn [andb]. rewrite IH by exact Hs. rewrite string_app_assoc. reflexivity.
Qed.

(** X22.  The result of the conversion is in normal form: it contains no
    capital letter [A-Z], and converting it again changes nothing. *)
Theorem camelCaseToUnderscoreCase_normal_form (str : string) :
  no_capital (camelCaseToUnderscoreCase str) = true /\
  camelCaseToUnderscoreCase (camelCaseToUnderscoreCase str)
  = camelCaseToUnderscoreCase str.
Proof.
  split; [apply toLowerCase_no_capital|].
  unfold camelCaseToUnderscoreCase at 1.
  rewrite split_before_capitals_no_capital by apply toLowerCase_no_capital.
  cbn [String.concat String.append]. unfold camelCaseToUnderscoreCase.
  apply toLowerCase_idempotent.
Qed.

Lemma concat_empty_cons (w : string) (ws : list string) :
  String.concat "" (w :: ws) = (w ++ String.concat "" ws)%string.
Proof.
  destruct ws as [|y ws]; [cbn [String.concat]; rewrite string_app_nil_r|]; reflexivity.
Qed.

Lemma split_before_capitals_words (ws : list string) :
  Forall (fun w => starts_with_capital w = true /\ is_word w = true) ws ->
  forall t cur,
    cur <> EmptyString -> no_capital t = true ->
    split_before_capitals cur (t ++ String.concat "" ws) = (cur ++ t)%string :: ws.
Proof.
  induction 1 as [|w ws [Hcap Hword] Hrest IH]; intros t.
  - intros cur _ Ht. cbn [String.concat]. rewrite string_app_nil_r.
    apply split_before_capitals_no_capital. exact Ht.
  - induction t as [|c t IHt]; intros cur Hcur Ht.
    + rewrite concat_empty_cons. destruct w as [|c w]; [discriminate|].
      cbn [starts_with_capital] in Hcap. cbn [is_word] in Hword.
      cbn [String.append split_before_capitals]. rewrite Hcap.
      assert (String.eqb cur "" = false) as -> by (apply String.eqb_neq; exact Hcur).
      cbn [andb negb]. rewrite string_app_nil_r. f_equal.
      apply (IH w (String c EmptyString)); [discriminate | exact Hword].
    + unfold no_capital in Ht. cbn [units forallb] in Ht.
      apply andb_true_iff in Ht. destruct Ht as [Hc Ht]. apply negb_true_iff in Hc.
      cbn [String.append split_before_capitals]. rewrite Hc. cbn [andb].
      rewrite IHt; [rewrite string_app_assoc; reflexivity | | exact Ht].
      destruct cur; discriminate.
Qed.

(** X23.  A camel-case name made of words, each word after the first one
    starting with a capital letter and no word having a capital letter
    elsewhere, is converted to its words in lower case joined by [_]. *)
Theorem camelCaseToUnderscoreCase_words (w : string) (ws : list string) :
  is_word w = true ->
  Forall (fun w' => starts_with_capital w' = true /\ is_word w' = true) ws ->
  camelCaseToUnderscoreCase (String.concat "" (w :: ws))
  = String.concat "_" (List.map toLowerCase (w :: ws)).
Proof.
  intros Hw Hws. unfold camelCaseToUnderscoreCase. rewrite <- toLowerCase_concat.
  f_equal. f_equal. rewrite concat_empty_cons.
  destruct w as [|c w]; [discriminate|]. cbn [is_word] in Hw.
  cbn [String.append split_before_capitals String.eqb negb].
  rewrite andb_false_r.
  apply (split_before_capitals_words ws Hws w (String c EmptyString));
    [discriminate | exact Hw].
Qed.

Lemma camelCaseToUnderscoreCase_words_witness :
  is_word "max" = true /\
  Forall (fun w' => starts_with_capital w' = true /\ is_word w' = true)
         ["Conn"; "Per"; "Sec"] /\
  camelCaseToUnderscoreCase (String.concat "" ["max"; "Conn"; "Per"; "Sec"])
  = String.concat "_" (List.map toLowerCase ["max"; "Conn"; "Per"; "Sec"]).
Proof.
  assert (Forall (fun w' => starts_with_capital w' = true /\ is_word w' = true)
                 ["Conn"; "Per"; "Sec"]) as Hws
      by (repeat constructor).
  split; [reflexivity|]. split; [exact Hws|].
  apply (camelCaseToUnderscoreCase_words "max" ["Conn"; "Per"; "Sec"]);
    [reflexivity | exact Hws].
Defined.

(** ** misc.js: generateUniquePropName *)

Lemma decimal_injective (n m : nat) : decimal n = decimal m -> n = m.
Proof.
  unfold decimal. intro H.
  assert (Some (Nat.to_uint n) = Some (Nat.to_uint m)) as Hu
      by (rewrite <- !NilEmpty.usu, H; reflexivity).
  injection Hu as Hu.
  rewrite <- (DecimalNat.Unsigned.of_to n), <- (DecimalNat.Unsigned.of_to m), Hu.
  reflexivity.
Qed.

Lemma string_app_cancel (a b c : string) : (a ++ b)%string = (a ++ c)%string -> b = c.
Proof.
  induction a as [|x a IH]; cbn [String.append]; intro H; [exact H|].
  injection H as H. apply IH. exact H.
Qed.

Lemma bounded_search (f : nat -> bool) (k : nat) :
  (exists n, n < k /\ f n = false /\ forall m, m < n -> f m = true) \/
  (forall n, n < k -> f n = true).
Proof.
  induction k as [|k [[n [Hn [Hf Hmin]]]|Hall]].
  - right. intros n Hn. lia.
  - left. exists n. repeat split; [lia | exact Hf | exact Hmin].
  - destruct (f k) eqn:Hk.
    + right. intros n Hn. destruct (Nat.eq_dec n k) as [->|Hne]; [exact Hk|].
      apply Hall. lia.
    + left. exists k. repeat split; [lia | exact Hk | exact Hall].
Qed.

Lemma NoDup_map_injective {A B : Type} (f : A -> B) (l : list A) :
  (forall x y, f x = f y -> x = y) -> NoDup l -> NoDup (List.map f l).
Proof.
  intros Hinj. induction 1 as [|x l Hx Hnd IH]; cbn [List.map]; constructor.
  - intro Hin. apply in_map_iff in Hin. destruct Hin as [y [Hy Hin]].
    apply Hinj in Hy. subst. contradiction.
  - exact IH.
Qed.

Section UniquePropNameFacts.

Variable hasKey : value -> string -> bool.
Variable object : value.

(** An object has finitely many keys: [present] lists them. *)
Variable present : list string.
Hypothesis present_complete : forall key, hasKey object key = true -> In key present.

Lemma numbered_name_free (originKey : string) :
  exists n, n < S (List.length present) /\
            hasKey object (originKey ++ decimal n) = false /\
            forall m, m < n -> hasKey object (originKey ++ decimal m) = true.
Proof.
  destruct (bounded_search (fun n => hasKey object (originKey ++ decimal n))
                           (S (List.length present))) as [Hfound|Hall];
    [exact Hfound|].
  exfalso.
  assert (NoDup (List.map (fun n => (originKey ++ decimal n)%string)
                          (seq 0 (S (List.length present))))) as Hnd.
  { apply NoDup_map_injective; [|apply seq_NoDup].
    intros n m H. apply decimal_injective. apply (string_app_cancel originKey). exact H. }
  assert (incl (List.map (fun n => (originKey ++ decimal n)%string)
                         (seq 0 (S (List.length present)))) present) as Hincl.
  { intros name Hin. apply in_map_iff in Hin. destruct Hin as [n [<- Hn]].
    apply in_seq in Hn. apply present_complete. apply Hall. lia. }
  pose proof (NoDup_incl_length Hnd Hincl) as Hlen.
  rewrite length_map, length_seq in Hlen. lia.
Qed.

Lemma first_free_name_found (originKey : string) (n : nat) :
  hasKey object (originKey ++ decimal n) = false ->
  forall fuel startIdx,
    startIdx <= n -> n < startIdx + fuel ->
    (forall m, startIdx <= m -> m < n ->
               hasKey object (originKey ++ decimal m) = true) ->
    first_free_name hasKey object originKey "" startIdx fuel
    = Some (originKey ++ decimal n)%string.
Proof.
  intro Hfree. induction fuel as [|fuel IH]; intros startIdx Hle Hlt Hbelow; [lia|].
  cbn [first_free_name String.append].
  destruct (Nat.eq_dec startIdx n) as [->|Hne].
  - rewrite Hfree. reflexivity.
  - rewrite (Hbelow startIdx) by lia. apply IH; [lia | lia |].
    intros m Hm1 Hm2. apply Hbelow; lia.
Qed.

(** X24.  The name generated is a name the object does not have.  It is
    the origin key itself when that one is free; otherwise it is the
    origin key followed by the smallest counter, from 0, that gives a free
    name.  The search ends after at most as many trials as the object has
    keys, plus one. *)
Theorem generateUniquePropName_unique (originKey : string) (fuel : nat) :
  List.length present < fuel ->
  exists name,
    generateUniquePropName hasKey fuel object originKey = Some name /\
    hasKey object name = false /\
    (hasKey object originKey = false -> name = originKey) /\
    (hasKey object originKey = true ->
     exists n, n <= List.length present /\
               name = (originKey ++ decimal n)%string /\
               forall m, m < n -> hasKey object (originKey ++ decimal m) = true).
Proof.
  intro Hfuel. unfold generateUniquePropName.
  destruct (hasKey object originKey) eqn:Hhas; cbn [negb].
  - destruct (numbered_name_free originKey) as [n [Hn [Hfree Hmin]]].
    exists (originKey ++ decimal n)%string.
    split; [|split; [exact Hfree | split; [discriminate|]]].
    + apply first_free_name_found; [exact Hfree | lia | lia |].
      intros m _ Hm. apply Hmin. exact Hm.
    + intros _. exists n. repeat split; [lia | exact Hmin].
  - exists originKey. repeat split; [exact Hhas | discriminate].
Qed.

End UniquePropNameFacts.

Lemma generateUniquePropName_unique_witness :
  (forall key,
      has_own_key (VObj [("name", VNull); ("name0", VNull); ("name1", VNull)]) key = true ->
      In key ["name"; "name0"; "name1"]) /\
  List.length ["name"; "name0"; "name1"] < 4 /\
  exists name,
    generateUniquePropName has_own_key 4
      (VObj [("name", VNull); ("name0", VNull); ("name1", VNull)]) "name" = Some name /\
    has_own_key (VObj [("name", VNull); ("name0", VNull); ("name1", VNull)]) name = false /\
    (has_own_key (VObj [("name", VNull); ("name0", VNull); ("name1", VNull)]) "name" = false ->
     name = "name") /\
    (has_own_key (VObj [("name", VNull); ("name0", VNull); ("name1", VNull)]) "name" = true ->
     exists n, n <= List.length ["name"; "name0"; "name1"] /\
               name = ("name" ++ decimal n)%string /\
               forall m, m < n ->
                         has_own_key (VObj [("name", VNull); ("name0", VNull); ("name1", VNull)])
                                     ("name" ++ decimal m) = true).
Proof.
  assert (forall key,
      has_own_key (VObj [("name", VNull); ("name0", VNull); ("name1", VNull)]) key = true ->
      In key ["name"; "name0"; "name1"]) as Hpresent.
  { intros key. unfold has_own_key, has_prop. cbn [get_prop].
    eqb_case key "name"; [intros _; left; symmetry; assumption|].
    eqb_case key "name0"; [intros _; right; left; symmetry; assumption|].
    eqb_case key "name1"; [intros _; right; right; left; symmetry; assumption|].
    discriminate. }
  split; [exact Hpresent|]. split; [simpl; lia|].
  apply (generateUniquePropName_unique has_own_key
           (VObj [("name", VNull); ("name0", VNull); ("name1", VNull)])
           ["name"; "name0"; "name1"] Hpresent "name" 4).
  simpl. lia.
Defined.

(** ** misc.js: the duplicate-key handler *)

Lemma indexOf_Some (x : string) (keys : list string) :
  forall i, indexOf x keys = Some i -> nth_error keys i = Some x.
Proof.
  induction keys as [|k keys IH]; intros i H; [discriminate|].
  cbn [indexOf] in H. eqb_case k x.
  - injection H as <-. subst. reflexivity.
  - destruct (indexOf x keys) as [j|]; [|discriminate].
    injection H as <-. cbn [nth_error]. apply IH. reflexivity.
Qed.

Lemma indexOf_None (x : string) (keys : list string) :
  indexOf x keys = None <-> ~ In x keys.
Proof.
  induction keys as [|k keys IH]; cbn [indexOf In]; [tauto|].
  eqb_case k x.
  - split; [discriminate | intro H; exfalso; apply H; left; assumption].
  - destruct (indexOf x keys) as [j|].
    + split; [discriminate|]. intro H. exfalso.
      assert (~ In x keys) as Hn by tauto. apply IH in Hn. discriminate.
    + split; [|reflexivity]. intros _ [H|H]; [contradiction|].
      apply IH in H; [exact H | reflexivity].
Qed.

Lemma indexOf_app (x k : string) (keys : list string) :
  indexOf x (keys ++ [k])
  = match indexOf x keys with
    | Some i => Some i
    | None => if String.eqb k x then Some (List.length keys) else None
    end.
Proof.
  induction keys as [|k' keys IH]; cbn [app indexOf List.length].
  - destruct (String.eqb k x); reflexivity.
  - destruct (String.eqb k' x); [reflexivity|]. rewrite IH.
    destruct (indexOf x keys); [reflexivity|].
    destruct (String.eqb k x); reflexivity.
Qed.

Lemma length_set_at (i : nat) (v : value) (values : list value) :
  List.length (set_at i v values) = List.length values.
Proof.
  revert i. induction values as [|x values IH]; intros [|i]; cbn [set_at List.length];
    try reflexivity.
  rewrite IH. reflexivity.
Qed.

Lemma nth_error_set_at (i j : nat) (v : value) (values : list value) :
  nth_error (set_at i v values) j
  = if Nat.eqb i j
    then match nth_error values j with Some _ => Some v | None => None end
    else nth_error values j.
Proof.
  revert i j. induction values as [|x values IH]; intros [|i] [|j];
    cbn [set_at nth_error Nat.eqb]; try reflexivity.
  - destruct (Nat.eqb _ _); reflexivity.
  - apply IH.
Qed.

(** X25.  The handler keeps the two arrays of the parser in step: when
    [keys] and [values] have the same length the call succeeds and they
    still have the same length; a key is never listed twice; the keys met
    before keep their places, and the key of the call is among the keys
    afterwards. *)
Theorem arrayHandler_keeps_arrays_in_step
        (keys : list string) (key : string) (values : list value) (new_value : value) :
  List.length keys = List.length values ->
  NoDup keys ->
  exists keys' values',
    arrayHandler keys key values new_value = Some (keys', values') /\
    List.length keys' = List.length values' /\
    NoDup keys' /\
    In key keys' /\
    (if existsb (String.eqb key) keys then keys' = keys else keys' = keys ++ [key]).
Proof.
  intros Hlen Hnd. unfold arrayHandler.
  destruct (indexOf key keys) as [i|] eqn:Hi.
  - pose proof (indexOf_Some _ _ _ Hi) as Hnth.
    assert (In key keys) as Hin by (eapply nth_error_In; exact Hnth).
    assert (existsb (String.eqb key) keys = true) as Hex.
    { apply existsb_exists. exists key. split; [exact Hin | apply String.eqb_refl]. }
    assert (i < List.length values) as Hlt
        by (rewrite <- Hlen; apply nth_error_Some; congruence).
    destruct (nth_error values i) as [existingValue|] eqn:Hv;
      [|apply nth_error_None in Hv; lia].
    rewrite Hex.
    destruct existingValue; eexists; eexists; (split; [reflexivity|]);
      rewrite length_set_at; repeat split; assumption.
  - assert (~ In key keys) as Hnot by (apply indexOf_None; exact Hi).
    assert (existsb (String.eqb key) keys = false) as Hex.
    { destruct (existsb (String.eqb key) keys) eqn:E; [|reflexivity].
      apply existsb_exists in E. destruct E as [x [Hx Hk]].
      apply String.eqb_eq in Hk. subst. contradiction. }
    rewrite Hex. eexists; eexists. split; [reflexivity|].
    rewrite !length_app. cbn [List.length]. repeat split.
    + lia.
    + apply NoDup_app; [exact Hnd | repeat constructor; intros [] |].
      intros x Hx [<-|[]]. contradiction.
    + apply in_or_app. right. left. reflexivity.
Qed.

Lemma arrayHandler_keeps_arrays_in_step_witness :
  List.length ["dup"; "nonDup"] = List.length [VStr "yes"; VBool true] /\
  NoDup ["dup"; "nonDup"] /\
  exists keys' values',
    arrayHandler ["dup"; "nonDup"] "dup" [VStr "yes"; VBool true] (VObj [("inside", VNull)])
    = Some (keys', values') /\
    List.length keys' = List.length values' /\
    NoDup keys' /\
    In "dup" keys' /\
    (if existsb (String.eqb "dup") ["dup"; "nonDup"]
     then keys' = ["dup"; "nonDup"] else keys' = ["dup"; "nonDup"] ++ ["dup"]).
Proof.
  assert (NoDup ["dup"; "nonDup"]) as Hnd.
  { repeat constructor; simpl; intuition discriminate. }
  split; [reflexivity|]. split; [exact Hnd|].
  apply (arrayHandler_keeps_arrays_in_step
           ["dup"; "nonDup"] "dup" [VStr "yes"; VBool true] (VObj [("inside", VNull)])
           eq_refl Hnd).
Defined.

(** X26.  After the call, the key of the call holds the new value when it
    was not met before; otherwise it holds an array made of what it held
    (its elements, when that was an array) followed by the new value (its
    elements, when that is an array).  No other key changes its value. *)
Theorem arrayHandler_values
        (keys keys' : list string) (key : string)
        (values values' : list value) (new_value : value) :
  List.length keys = List.length values ->
  arrayHandler keys key values new_value = Some (keys', values') ->
  value_of keys' values' key
  = Some (match value_of keys values key with
          | None => new_value
          | Some existingValue => VArr (spread existingValue ++ spread new_value)
          end) /\
  forall k, k <> key -> value_of keys' values' k = value_of keys values k.
Proof.
  intros Hlen H. unfold arrayHandler in H. unfold value_of.
  destruct (indexOf key keys) as [i|] eqn:Hi.
  - destruct (nth_error values i) as [existingValue|] eqn:Hv; [|discriminate].
    assert (keys' = keys /\
            values' = set_at i (VArr (spread existingValue ++ spread new_value)) values)
      as [-> ->].
    { destruct existingValue; injection H as <- <-; split; try reflexivity;
        unfold array_concat, spread; destruct new_value; reflexivity. }
    rewrite Hi. split.
    + rewrite nth_error_set_at, Nat.eqb_refl, Hv. reflexivity.
    + intros k Hk. destruct (indexOf k keys) as [j|] eqn:Hj; [|reflexivity].
      rewrite nth_error_set_at.
      destruct (Nat.eqb_spec i j) as [->|Hne]; [|reflexivity].
      apply indexOf_Some in Hi. apply indexOf_Some in Hj. congruence.
  - injection H as <- <-. split.
    + rewrite indexOf_app, Hi, String.eqb_refl, Hlen.
      rewrite nth_error_app2 by lia. rewrite Nat.sub_diag. reflexivity.
    + intros k Hk. rewrite indexOf_app.
      destruct (indexOf k keys) as [j|] eqn:Hj.
      * apply indexOf_Some in Hj.
        assert (j < List.length values)
          by (rewrite <- Hlen; apply nth_error_Some; congruence).
        rewrite nth_error_app1 by assumption. reflexivity.
      * eqb_case key k; [congruence | reflexivity].
Qed.

Lemma arrayHandler_values_witness :
  List.length ["dup"; "nonDup"] = List.length [VStr "yes"; VBool true] /\
  arrayHandler ["dup"; "nonDup"] "dup" [VStr "yes"; VBool true] (VObj [("inside", VNull)])
  = Some (["dup"; "nonDup"], [VArr [VStr "yes"; VObj [("inside", VNull)]]; VBool true]) /\
  value_of ["dup"; "nonDup"] [VArr [VStr "yes"; VObj [("inside", VNull)]]; VBool true] "dup"
  = Some (match value_of ["dup"; "nonDup"] [VStr "yes"; VBool true] "dup" with
          | None => VObj [("inside", VNull)]
          | Some existingValue =>
              VArr (spread existingValue ++ spread (VObj [("inside", VNull)]))
          end).
Proof.
  split; [reflexivity|]. split; [reflexivity|].
  apply (arrayHandler_values
           ["dup"; "nonDup"] ["dup"; "nonDup"] "dup"
           [VStr "yes"; VBool true] [VArr [VStr "yes"; VObj [("inside", VNull)]]; VBool true]
           (VObj [("inside", VNull)]) eq_refl eq_refl).
Defined.

(** ** misc.js: maskSecrets *)

Section MaskSecretsFacts.

Variable regex : Type.
Variable regex_replace : regex -> string -> string -> string.
Variable passphrase_object_regex : regex.
Variable passphrase_text_regex : regex.
Variable cipherText_regex : regex.

Lemma mask_keywords_absent (keywords : list (Keyword.t regex)) (msg : string) :
  (forall keyword, In keyword keywords ->
                   JsString.includes (Keyword.str keyword) msg = false) ->
  mask_keywords regex regex_replace keywords msg = msg.
Proof.
  intro H. unfold mask_keywords.
  assert (forall ret,
             fold_left
               (fun ret keyword =>
                  if JsString.includes (Keyword.str keyword) msg
                  then regex_replace (Keyword.replace keyword) (Keyword.with_ keyword) ret
                  else ret)
               keywords ret = ret) as Hfold; [|apply Hfold].
  induction keywords as [|keyword keywords IH]; intro ret; [reflexivity|].
  cbn [fold_left]. rewrite (H keyword) by (left; reflexivity).
  apply IH. intros k Hk. apply H. right. exact Hk.
Qed.

(** X27.  A message in which neither [passphrase] nor [cipherText] occurs
    is returned as it is, whatever the regular expressions of the table
    match; and so is every value that is not a string. *)
Theorem maskSecrets_without_keywords (msg : value) :
  (forall s, msg = VStr s ->
             JsString.includes "passphrase" s = false /\
             JsString.includes "cipherText" s = false) ->
  maskSecrets regex regex_replace
              passphrase_object_regex passphrase_text_regex cipherText_regex msg
  = msg.
Proof.
  intro H. destruct msg as [| | |s| | |]; try reflexivity.
  destruct (H s eq_refl) as [Hp Hc]. cbn [maskSecrets]. f_equal.
  apply mask_keywords_absent.
  intros keyword [<-|[<-|[<-|[]]]]; assumption.
Qed.

End MaskSecretsFacts.

Lemma maskSecrets_without_keywords_witness :
  (forall s, VStr "declaration accepted" = VStr s ->
             JsString.includes "passphrase" s = false /\
             JsString.includes "cipherText" s = false) /\
  maskSecrets string (fun re rep s => JsString.replace re rep s)
              "passphrase: {}" "passphrase: x" "cipherText: x"
              (VStr "declaration accepted")
  = VStr "declaration accepted".
Proof.
  assert (forall s, VStr "declaration accepted" = VStr s ->
                    JsString.includes "passphrase" s = false /\
                    JsString.includes "cipherText" s = false) as H.
  { intros s Hs. injection Hs as <-. split; reflexivity. }
  split; [exact H|].
  apply (maskSecrets_without_keywords string (fun re rep s => JsString.replace re rep s)
           "passphrase: {}" "passphrase: x" "cipherText: x"
           (VStr "declaration accepted") H).
Defined.

(** ** misc.js: isObjectEmpty *)

(** X28.  A value is empty exactly when it has no own property to
    enumerate: null, the numbers and the booleans always are, a string, a
    sequence or a mapping when it has no code unit, element or key.  Every
    falsy value is empty. *)
Theorem isObjectEmpty_no_own_property (obj : value) :
  (isObjectEmpty obj = true <-> own_props obj = []) /\
  (truthy obj = false -> isObjectEmpty obj = true).
Proof.
  split.
  - destruct obj as [|b|n|s|elems|props|proto props];
      cbn [isObjectEmpty own_props]; try (split; reflexivity).
    + destruct s; cbn; split; (reflexivity || discriminate).
    + destruct elems; cbn; split; (reflexivity || discriminate).
    + destruct props; split; (reflexivity || discriminate).
    + destruct props; split; (reflexivity || discriminate).
  - destruct obj as [|b|n|s|elems|props|proto props];
      cbn [isObjectEmpty own_props truthy]; try reflexivity; try discriminate.
    destruct s; [reflexivity | discriminate].
Qed.
